(** * podcast-mirror: the ingestion job (download_feeds.py) and the query
    tool (feedcli.py), embedded in Rocq.

    The Python code is translated function by function.  Everything the
    program reaches outside itself is explicit:

    - text is a [string] of 8-bit code points (the Latin-1 range of a
      Python [str]);
    - a parsed XML document is a [pyval]: the nest of dicts, lists, strings
      and [None] that xmltodict returns;
    - the SQLite connection is a pair of databases, the last committed one
      and the one the open transaction sees;
    - the media tree is a finite map from locations to files and
      directories, rooted at the working directory;
    - the network, the XML reader, the wall clock, the host's zone names,
      the REALs the SQLite library reads and writes, and the way the C
      library writes a year are an [env] of oracles.

    Exceptions are values of [exn]; a computation returns a [result]
    together with the state it leaves behind, since a failing feed keeps the
    files it has already written. *)

From Stdlib Require Import ZArith NArith String Ascii List Lia Bool DecimalString Sorted.
From stdpp Require Import base gmap strings list.
Import ListNotations.
Open Scope string_scope.
Open Scope Z_scope.
Set Warnings "-register-all".

(** ** Python text *)

Module Text.

Definition code (c : ascii) : N := N_of_ascii c.

Definition between (lo hi n : N) : bool := ((lo <=? n) && (n <=? hi))%N.

(** [\d] of [re] and the digits [int] accepts: 0-9 is the only decimal
    digit block below code point 256. *)
Definition isdigit_char (c : ascii) : bool := between 48 57 (code c).

Definition digit_value (c : ascii) : Z := Z.of_N (code c) - 48.

(** [str.isalnum] on one character: letters, and every character with a
    numeric value. *)
Definition isalnum_char (c : ascii) : bool :=
  let n := code c in
  between 48 57 n || between 65 90 n || between 97 122 n
  || (n =? 170)%N || between 178 179 n || (n =? 181)%N
  || between 185 186 n || between 188 190 n
  || between 192 214 n || between 216 246 n || between 248 255 n.

(** [str.isspace] on one character, also [\s] of [re]. *)
Definition isspace_char (c : ascii) : bool :=
  let n := code c in
  between 9 13 n || between 28 32 n || (n =? 133)%N || (n =? 160)%N.

Fixpoint all_chars (p : ascii -> bool) (s : string) : bool :=
  match s with
  | EmptyString => true
  | String c r => p c && all_chars p r
  end.

(** [s.isalnum()]: false on the empty string. *)
Definition isalnum (s : string) : bool :=
  match s with
  | EmptyString => false
  | _ => all_chars isalnum_char s
  end.

Fixpoint lstrip (s : string) : string :=
  match s with
  | String c r => if isspace_char c then lstrip r else s
  | EmptyString => EmptyString
  end.

(** [s.rstrip()]: a character is dropped when it is white space and nothing
    but white space follows it. *)
Fixpoint rstrip (s : string) : string :=
  match s with
  | EmptyString => EmptyString
  | String c r =>
      match rstrip r with
      | EmptyString => if isspace_char c then EmptyString else String c EmptyString
      | r' => String c r'
      end
  end.

Definition strip (s : string) : string := rstrip (lstrip s).

Definition lower_char (c : ascii) : ascii :=
  let n := code c in
  if between 65 90 n || between 192 214 n || between 216 222 n
  then ascii_of_N (n + 32) else c.

Fixpoint lower (s : string) : string :=
  match s with
  | EmptyString => EmptyString
  | String c r => String (lower_char c) (lower r)
  end.

(** [s.startswith(p)], returning what follows the prefix. *)
Fixpoint strip_prefix (p s : string) : option string :=
  match p, s with
  | EmptyString, _ => Some s
  | String a p', String b s' => if Ascii.eqb a b then strip_prefix p' s' else None
  | String _ _, EmptyString => None
  end.

Definition startswith (s p : string) : bool :=
  match strip_prefix p s with Some _ => true | None => false end.

(** The same, letter case ignored. *)
Fixpoint strip_prefix_ci (p s : string) : option string :=
  match p, s with
  | EmptyString, _ => Some s
  | String a p', String b s' =>
      if Ascii.eqb (lower_char a) (lower_char b) then strip_prefix_ci p' s' else None
  | String _ _, EmptyString => None
  end.

Fixpoint concat (l : list string) : string :=
  match l with
  | [] => EmptyString
  | s :: r => String.append s (concat r)
  end.

(** [sep.join(l)] *)
Fixpoint join (sep : string) (l : list string) : string :=
  match l with
  | [] => EmptyString
  | [s] => s
  | s :: r => String.append s (String.append sep (join sep r))
  end.

Definition digit_char (d : Z) : ascii := ascii_of_N (Z.to_N (48 + d mod 10)).

Definition pad2 (n : Z) : string :=
  String (digit_char (n / 10)) (String (digit_char n) EmptyString).

Definition pad4 (n : Z) : string :=
  String (digit_char (n / 1000)) (String (digit_char (n / 100)) (pad2 n)).

(** A number in decimal, no padding. *)
Definition decimal (n : Z) : string := NilEmpty.string_of_int (Z.to_int n).

Definition hex_char (d : N) : ascii :=
  if (d <? 10)%N then ascii_of_N (48 + d) else ascii_of_N (87 + d).

Definition hex2 (c : ascii) : string :=
  String (hex_char (code c / 16)) (String (hex_char (code c mod 16)) EmptyString).

(** [int(s)]: surrounding white space, a sign, decimal digits with single
    underscores between them.  [None] is Python's ValueError. *)
Fixpoint int_digits (acc : Z) (s : string) : option Z :=
  match s with
  | EmptyString => Some acc
  | String c r =>
      if isdigit_char c then int_digits (10 * acc + digit_value c) r
      else if Ascii.eqb c "_" then
        match r with
        | String d r' =>
            if isdigit_char d then int_digits (10 * acc + digit_value d) r' else None
        | EmptyString => None
        end
      else None
  end.

Definition int_unsigned (s : string) : option Z :=
  match s with
  | String c r => if isdigit_char c then int_digits (digit_value c) r else None
  | EmptyString => None
  end.

(** Stripping by a test of one's own. *)
Fixpoint lstrip_by (p : ascii -> bool) (s : string) : string :=
  match s with
  | String c r => if p c then lstrip_by p r else s
  | EmptyString => EmptyString
  end.

Fixpoint rstrip_by (p : ascii -> bool) (s : string) : string :=
  match s with
  | EmptyString => EmptyString
  | String c r =>
      match rstrip_by p r with
      | EmptyString => if p c then EmptyString else String c EmptyString
      | r' => String c r'
      end
  end.

(** The white space [int] skips around a number: the ASCII white space of
    C, and the white space above the ASCII range, which [int] turns into
    blanks first.  The separators 28-31 are white space for [str.strip]
    but not here. *)
Definition int_space_char (c : ascii) : bool :=
  let n := code c in
  between 9 13 n || (n =? 32)%N || (n =? 133)%N || (n =? 160)%N.

Fixpoint count_digits (s : string) : nat :=
  match s with
  | EmptyString => O
  | String c r => if isdigit_char c then S (count_digits r) else count_digits r
  end.

(** [int(s)] for a text: an optional sign and decimal digits, single
    underscores between digits, white space around.  A text of more than
    4300 digits is refused (the default of [sys.set_int_max_str_digits]). *)
Definition int (s : string) : option Z :=
  let t := rstrip_by int_space_char (lstrip_by int_space_char s) in
  if (4300 <? count_digits t)%nat then None
  else
    match t with
    | String "-" r => option_map Z.opp (int_unsigned r)
    | String "+" r => int_unsigned r
    | _ => int_unsigned t
    end.

(** Letter case as SQLite's LIKE folds it: the letters A-Z only. *)
Definition ascii_lower_char (c : ascii) : ascii :=
  let n := code c in
  if between 65 90 n then ascii_of_N (n + 32) else c.

End Text.

(** ** Python values, exceptions, and the libraries that produce them *)

Module Py.

(** What [xmltodict.parse] returns: [None], [str], [list] and [dict] (a dict
    keeps insertion order, and its keys are unique). *)
Inductive pyval : Type :=
| PNone
| PStr (s : string)
| PList (l : list pyval)
| PDict (kv : list (string * pyval)).

(** The exception classes the program can meet.  All of them derive from
    [Exception], which is what the batch loop catches. *)
Inductive exn : Type :=
| TypeError | KeyError | ValueError | AttributeError | ZeroDivisionError
| FileNotFoundError | FileExistsError | NotADirectoryError | IsADirectoryError
| ConnectionError | HTTPError | ExpatError
| OperationalError | ProgrammingError | OverflowError.

Inductive result (A : Type) : Type :=
| Ok (a : A)
| Raise (e : exn).
Arguments Ok {A} a.
Arguments Raise {A} e.

Definition is_ok {A} (r : result A) : bool :=
  match r with Ok _ => true | Raise _ => false end.

Fixpoint lookup (kv : list (string * pyval)) (k : string) : option pyval :=
  match kv with
  | [] => None
  | (k', v) :: r => if String.eqb k' k then Some v else lookup r k
  end.

(** [v[k]] with a string key. *)
Definition getitem (v : pyval) (k : string) : result pyval :=
  match v with
  | PDict kv => match lookup kv k with Some x => Ok x | None => Raise KeyError end
  | _ => Raise TypeError
  end.

(** [v.get(k)] *)
Definition get (v : pyval) (k : string) : result pyval :=
  match v with
  | PDict kv => match lookup kv k with Some x => Ok x | None => Ok PNone end
  | _ => Raise AttributeError
  end.

Fixpoint chars (s : string) : list pyval :=
  match s with
  | EmptyString => []
  | String c r => PStr (String c EmptyString) :: chars r
  end.

(** What [for x in v] walks through. *)
Definition iter (v : pyval) : result (list pyval) :=
  match v with
  | PNone => Raise TypeError
  | PStr s => Ok (chars s)
  | PList l => Ok l
  | PDict kv => Ok (map (fun p => PStr (fst p)) kv)
  end.

Definition dq : string := String (ascii_of_N 34) EmptyString.
Definition sq : string := String (ascii_of_N 39) EmptyString.
Definition bs : string := String (ascii_of_N 92) EmptyString.

Fixpoint contains_char (a : ascii) (s : string) : bool :=
  match s with
  | EmptyString => false
  | String c r => Ascii.eqb a c || contains_char a r
  end.

(** [repr] of a string: single quotes unless it holds one and no double
    quote; control and unprintable characters as escapes. *)
Definition repr_char (q : ascii) (c : ascii) : string :=
  let n := Text.code c in
  if Ascii.eqb c q || (n =? 92)%N then String (ascii_of_N 92) (String c EmptyString)
  else if (n =? 9)%N then String.append bs "t"
  else if (n =? 10)%N then String.append bs "n"
  else if (n =? 13)%N then String.append bs "r"
  else if (n <? 32)%N || Text.between 127 160 n || (n =? 173)%N
       then String.append bs (String "x" (Text.hex2 c))
  else String c EmptyString.

Fixpoint repr_chars (q : ascii) (s : string) : string :=
  match s with
  | EmptyString => EmptyString
  | String c r => String.append (repr_char q c) (repr_chars q r)
  end.

Definition repr_str (s : string) : string :=
  let q := if contains_char (ascii_of_N 39) s && negb (contains_char (ascii_of_N 34) s)
           then ascii_of_N 34 else ascii_of_N 39 in
  String q (String.append (repr_chars q s) (String q EmptyString)).

Fixpoint repr (v : pyval) : string :=
  match v with
  | PNone => "None"
  | PStr s => repr_str s
  | PList l => String.append "[" (String.append (Text.join ", " (map repr l)) "]")
  | PDict kv =>
      String.append "{"
        (String.append
           (Text.join ", "
              (map (fun p => String.append (repr_str (fst p))
                                (String.append ": " (repr (snd p)))) kv))
           "}")
  end.

(** [str(v)], as an f-string formats a value. *)
Definition str (v : pyval) : string :=
  match v with
  | PStr s => s
  | _ => repr v
  end.

(** [json.dumps] with its defaults. *)
Definition json_char (c : ascii) : string :=
  let n := Text.code c in
  if (n =? 34)%N || (n =? 92)%N then String (ascii_of_N 92) (String c EmptyString)
  else if (n =? 10)%N then String.append bs "n"
  else if (n =? 13)%N then String.append bs "r"
  else if (n =? 9)%N then String.append bs "t"
  else if (n =? 8)%N then String.append bs "b"
  else if (n =? 12)%N then String.append bs "f"
  else if (n <? 32)%N || (126 <? n)%N
       then String.append bs (String.append "u00" (Text.hex2 c))
  else String c EmptyString.

Fixpoint json_chars (s : string) : string :=
  match s with
  | EmptyString => EmptyString
  | String c r => String.append (json_char c) (json_chars r)
  end.

Definition json_str (s : string) : string :=
  String.append dq (String.append (json_chars s) dq).

Fixpoint json_dumps (v : pyval) : string :=
  match v with
  | PNone => "null"
  | PStr s => json_str s
  | PList l => String.append "[" (String.append (Text.join ", " (map json_dumps l)) "]")
  | PDict kv =>
      String.append "{"
        (String.append
           (Text.join ", "
              (map (fun p => String.append (json_str (fst p))
                                (String.append ": " (json_dumps (snd p)))) kv))
           "}")
  end.

(** *** xmltodict *)

(** The element tree an XML reader finds in a text: tag, attributes,
    child elements in document order, and the character data directly
    inside the element (all of its pieces joined). *)
Inductive xml : Type :=
| Element (tag : string) (attrs : list (string * string))
          (children : list xml) (text : string).

Definition tag_of (e : xml) : string :=
  match e with Element t _ _ _ => t end.

(** [_DictSAXHandler.push_data]: a key met for the first time holds the
    value itself; met again, the values are gathered in a list. *)
Fixpoint push_data (item : list (string * pyval)) (key : string) (data : pyval)
  : list (string * pyval) :=
  match item with
  | [] => [(key, data)]
  | (k, v) :: r =>
      if String.eqb k key
      then (k, match v with
               | PList l => PList (l ++ [data])
               | _ => PList [v; data]
               end) :: r
      else (k, v) :: push_data r key data
  end.

(** [startElement] / [endElement] with the default options: attributes
    under ["@name"], stripped character data under ["#text"] when the
    element also has attributes or children, and alone otherwise. *)
Fixpoint to_value (e : xml) : pyval :=
  match e with
  | Element _ attrs children text =>
      let item0 := map (fun a => (String "@" (fst a), PStr (snd a))) attrs in
      let item :=
        fold_left (fun it c => push_data it (fst c) (snd c))
                  (map (fun c => (tag_of c, to_value c)) children) item0 in
      let data := Text.strip text in
      match item, data with
      | [], EmptyString => PNone
      | [], _ => PStr data
      | _, EmptyString => PDict item
      | _, _ => PDict (push_data item "#text" (PStr data))
      end
  end.

(** [xmltodict.parse] of a well-formed document. *)
Definition xmltodict_of (root : xml) : pyval :=
  PDict (push_data [] (tag_of root) (to_value root)).

End Py.

(** ** datetime *)

Module Datetime.

(** A naive [datetime]; the program never attaches a zone to it. *)
Record datetime : Type := {
  year : Z; month : Z; day : Z; hour : Z; minute : Z; second : Z
}.

Definition weekdays : list string := ["mon"; "tue"; "wed"; "thu"; "fri"; "sat"; "sun"].

Definition months : list string :=
  ["jan"; "feb"; "mar"; "apr"; "may"; "jun"; "jul"; "aug"; "sep"; "oct"; "nov"; "dec"].

Definition is_leap (y : Z) : bool :=
  ((y mod 4 =? 0) && negb (y mod 100 =? 0)) || (y mod 400 =? 0).

Definition days_in_month (y m : Z) : Z :=
  if m =? 2 then (if is_leap y then 29 else 28)
  else if (m =? 4) || (m =? 6) || (m =? 9) || (m =? 11) then 30
  else 31.

(** The pieces of the regular expression [_strptime] builds for the format.
    Each piece hands what it read to the rest of the pattern [k]; when the
    rest fails, the next alternative of the piece is tried, as [re] does. *)
Section Pieces.
Context {A : Type}.

Definition orelse (a b : option A) : option A :=
  match a with Some x => Some x | None => b end.

(** The first name of [names], numbered from [i], that the text starts
    with (letter case ignored). *)
Fixpoint name_from (i : Z) (names : list string) (s : string)
                   (k : Z -> string -> option A) : option A :=
  match names with
  | [] => None
  | n :: r =>
      orelse (match Text.strip_prefix_ci n s with
              | Some rest => k i rest
              | None => None
              end)
             (name_from (i + 1) r s k)
  end.

Definition lit (c : ascii) (s : string) (k : string -> option A) : option A :=
  match s with
  | String a r => if Ascii.eqb a c then k r else None
  | EmptyString => None
  end.

(** [\s+] before a piece that cannot start with white space: all of the
    white space is taken. *)
Definition spaces (s : string) (k : string -> option A) : option A :=
  match s with
  | String a r => if Text.isspace_char a then k (Text.lstrip r) else None
  | EmptyString => None
  end.

(** One decimal digit, two decimal digits. *)
Definition digit1 (s : string) (k : Z -> string -> option A) : option A :=
  match s with
  | String a r => if Text.isdigit_char a then k (Text.digit_value a) r else None
  | EmptyString => None
  end.

Definition digit2 (ok : Z -> Z -> bool) (s : string)
                  (k : Z -> string -> option A) : option A :=
  match s with
  | String a (String b r) =>
      if Text.isdigit_char a && Text.isdigit_char b
         && ok (Text.digit_value a) (Text.digit_value b)
      then k (10 * Text.digit_value a + Text.digit_value b) r
      else None
  | _ => None
  end.

(** %d: [3[0-1]|[1-2]\d|0[1-9]|[1-9]| [1-9]].  The last alternative needs
    a blank that [\s+] has already taken, and after giving it back reads
    the digit the fourth one has read. *)
Definition directive_d (s : string) (k : Z -> string -> option A) : option A :=
  orelse (digit2 (fun a b => ((a =? 3) && (b <=? 1)) || (a =? 1) || (a =? 2)
                             || ((a =? 0) && (1 <=? b))) s k)
         (digit1 s (fun a r => if 1 <=? a then k a r else None)).

(** %Y: [\d\d\d\d] *)
Definition directive_Y (s : string) (k : Z -> string -> option A) : option A :=
  digit2 (fun _ _ => true) s (fun hi r =>
  digit2 (fun _ _ => true) r (fun lo r' => k (100 * hi + lo) r')).

(** %H: [2[0-3]|[0-1]\d|\d] *)
Definition directive_H (s : string) (k : Z -> string -> option A) : option A :=
  orelse (digit2 (fun a b => ((a =? 2) && (b <=? 3)) || (a <=? 1)) s k)
         (digit1 s k).

(** %M: [[0-5]\d|\d] *)
Definition directive_M (s : string) (k : Z -> string -> option A) : option A :=
  orelse (digit2 (fun a _ => a <=? 5) s k) (digit1 s k).

(** %S: [6[0-1]|[0-5]\d|\d] *)
Definition directive_S (s : string) (k : Z -> string -> option A) : option A :=
  orelse (digit2 (fun a b => ((a =? 6) && (b <=? 1)) || (a <=? 5)) s k)
         (digit1 s k).
End Pieces.

(** %Z: the zone names, longest first; the first that the text starts with
    is taken. *)
Fixpoint insert_by_length (n : string) (l : list string) : list string :=
  match l with
  | [] => [n]
  | m :: r => if (String.length m <? String.length n)%nat
              then n :: l else m :: insert_by_length n r
  end.

Definition zone_names (local : list string) : list string :=
  fold_left (fun acc n => insert_by_length n acc)
            ("utc" :: "gmt" :: map Text.lower local) [].

(** The match of ["%a, %d %b %Y %H:%M:%S %Z"] against the start of the
    text: the fields, and what is left of the text. *)
Definition match_format (local : list string) (s : string)
  : option (datetime * string) :=
  name_from 0 weekdays s (fun _ s =>
  lit "," s (fun s =>
  spaces s (fun s =>
  directive_d s (fun d s =>
  spaces s (fun s =>
  name_from 1 months s (fun m s =>
  spaces s (fun s =>
  directive_Y s (fun y s =>
  spaces s (fun s =>
  directive_H s (fun H s =>
  lit ":" s (fun s =>
  directive_M s (fun M s =>
  lit ":" s (fun s =>
  directive_S s (fun S s =>
  spaces s (fun s =>
  name_from 0 (zone_names local) s (fun _ rest =>
  Some ({| year := y; month := m; day := d;
           hour := H; minute := M; second := S |}, rest))))))))))))))))).

(** [datetime.strptime(s, "%a, %d %b %Y %H:%M:%S %Z")]; [None] is
    ValueError: no match, text left over after the match, or fields that
    are no date ([datetime] wants a year from 1, a day the month has, and
    a second below 60). *)
Definition strptime (local : list string) (s : string) : option datetime :=
  match match_format local s with
  | Some (dt, EmptyString) =>
      if (1 <=? year dt) && (day dt <=? days_in_month (year dt) (month dt))
         && (second dt <=? 59)
      then Some dt else None
  | _ => None
  end.

(** [dt.isoformat()] *)
Definition isoformat (dt : datetime) : string :=
  Text.concat [Text.pad4 (year dt); "-"; Text.pad2 (month dt); "-"; Text.pad2 (day dt);
               "T"; Text.pad2 (hour dt); ":"; Text.pad2 (minute dt); ":";
               Text.pad2 (second dt)].

(** [dt.strftime("%Y-%m-%d")].  Whether a year below 1000 is written with
    four digits depends on the C library and the version of Python:
    [padded] says whether it is. *)
Definition strftime_ymd (padded : bool) (dt : datetime) : string :=
  Text.concat [if padded || (1000 <=? year dt) then Text.pad4 (year dt)
               else Text.decimal (year dt);
               "-"; Text.pad2 (month dt); "-"; Text.pad2 (day dt)].

End Datetime.

(** ** pathlib and the media tree *)

Module Fs.
Import Py.

(** A [PurePosixPath]: the root it starts from (none, ["/"] or ["//"]) and
    its components. *)
Record path : Type := { root : string; parts : list string }.

(** The pieces of a text between its slashes. *)
Fixpoint split_slash (s : string) : list string :=
  match s with
  | EmptyString => [EmptyString]
  | String c r =>
      if Ascii.eqb c "/" then EmptyString :: split_slash r
      else match split_slash r with
           | [] => [String c EmptyString]
           | h :: t => String c h :: t
           end
  end.

Definition is_name (c : string) : bool :=
  negb (String.eqb c EmptyString) && negb (String.eqb c ".").

Definition root_of (s : string) : string :=
  match s with
  | String "/" (String "/" (String "/" _)) => "/"
  | String "/" (String "/" _) => "//"
  | String "/" _ => "/"
  | _ => EmptyString
  end.

(** Parsing one text: empty components and ["."] are dropped. *)
Definition parse (s : string) : path :=
  {| root := root_of s; parts := List.filter is_name (split_slash s) |}.

Fixpoint endswith_slash (s : string) : bool :=
  match s with
  | EmptyString => false
  | String c EmptyString => Ascii.eqb c "/"
  | String _ r => endswith_slash r
  end.

(** [posixpath.join]: a segment that starts with a slash discards what
    came before it. *)
Fixpoint join_onto (p : string) (segs : list string) : string :=
  match segs with
  | [] => p
  | b :: r =>
      join_onto
        (if Text.startswith b "/" then b
         else if String.eqb p EmptyString || endswith_slash p then String.append p b
         else String.append p (String "/" b))
        r
  end.

(** [Path(a, b, ...)] from the texts of its arguments. *)
Definition Path (segs : list string) : path :=
  match segs with
  | [] => parse EmptyString
  | a :: r => parse (join_onto a r)
  end.

(** [p.as_posix()], which is also [str(p)]. *)
Definition as_posix (p : path) : string :=
  match root p, parts p with
  | EmptyString, [] => "."
  | r, ps => String.append r (Text.join "/" ps)
  end.

(** The tree below the working directory.  A location is the list of names
    leading to it; the working directory itself is [[]] and is its own
    parent, so a path with a root is resolved from the same place. *)
Inductive node : Type :=
| Dir
| File (data : string).

Abbreviation fs := (gmap (list string) node).

Definition child (loc : list string) (name : string) : list string :=
  (loc ++ [name])%list.

Definition at_loc (t : fs) (loc : list string) : option node :=
  match loc with
  | [] => Some Dir
  | _ => t !! loc
  end.

Definition is_dir_at (t : fs) (loc : list string) : bool :=
  match at_loc t loc with Some Dir => true | _ => false end.

(** Following the components of a path from a location, as the system
    resolves a name. *)
Fixpoint walk (t : fs) (cur : list string) (ps : list string) : result (list string) :=
  match ps with
  | [] => Ok cur
  | p :: r =>
      if is_dir_at t cur then
        if String.eqb p ".." then walk t (removelast cur) r
        else match at_loc t (child cur p) with
             | Some _ => walk t (child cur p) r
             | None => Raise FileNotFoundError
             end
      else Raise NotADirectoryError
  end.

(** [p.exists()] *)
Definition exists_ (t : fs) (p : path) : bool := is_ok (walk t [] (parts p)).

(** [p.is_dir()] *)
Definition is_dir (t : fs) (p : path) : bool :=
  match walk t [] (parts p) with
  | Ok loc => is_dir_at t loc
  | Raise _ => false
  end.

(** [os.mkdir(p)] *)
Definition os_mkdir (t : fs) (ps : list string) : result unit * fs :=
  match ps with
  | [] => (Raise FileExistsError, t)
  | _ =>
      match walk t [] (removelast ps) with
      | Raise e => (Raise e, t)
      | Ok loc =>
          if negb (is_dir_at t loc) then (Raise NotADirectoryError, t)
          else if String.eqb (List.last ps EmptyString) ".." then (Raise FileExistsError, t)
          else match at_loc t (child loc (List.last ps EmptyString)) with
               | Some _ => (Raise FileExistsError, t)
               | None => (Ok tt, <[child loc (List.last ps EmptyString) := Dir]> t)
               end
      end
  end.

(** [Path.mkdir(parents=..., exist_ok=...)], over the first [n] components
    of the path:
<<
    try: os.mkdir(self)
    except FileNotFoundError:
        if not parents or self.parent == self: raise
        self.parent.mkdir(parents=True, exist_ok=True)
        self.mkdir(parents=False, exist_ok=exist_ok)
    except OSError:
        if not exist_ok or not self.is_dir(): raise
>> *)
Definition mkdir_plain (exist_ok : bool) (t : fs) (ps : list string) : result unit * fs :=
  match os_mkdir t ps with
  | (Ok u, t') => (Ok u, t')
  | (Raise e, t') =>
      match e with
      | FileExistsError | NotADirectoryError | IsADirectoryError | FileNotFoundError =>
          if exist_ok && negb (match e with FileNotFoundError => true | _ => false end)
             && is_dir t' {| root := EmptyString; parts := ps |}
          then (Ok tt, t') else (Raise e, t')
      | _ => (Raise e, t')
      end
  end.

Fixpoint mkdir_parents (n : nat) (exist_ok : bool) (t : fs) (ps : list string)
  : result unit * fs :=
  match os_mkdir t (firstn n ps) with
  | (Raise FileNotFoundError, t') =>
      match n with
      | O => (Raise FileNotFoundError, t')
      | S m =>
          match mkdir_parents m true t' ps with
          | (Ok _, t'') => mkdir_plain exist_ok t'' (firstn n ps)
          | (Raise e, t'') => (Raise e, t'')
          end
      end
  | _ => mkdir_plain exist_ok t (firstn n ps)
  end.

Definition mkdir (parents exist_ok : bool) (t : fs) (p : path) : result unit * fs :=
  if parents then mkdir_parents (List.length (parts p)) exist_ok t (parts p)
  else mkdir_plain exist_ok t (parts p).

(** [p.open("wb")]: the file is created, or emptied when it is there.
    The location of the file is returned for the writes that follow. *)
Definition open_wb (t : fs) (p : path) : result (list string) * fs :=
  match parts p with
  | [] => (Raise IsADirectoryError, t)
  | ps =>
      match walk t [] (removelast ps) with
      | Raise e => (Raise e, t)
      | Ok loc =>
          if negb (is_dir_at t loc) then (Raise NotADirectoryError, t)
          else if String.eqb (List.last ps EmptyString) ".." then (Raise IsADirectoryError, t)
          else match at_loc t (child loc (List.last ps EmptyString)) with
               | Some Dir => (Raise IsADirectoryError, t)
               | _ => (Ok (child loc (List.last ps EmptyString)),
                       <[child loc (List.last ps EmptyString) := File EmptyString]> t)
               end
      end
  end.

(** [f.write(chunk)] on a file opened at [loc]. *)
Definition write (t : fs) (loc : list string) (chunk : string) : fs :=
  match t !! loc with
  | Some (File d) => <[loc := File (String.append d chunk)]> t
  | _ => t
  end.

(** [open(name).read()] with the name given as text: a name that ends in a
    slash or in ["."] has to be a directory. *)
Definition read_text (t : fs) (name : string) : result string :=
  if String.eqb name EmptyString then Raise FileNotFoundError
  else match walk t [] (parts (parse name)) with
       | Raise e => Raise e
       | Ok loc =>
           match at_loc t loc with
           | Some (File d) =>
               if is_name (List.last (split_slash name) EmptyString)
               then Ok d else Raise NotADirectoryError
           | _ => Raise IsADirectoryError
           end
       end.

(** The file a path leads to, if it leads to one. *)
Definition file_at (t : fs) (p : path) : option string :=
  match walk t [] (parts p) with
  | Ok loc => match at_loc t loc with Some (File d) => Some d | _ => None end
  | Raise _ => None
  end.

End Fs.

(** ** SQLite *)

Module Db.
Import Py.

(** A REAL is a double: [Finite m e] is the number m * 2^e. *)
Inductive real : Type :=
| Finite (m e : Z)
| Infinite (negative : bool).

(** A stored value: NULL, an INTEGER of 64 bits, a text, or a REAL. *)
Inductive sqlval : Type :=
| SNull
| SInt (n : Z)
| SText (s : string)
| SReal (x : real).

Definition int64 (n : Z) : bool := (- 2 ^ 63 <=? n) && (n <? 2 ^ 63).

(** The order of two REALs. *)
Definition real_compare (a b : real) : comparison :=
  match a, b with
  | Finite m1 e1, Finite m2 e2 =>
      let lo := Z.min e1 e2 in
      (m1 * 2 ^ (e1 - lo)) ?= (m2 * 2 ^ (e2 - lo))
  | Infinite true, Infinite true => Eq
  | Infinite true, _ => Lt
  | _, Infinite true => Gt
  | Infinite false, Infinite false => Eq
  | Infinite false, _ => Gt
  | _, Infinite false => Lt
  end.

Definition real_leb (a b : real) : bool :=
  match real_compare a b with Gt => false | _ => true end.

Definition real_eqb (a b : real) : bool :=
  match real_compare a b with Eq => true | _ => false end.

(** The integer a REAL is, when it is an integer of 64 bits.  A column of
    INTEGER affinity stores such a REAL as the INTEGER.  (SQLite makes one
    exception, the REAL -2^63, which it keeps a REAL; as it equals the
    INTEGER -2^63 in every comparison and sorts with it, it is written as
    that INTEGER here.) *)
Definition real_int (x : real) : option Z :=
  match x with
  | Finite m e =>
      let inside v := if int64 v then Some v else None in
      if 0 <=? e then inside (m * 2 ^ e)
      else if m mod 2 ^ (- e) =? 0 then inside (m / 2 ^ (- e))
      else None
  | Infinite _ => None
  end.

(** What the SQLite library decides and the program cannot: the REAL it
    reads from a text that spells a number (none for a text that spells
    none), and the text it writes for a REAL.  Texts that spell an integer
    of 64 bits are read below, without it. *)
Record engine : Type := {
  real_of : string -> option real;
  real_text : real -> string
}.

(** White space for SQLite: tab, line feed, vertical tab, form feed,
    carriage return and blank. *)
Definition sql_space_char (c : ascii) : bool :=
  let n := Text.code c in Text.between 9 13 n || (n =? 32)%N.

Definition digits_value (s : string) : option Z :=
  if Text.all_chars Text.isdigit_char s then Text.int_unsigned s else None.

(** A text that spells an integer of 64 bits: an optional sign and decimal
    digits, white space around. *)
Definition integer_literal (s : string) : option Z :=
  let t := Text.rstrip_by sql_space_char (Text.lstrip_by sql_space_char s) in
  let value := match t with
               | String "-" r => option_map Z.opp (digits_value r)
               | String "+" r => digits_value r
               | _ => digits_value t
               end in
  match value with
  | Some n => if int64 n then Some n else None
  | None => None
  end.

(** What a column of INTEGER affinity stores for a value: a text that
    spells a number is stored as that number, as an INTEGER where the
    number is one; any other value as it is. *)
Definition integer_affinity (q : engine) (v : sqlval) : sqlval :=
  match v with
  | SText s =>
      match integer_literal s with
      | Some n => SInt n
      | None =>
          match real_of q s with
          | Some x => match real_int x with
                      | Some n => SInt n
                      | None => SReal x
                      end
          | None => v
          end
      end
  | SReal x => match real_int x with
               | Some n => SInt n
               | None => v
               end
  | _ => v
  end.

(** What a text bound to a [?] is compared as, next to a column of INTEGER
    affinity: the number it spells, if it spells one. *)
Definition number_of_text (q : engine) (s : string) : option sqlval :=
  match integer_literal s with
  | Some n => Some (SInt n)
  | None => option_map SReal (real_of q s)
  end.

(** Binding a Python value to a [?]: containers are refused. *)
Definition bind (v : pyval) : result sqlval :=
  match v with
  | PNone => Ok SNull
  | PStr s => Ok (SText s)
  | PList _ | PDict _ => Raise ProgrammingError
  end.

(** Binding a Python [int]: one that does not fit 64 bits is refused. *)
Definition bind_int (n : Z) : result sqlval :=
  if int64 n then Ok (SInt n) else Raise OverflowError.

(** [column = ?] in a WHERE clause of the ingestion job, which binds an
    [int] next to a column of INTEGER affinity and a text or [None] next to
    a column of TEXT affinity.  It is never true of NULL.  A column of
    INTEGER affinity holds no text that spells a number and, as written
    here, no REAL that is an integer of 64 bits, and a column of TEXT
    affinity holds no number: so an integer equals only that INTEGER, and
    a text only that text. *)
Definition sql_eq (a b : sqlval) : bool :=
  match a, b with
  | SInt x, SInt y => x =? y
  | SText x, SText y => String.eqb x y
  | _, _ => false
  end.

(** Equality of two numbers, an INTEGER or a REAL each. *)
Definition number_eq (a b : sqlval) : bool :=
  match a, b with
  | SInt x, SInt y => x =? y
  | SInt x, SReal y => real_eqb (Finite x 0) y
  | SReal x, SInt y => real_eqb x (Finite y 0)
  | SReal x, SReal y => real_eqb x y
  | _, _ => false
  end.

Record feed_row : Type := {
  feed_id : Z;
  f_date_added : sqlval;
  f_feed_url : sqlval;
  f_title : sqlval
}.

Record raw_feed_row : Type := {
  raw_feed_id : Z;
  r_feed_id : sqlval;
  r_date_added : sqlval;
  r_data : sqlval
}.

Record feed_item_row : Type := {
  feed_item_id : Z;
  i_feed_id : sqlval;
  i_guid : sqlval;
  i_date_added : sqlval;
  i_title : sqlval;
  i_description : sqlval;
  i_pub_date : sqlval;
  i_itunes_duration : sqlval;
  i_enclosure_url : sqlval;
  i_enclosure_length : sqlval;
  i_enclosure_type : sqlval;
  i_itunes_season : sqlval;
  i_download_path : sqlval
}.

(** A table declaration: its name and its columns, each with its type. *)
Definition table_decl : Type := (string * list (string * string))%type.

(** A database: the declared tables and indexes (index name, table,
    column), the rows of the three tables in rowid order, and for each
    table the largest rowid AUTOINCREMENT has handed out. *)
Record db : Type := {
  tables : list table_decl;
  indexes : list (string * (string * string));
  feed : list feed_row;
  feed_seq : Z;
  raw_feed : list raw_feed_row;
  raw_feed_seq : Z;
  feed_item : list feed_item_row;
  feed_item_seq : Z
}.

Fixpoint columns_of (ts : list table_decl) (name : string) : option (list string) :=
  match ts with
  | [] => None
  | (n, cols) :: r => if String.eqb n name then Some (map fst cols) else columns_of r name
  end.

Definition mem (c : string) (l : list string) : bool := existsb (String.eqb c) l.

(** Preparing a statement: the table and every column it names must be
    declared, else sqlite3 raises OperationalError. *)
Definition prepared (d : db) (table : string) (cols : list string) : bool :=
  match columns_of (tables d) table with
  | Some declared => forallb (fun c => mem c declared) cols
  | None => false
  end.

(** The rowid AUTOINCREMENT gives the next row: one more than the largest
    the table has ever held. *)
Definition next_rowid (seq : Z) (ids : list Z) : Z :=
  fold_right Z.max seq ids + 1.

Definition set_feeds (d : db) (rows : list feed_row) (seq : Z) : db :=
  {| tables := tables d; indexes := indexes d;
     feed := rows; feed_seq := seq;
     raw_feed := raw_feed d; raw_feed_seq := raw_feed_seq d;
     feed_item := feed_item d; feed_item_seq := feed_item_seq d |}.

Definition set_raw_feeds (d : db) (rows : list raw_feed_row) (seq : Z) : db :=
  {| tables := tables d; indexes := indexes d;
     feed := feed d; feed_seq := feed_seq d;
     raw_feed := rows; raw_feed_seq := seq;
     feed_item := feed_item d; feed_item_seq := feed_item_seq d |}.

Definition set_feed_items (d : db) (rows : list feed_item_row) (seq : Z) : db :=
  {| tables := tables d; indexes := indexes d;
     feed := feed d; feed_seq := feed_seq d;
     raw_feed := raw_feed d; raw_feed_seq := raw_feed_seq d;
     feed_item := rows; feed_item_seq := seq |}.

Definition with_title (r : feed_row) (t : sqlval) : feed_row :=
  {| feed_id := feed_id r; f_date_added := f_date_added r;
     f_feed_url := f_feed_url r; f_title := t |}.

Definition with_download_path (r : feed_item_row) (p : sqlval) : feed_item_row :=
  {| feed_item_id := feed_item_id r; i_feed_id := i_feed_id r; i_guid := i_guid r;
     i_date_added := i_date_added r; i_title := i_title r;
     i_description := i_description r; i_pub_date := i_pub_date r;
     i_itunes_duration := i_itunes_duration r; i_enclosure_url := i_enclosure_url r;
     i_enclosure_length := i_enclosure_length r; i_enclosure_type := i_enclosure_type r;
     i_itunes_season := i_itunes_season r; i_download_path := p |}.

(** The metadata one call of [upsert_feed_item] carries, bound. *)
Record metadata : Type := {
  m_title : sqlval;
  m_description : sqlval;
  m_pub_date : sqlval;
  m_itunes_duration : sqlval;
  m_enclosure_url : sqlval;
  m_enclosure_length : sqlval;
  m_enclosure_type : sqlval;
  m_itunes_season : sqlval
}.

Definition with_metadata (r : feed_item_row) (g : sqlval) (m : metadata) : feed_item_row :=
  {| feed_item_id := feed_item_id r; i_feed_id := i_feed_id r; i_guid := g;
     i_date_added := i_date_added r; i_title := m_title m;
     i_description := m_description m; i_pub_date := m_pub_date m;
     i_itunes_duration := m_itunes_duration m; i_enclosure_url := m_enclosure_url m;
     i_enclosure_length := m_enclosure_length m; i_enclosure_type := m_enclosure_type m;
     i_itunes_season := m_itunes_season m; i_download_path := i_download_path r |}.

Definition metadata_of (r : feed_item_row) : metadata :=
  {| m_title := i_title r; m_description := i_description r;
     m_pub_date := i_pub_date r; m_itunes_duration := i_itunes_duration r;
     m_enclosure_url := i_enclosure_url r; m_enclosure_length := i_enclosure_length r;
     m_enclosure_type := i_enclosure_type r; m_itunes_season := i_itunes_season r |}.

End Db.

(** ** Computations with state and exceptions *)

Module Eff.
Import Py.

(** A computation over a state [S]: its outcome and the state it leaves.
    The state a raised exception leaves behind is kept. *)
Definition M (S A : Type) : Type := S -> result A * S.

Definition ret {S A} (a : A) : M S A := fun s => (Ok a, s).

Definition raise {S A} (e : exn) : M S A := fun s => (Raise e, s).

Definition bind {S A B} (m : M S A) (k : A -> M S B) : M S B :=
  fun s => match m s with
           | (Ok a, s') => k a s'
           | (Raise e, s') => (Raise e, s')
           end.

(** A pure step that may raise. *)
Definition lift {S A} (r : result A) : M S A := fun s => (r, s).

(** [for x in l: body(x)] *)
Fixpoint for_each {S A} (body : A -> M S unit) (l : list A) : M S unit :=
  match l with
  | [] => ret tt
  | x :: r => bind (body x) (fun _ => for_each body r)
  end.

End Eff.

Notation "'let*' x ':=' m 'in' k" := (Eff.bind m (fun x => k))
  (at level 10, x pattern, m at level 100, k at level 200).

(** ** download_feeds.py *)

Module DownloadFeeds.
Import Py Fs Db Eff.

(** *** The world outside the program *)

(** An HTTP response: status, headers, the chunks of the body in the order
    they arrive, and whether the connection breaks after the last of them. *)
Record response : Type := {
  status : Z;
  headers : list (string * string);
  body : list string;
  broken : bool
}.

Inductive http_result : Type :=
| Failed (e : exn)
| Response (r : response).

(** What the program cannot decide: the answer to the [n]-th HTTP request
    of the run, the element tree the XML reader finds in a text (none when
    the text is not well-formed), the [n]-th reading of [time.time()], the
    value of CURRENT_TIMESTAMP, the host's zone names, the SQLite library,
    and whether [strftime] pads a year below 1000. *)
Record env : Type := {
  http_get : nat -> string -> http_result;
  expat : string -> option xml;
  clock : nat -> Z;
  current_timestamp : string;
  tzname : list string;
  sqlite : engine;
  pads_year : bool
}.

(** One start of an enclosure download: the episode it is for, the URL it
    asks for and the file it writes to. *)
Record download_call : Type := {
  for_episode : Z;
  from_url : pyval;
  destination : path
}.

(** The state of a run: the database as the open transaction sees it, the
    database as last committed, the media tree, how often the clock was
    read, the URLs requested so far, and the enclosure downloads started so
    far.  [log] only writes to stderr and is left out, except where
    formatting its message can raise. *)
Record state : Type := {
  con : db;
  saved : db;
  tree : fs;
  ticks : nat;
  requests : list string;
  downloads : list download_call
}.

Definition set_con (st : state) (d : db) : state :=
  {| con := d; saved := saved st; tree := tree st; ticks := ticks st;
     requests := requests st; downloads := downloads st |}.

Definition set_tree (st : state) (t : fs) : state :=
  {| con := con st; saved := saved st; tree := t; ticks := ticks st;
     requests := requests st; downloads := downloads st |}.

(** Running a database operation on the connection of the state. *)
Definition on_con {A} (m : M db A) : M state A :=
  fun st => let (r, d) := m (con st) in (r, set_con st d).

(** Running a file operation on the media tree of the state. *)
Definition on_tree {A} (m : fs -> result A * fs) : M state A :=
  fun st => let (r, t) := m (tree st) in (r, set_tree st t).

(** [con.commit()] and [con.rollback()] *)
Definition commit (st : state) : state :=
  {| con := con st; saved := con st; tree := tree st; ticks := ticks st;
     requests := requests st; downloads := downloads st |}.

Definition rollback (st : state) : state :=
  {| con := saved st; saved := saved st; tree := tree st; ticks := ticks st;
     requests := requests st; downloads := downloads st |}.

(** [time.time()] *)
Definition time_time (e : env) : M state Z :=
  fun st => (Ok (clock e (ticks st)),
             {| con := con st; saved := saved st; tree := tree st;
                ticks := S (ticks st);
                requests := requests st; downloads := downloads st |}).

(** [requests.get(url, ...)]: the request is counted, then answered. *)
Definition requests_get (e : env) (url : pyval) : M state response :=
  fun st =>
    match url with
    | PStr u =>
        (match http_get e (List.length (requests st)) u with
         | Failed x => Raise x
         | Response r => Ok r
         end,
         {| con := con st; saved := saved st; tree := tree st; ticks := ticks st;
            requests := (requests st ++ [u])%list; downloads := downloads st |})
    | _ => (Raise ValueError, st)
    end.

(** [res.raise_for_status()] *)
Definition raise_for_status (r : response) : result unit :=
  if (400 <=? status r) && (status r <? 600) then Raise HTTPError else Ok tt.

(** [res.headers[name]]: the names of headers are compared without regard
    to letter case. *)
Fixpoint header (hs : list (string * string)) (name : string) : result string :=
  match hs with
  | [] => Raise KeyError
  | (n, v) :: r =>
      if String.eqb (Text.lower n) (Text.lower name) then Ok v else header r name
  end.

(** *** The functions of the module *)

(** [get_feed_xml]: a local file for a [file://] reference, an HTTP GET
    otherwise.  Without [stream=True] the body is read inside
    [requests.get], which is where a broken connection shows. *)
Definition get_feed_xml (e : env) (feed_url : string) : M state string :=
  match Text.strip_prefix "file://" feed_url with
  | Some name => fun st => (read_text (tree st) name, st)
  | None =>
      let* res := requests_get e (PStr feed_url) in
      if broken res then raise ConnectionError
      else
        let* _ := lift (raise_for_status res) in
        ret (Text.concat (body res))
  end.

(** The test of the generator in [safe_filename]:
    [c.isalnum() or c in (" ", ".", "_", "-")]. *)
Definition keeps (c : pyval) : result bool :=
  match c with
  | PStr s => Ok (Text.isalnum s || mem s [" "; "."; "_"; "-"])
  | _ => Raise AttributeError
  end.

Fixpoint kept (cs : list pyval) : result string :=
  match cs with
  | [] => Ok EmptyString
  | c :: r =>
      match keeps c, kept r with
      | Raise x, _ => Raise x
      | _, Raise x => Raise x
      | Ok b, Ok t => Ok (if b then String.append (str c) t else t)
      end
  end.

(** [safe_filename]; the loop of [process_one_feed] repeats the same
    expression for the title of an item. *)
Definition safe_filename (fname : pyval) : result string :=
  match iter fname with
  | Raise x => Raise x
  | Ok cs => match kept cs with
             | Raise x => Raise x
             | Ok s => Ok (Text.rstrip s)
             end
  end.

(** The tables [get_database] creates. *)
Definition feed_decl : table_decl :=
  ("feed", [("feed_id", "INTEGER PRIMARY KEY AUTOINCREMENT"); ("date_added", "TEXT");
            ("feed_url", "TEXT"); ("title", "TEXT")]).

Definition raw_feed_decl : table_decl :=
  ("raw_feed", [("raw_feed_id", "INTEGER PRIMARY KEY AUTOINCREMENT");
                ("feed_id", "INTEGER"); ("date_added", "TEXT"); ("data", "TEXT")]).

Definition feed_item_decl : table_decl :=
  ("feed_item", [("feed_item_id", "INTEGER PRIMARY KEY AUTOINCREMENT");
                 ("feed_id", "INTEGER"); ("guid", "TEXT"); ("date_added", "TEXT");
                 ("title", "TEXT"); ("description", "TEXT"); ("pub_date", "TEXT");
                 ("itunes_duration", "TEXT"); ("enclosure_url", "TEXT");
                 ("enclosure_length", "INTEGER"); ("enclosure_type", "TEXT");
                 ("itunes_season", "INTEGER"); ("download_path", "TEXT")]).

Definition created : db :=
  {| tables := [feed_decl; raw_feed_decl; feed_item_decl]; indexes := [];
     feed := []; feed_seq := 0; raw_feed := []; raw_feed_seq := 0;
     feed_item := []; feed_item_seq := 0 |}.

(** [get_database]: the tables are created when there is no file at the
    path ([None]); a file that is there is opened as it is. *)
Definition get_database (file : option db) : db :=
  match file with
  | None => created
  | Some d => d
  end.

(** A statement is prepared, then its parameters are bound, then it runs. *)
Definition prepare (table : string) (cols : list string) : M db unit :=
  fun d => if prepared d table cols then (Ok tt, d) else (Raise OperationalError, d).

(** [upsert_feed] *)
Definition upsert_feed (now : string) (feed_url : string) (title : pyval)
                       (channel_dict : pyval) : M db Z :=
  let* _ := prepare "feed" ["feed_id"; "feed_url"] in
  let* feed_id_rec :=
    (fun d => (Ok (find (fun r => sql_eq (f_feed_url r) (SText feed_url)) (feed d)), d)) in
  let* feed_id :=
    match feed_id_rec with
    | None =>
        let* _ := prepare "feed" ["date_added"; "feed_url"; "title"; "feed_id"] in
        let* t := lift (Db.bind title) in
        fun d =>
          let id := next_rowid (feed_seq d) (map Db.feed_id (feed d)) in
          (Ok id,
           set_feeds d (feed d ++ [{| Db.feed_id := id; f_date_added := SText now;
                                      f_feed_url := SText feed_url; f_title := t |}]) id)
    | Some r =>
        let* _ := prepare "feed" ["title"; "feed_url"] in
        let* t := lift (Db.bind title) in
        fun d =>
          (Ok (Db.feed_id r),
           set_feeds d
             (map (fun x => if sql_eq (f_feed_url x) (SText feed_url)
                            then with_title x t else x) (feed d))
             (feed_seq d))
    end in
  let data := json_dumps channel_dict in
  let* _ := prepare "raw_feed" ["feed_id"; "date_added"; "data"] in
  let* _ :=
    (fun d =>
       let id := next_rowid (raw_feed_seq d) (map raw_feed_id (raw_feed d)) in
       (Ok tt,
        set_raw_feeds d
          (raw_feed d ++ [{| raw_feed_id := id; r_feed_id := SInt feed_id;
                             r_date_added := SText now; r_data := SText data |}]) id)) in
  ret feed_id.

(** The parameters of one call of [upsert_feed_item] after the key. *)
Record item_args : Type := {
  a_title : pyval;
  a_description : pyval;
  a_pub_date : pyval;
  a_itunes_duration : pyval;
  a_item_url : pyval;
  a_item_length : pyval;
  a_item_type : pyval;
  a_itunes_season : pyval
}.

Definition bind_args (a : item_args) : result metadata :=
  match Db.bind (a_title a), Db.bind (a_description a), Db.bind (a_pub_date a),
        Db.bind (a_itunes_duration a), Db.bind (a_item_url a),
        Db.bind (a_item_length a), Db.bind (a_item_type a),
        Db.bind (a_itunes_season a) with
  | Ok t, Ok d, Ok p, Ok u, Ok l, Ok n, Ok y, Ok s =>
      Ok {| m_title := t; m_description := d; m_pub_date := p;
            m_itunes_duration := u; m_enclosure_url := l;
            m_enclosure_length := n; m_enclosure_type := y;
            m_itunes_season := s |}
  | _, _, _, _, _, _, _, _ => Raise ProgrammingError
  end.

Definition feed_item_columns : list string :=
  ["guid"; "title"; "description"; "pub_date"; "itunes_duration"; "enclosure_url";
   "enclosure_length"; "enclosure_type"; "itunes_season"].

(** The parameters as the columns of [feed_item] store them: enclosure_length
    and itunes_season are INTEGER columns, the others TEXT columns, which
    store a text as it is. *)
Definition as_stored (q : engine) (m : metadata) : metadata :=
  {| m_title := m_title m; m_description := m_description m;
     m_pub_date := m_pub_date m; m_itunes_duration := m_itunes_duration m;
     m_enclosure_url := m_enclosure_url m;
     m_enclosure_length := integer_affinity q (m_enclosure_length m);
     m_enclosure_type := m_enclosure_type m;
     m_itunes_season := integer_affinity q (m_itunes_season m) |}.

(** [upsert_feed_item]; [feed_id] is the first parameter bound. *)
Definition upsert_feed_item (q : engine) (now : string) (feed_id : Z) (guid : pyval)
                            (a : item_args) : M db Z :=
  let* _ := prepare "feed_item" ["feed_item_id"; "feed_id"; "guid"] in
  let* _ := lift (bind_int feed_id) in
  let* g := lift (Db.bind guid) in
  let* feed_item_id_rec :=
    (fun d => (Ok (find (fun r => sql_eq (i_feed_id r) (SInt feed_id) && sql_eq (i_guid r) g)
                        (feed_item d)), d)) in
  match feed_item_id_rec with
  | None =>
      let* _ := prepare "feed_item"
                  ("feed_id" :: "guid" :: "date_added" :: "title" :: "description"
                   :: "pub_date" :: "itunes_duration" :: "enclosure_url"
                   :: "enclosure_length" :: "enclosure_type" :: "itunes_season"
                   :: ["feed_item_id"]) in
      let* m := lift (bind_args a) in
      let m := as_stored q m in
      fun d =>
        let id := next_rowid (feed_item_seq d) (map Db.feed_item_id (feed_item d)) in
        (Ok id,
         set_feed_items d
           (feed_item d ++
              [{| Db.feed_item_id := id; i_feed_id := SInt feed_id; i_guid := g;
                  i_date_added := SText now; i_title := m_title m;
                  i_description := m_description m; i_pub_date := m_pub_date m;
                  i_itunes_duration := m_itunes_duration m;
                  i_enclosure_url := m_enclosure_url m;
                  i_enclosure_length := m_enclosure_length m;
                  i_enclosure_type := m_enclosure_type m;
                  i_itunes_season := m_itunes_season m;
                  i_download_path := SNull |}]) id)
  | Some r =>
      let* _ := prepare "feed_item" (feed_item_columns ++ ["feed_item_id"])%list in
      let* m := lift (bind_args a) in
      let m := as_stored q m in
      fun d =>
        (Ok (Db.feed_item_id r),
         set_feed_items d
           (map (fun x => if Db.feed_item_id x =? Db.feed_item_id r
                          then with_metadata x g m else x) (feed_item d))
           (feed_item_seq d))
  end.

(** The two statements [process_one_feed] runs itself. *)
Definition select_download_path (feed_item_id : Z) : M db sqlval :=
  let* _ := prepare "feed_item" ["download_path"; "feed_item_id"] in
  fun d =>
    match find (fun r => Db.feed_item_id r =? feed_item_id) (feed_item d) with
    | Some r => (Ok (i_download_path r), d)
    | None => (Raise TypeError, d)
    end.

Definition update_download_path (p : string) (feed_item_id : Z) : M db unit :=
  let* _ := prepare "feed_item" ["download_path"; "feed_item_id"] in
  fun d =>
    (Ok tt,
     set_feed_items d
       (map (fun x => if Db.feed_item_id x =? feed_item_id
                      then with_download_path x (SText p) else x) (feed_item d))
       (feed_item_seq d)).

(** Formatting the progress message divides by the expected length and by
    the time elapsed. *)
Definition progress_message (expected_bytes current_time download_start_time : Z)
  : result unit :=
  if (expected_bytes =? 0) || (current_time =? download_start_time)
  then Raise ZeroDivisionError else Ok tt.

(** [for chunk in item_res.iter_content(...)]: returns the bytes written and
    the last reading of the clock. *)
Fixpoint write_chunks (e : env) (f : list string) (expected_bytes start : Z)
                      (chunks : list string) (bytes_downloaded current_time : Z)
  : M state (Z * Z) :=
  match chunks with
  | [] => ret (bytes_downloaded, current_time)
  | chunk :: rest =>
      let* _ := on_tree (fun t => (Ok tt, write t f chunk)) in
      let bytes_downloaded := bytes_downloaded + Z.of_nat (String.length chunk) in
      let* current_time := time_time e in
      let* _ := lift (progress_message expected_bytes current_time start) in
      write_chunks e f expected_bytes start rest bytes_downloaded current_time
  end.

Definition note_download (c : download_call) : M state unit :=
  fun st => (Ok tt,
             {| con := con st; saved := saved st; tree := tree st; ticks := ticks st;
                requests := requests st;
                downloads := (downloads st ++ [c])%list |}).

(** The branch of [process_one_feed] under [if not item_file.exists()],
    after its first line: the request, the copy to the file, and the
    completion record. *)
Definition fetch (e : env) (item_url : pyval) (item_file : path) (feed_item_id : Z)
  : M state unit :=
  let* item_res := requests_get e item_url in
  let* length_text := lift (header (headers item_res) "content-length") in
  let* expected_bytes :=
    lift (match Text.int length_text with Some n => Ok n | None => Raise ValueError end) in
  let* download_start_time := time_time e in
  let* f := on_tree (fun t => open_wb t item_file) in
  let* written :=
    write_chunks e f expected_bytes download_start_time (body item_res)
                 0 download_start_time in
  let* _ := (if broken item_res then raise ConnectionError else ret tt) in
  let* _ := lift (progress_message expected_bytes (snd written) download_start_time) in
  on_con (update_download_path (as_posix item_file) feed_item_id).

(** The whole branch.  Its first line, [log(f"Downloading ...")], is where
    the start of the download is noted. *)
Definition download (e : env) (item_url : pyval) (item_file : path) (feed_item_id : Z)
  : M state unit :=
  let* _ := note_download {| for_episode := feed_item_id; from_url := item_url;
                             destination := item_file |} in
  fetch e item_url item_file feed_item_id.

(** [datetime.strptime(text, "%a, %d %b %Y %H:%M:%S %Z")] on a Python value. *)
Definition strptime (e : env) (text : pyval) : result Datetime.datetime :=
  match text with
  | PStr s => match Datetime.strptime (tzname e) s with
              | Some dt => Ok dt
              | None => Raise ValueError
              end
  | _ => Raise TypeError
  end.

(** The body of the loop of [process_one_feed], up to the point where the
    file of the item is known: the episode is reconciled with the store and
    its path resolved, the stored one if there is one, the canonical one
    otherwise.  Returns [feed_item_id], [item_url] and [item_file]. *)
Definition reconcile_item (e : env) (feed_id : Z) (feed_dir : path) (item : pyval)
  : M state (Z * pyval * path) :=
  let* item_title := lift (getitem item "title") in
  let* item_filename := lift (safe_filename item_title) in
  let* enclosure := lift (getitem item "enclosure") in
  let* item_url := lift (getitem enclosure "@url") in
  let* pub_text := lift (getitem item "pubDate") in
  let* pub_date := lift (strptime e pub_text) in
  let* item_season := lift (get item "itunes:season") in
  let* item_dir :=
    match item_season with
    | PNone => ret feed_dir
    | _ =>
        let item_dir := Path [as_posix feed_dir; String.append "Season " (str item_season)] in
        let* _ := on_tree (fun t => mkdir false true t item_dir) in
        ret item_dir
    end in
  let* guid_elem := lift (getitem item "guid") in
  let* guid := lift (getitem guid_elem "#text") in
  let* description := lift (getitem item "description") in
  let* duration := lift (get item "itunes:duration") in
  let* enclosure_1 := lift (getitem item "enclosure") in
  let* item_length := lift (getitem enclosure_1 "@length") in
  let* enclosure_2 := lift (getitem item "enclosure") in
  let* item_type := lift (getitem enclosure_2 "@type") in
  let* feed_item_id :=
    on_con (upsert_feed_item (sqlite e) (current_timestamp e) feed_id guid
              {| a_title := item_title; a_description := description;
                 a_pub_date := PStr (Datetime.isoformat pub_date);
                 a_itunes_duration := duration; a_item_url := item_url;
                 a_item_length := item_length; a_item_type := item_type;
                 a_itunes_season := item_season |}) in
  let* stored := on_con (select_download_path feed_item_id) in
  let* item_file :=
    match stored with
    | SNull =>
        ret (Path [as_posix item_dir;
                   Text.concat [Datetime.strftime_ymd (pads_year e) pub_date; " ";
                                item_filename; ".mp3"]])
    | SText p => ret (Path [p])
    | SInt _ | SReal _ => raise TypeError
    end in
  ret (feed_item_id, item_url, item_file).

(** The whole body of the loop: the download is started only when there is
    nothing at the resolved path. *)
Definition process_item (e : env) (feed_id : Z) (feed_dir : path) (item : pyval)
  : M state unit :=
  let* resolved := reconcile_item e feed_id feed_dir item in
  let feed_item_id := fst (fst resolved) in
  let item_url := snd (fst resolved) in
  let item_file := snd resolved in
  fun st =>
    if exists_ (tree st) item_file then (Ok tt, st)
    else download e item_url item_file feed_item_id st.

(** [xmltodict.parse(feed_xml)] *)
Definition xmltodict_parse (e : env) (feed_xml : string) : result pyval :=
  match expat e feed_xml with
  | Some root => Ok (xmltodict_of root)
  | None => Raise ExpatError
  end.

(** [process_one_feed] *)
Definition process_one_feed (e : env) (feed_url : string) : M state unit :=
  let* feed_xml := get_feed_xml e feed_url in
  let* feed := lift (xmltodict_parse e feed_xml) in
  let* rss := lift (getitem feed "rss") in
  let* channel := lift (getitem rss "channel") in
  let* title := lift (getitem channel "title") in
  let* feed_id := on_con (upsert_feed (current_timestamp e) feed_url title feed) in
  let* feed_dir_name := lift (safe_filename title) in
  let feed_dir := Path [feed_dir_name] in
  let* _ := on_tree (fun t => mkdir true true t feed_dir) in
  let* item_value := lift (getitem channel "item") in
  let* items := lift (iter item_value) in
  for_each (process_item e feed_id feed_dir) items.

(** One turn of the loop of [main] over the lines of the feeds file. *)
Definition main_step (e : env) (st : state) (line : string) : state :=
  let line := Text.strip line in
  if negb (String.eqb line EmptyString) && negb (Text.startswith line "#") then
    match process_one_feed e line st with
    | (Ok _, st') => commit st'
    | (Raise _, st') => rollback st'
    end
  else st.

(** The state a run starts in. *)
Definition start (file : option db) (t : fs) : state :=
  {| con := get_database file; saved := get_database file; tree := t;
     ticks := 0; requests := []; downloads := [] |}.

(** [main]: the database file ([None] when there is none yet), the media
    tree and the lines of the feeds file go in; the final state comes out.
    Leaving the [with] block commits. *)
Definition main (e : env) (feeds_file : list string) (file : option db) (t : fs) : state :=
  commit (fold_left (main_step e) feeds_file (start file t)).

End DownloadFeeds.

(** ** feedcli.py *)

Module FeedCli.
Import Py Db Eff.

Definition feed_decl : table_decl :=
  ("feed", [("feed_id", "INTEGER PRIMARY KEY AUTOINCREMENT"); ("date_added", "TEXT");
            ("feed_url", "TEXT"); ("title", "TEXT")]).

Definition raw_feed_decl : table_decl :=
  ("raw_feed", [("raw_feed_id", "INTEGER PRIMARY KEY AUTOINCREMENT");
                ("feed_id", "INTEGER"); ("date_added", "TEXT"); ("data", "TEXT")]).

Definition feed_item_decl : table_decl :=
  ("feed_item", [("feed_item_id", "INTEGER PRIMARY KEY AUTOINCREMENT");
                 ("feed_id", "INTEGER"); ("guid", "TEXT"); ("date_added", "TEXT");
                 ("title", "TEXT"); ("pub_date", "TEXT");
                 ("itunes_duration", "TEXT"); ("enclosure_url", "TEXT");
                 ("enclosure_length", "INTEGER"); ("enclosure_type", "TEXT");
                 ("itunes_season", "INTEGER"); ("download_path", "TEXT")]).

Definition created : db :=
  {| tables := [feed_decl; raw_feed_decl; feed_item_decl];
     indexes := [("feed_feed_id", ("feed", "feed_id"));
                 ("raw_feed_raw_feed_id", ("raw_feed", "raw_feed_id"));
                 ("raw_feed_feed_id", ("raw_feed", "feed_id"));
                 ("feed_item_feed_item_id", ("feed_item", "feed_item_id"));
                 ("feed_item_feed_id", ("feed_item", "feed_id"))];
     feed := []; feed_seq := 0; raw_feed := []; raw_feed_seq := 0;
     feed_item := []; feed_item_seq := 0 |}.

(** [get_database] of the query tool. *)
Definition get_database (file : option db) : db :=
  match file with
  | None => created
  | Some d => d
  end.

(** [x LIKE pattern]: [%] stands for any run of characters, [_] for any
    one character, and the letters A-Z and a-z match without regard to
    case. *)
Fixpoint like (pattern text : string) : bool :=
  match pattern with
  | EmptyString => match text with EmptyString => true | _ => false end
  | String "%" p =>
      (fix any (t : string) : bool :=
         like p t || match t with
                     | EmptyString => false
                     | String _ t' => any t'
                     end) text
  | String c p =>
      match text with
      | EmptyString => false
      | String a t =>
          (Ascii.eqb c "_"
           || Ascii.eqb (Text.ascii_lower_char c) (Text.ascii_lower_char a))
          && like p t
      end
  end.

(** [column LIKE ?] with the text [f"%{needle}%"] bound: a number is
    matched as the text SQLite writes for it, and NULL matches nothing. *)
Definition like_value (q : engine) (v : sqlval) (needle : string) : bool :=
  let pattern := String "%" (String.append needle "%") in
  match v with
  | SText s => like pattern s
  | SInt n => like pattern (Text.decimal n)
  | SReal x => like pattern (real_text q x)
  | SNull => false
  end.

(** A value as a comparison with NUMERIC affinity reads it: a text that
    spells a number as that number. *)
Definition numeric (q : engine) (v : sqlval) : sqlval :=
  match v with
  | SText s => match number_of_text q s with
               | Some n => n
               | None => v
               end
  | _ => v
  end.

(** [feed_id = ?], the feed id bound as the text of the command line: the
    column has INTEGER affinity, so the text is compared as the number it
    spells, if it spells one; a text that spells none equals no number. *)
Definition feed_is (q : engine) (v : sqlval) (feed_id : string) : bool :=
  match numeric q v, numeric q (SText feed_id) with
  | SText x, SText y => String.eqb x y
  | a, b => number_eq a b
  end.

(** ORDER BY: NULL first, then the numbers, then the texts. *)
Definition sql_leb (a b : sqlval) : bool :=
  match a, b with
  | SNull, _ => true
  | _, SNull => false
  | SText x, SText y => match String.compare x y with Gt => false | _ => true end
  | SText _, _ => false
  | _, SText _ => true
  | SInt x, SInt y => x <=? y
  | SInt x, SReal y => real_leb (Finite x 0) y
  | SReal x, SInt y => real_leb x (Finite y 0)
  | SReal x, SReal y => real_leb x y
  end.

Fixpoint insert_row (r : feed_item_row) (l : list feed_item_row) : list feed_item_row :=
  match l with
  | [] => [r]
  | x :: t => if sql_leb (i_pub_date r) (i_pub_date x) then r :: l
              else x :: insert_row r t
  end.

Definition order_by_pub_date (l : list feed_item_row) : list feed_item_row :=
  fold_right insert_row [] l.

(** [list_items]: the rows it prints, in the order it prints them. *)
Definition list_items (q : engine) (d : db) (feed_id title description : option string)
  : result (list feed_item_row) :=
  if prepared d "feed_item" ["feed_id"; "title"; "description"; "pub_date"] then
    Ok (order_by_pub_date
          (List.filter
             (fun r =>
                match feed_id with None => true | Some f => feed_is q (i_feed_id r) f end
                && match title with None => true | Some t => like_value q (i_title r) t end
                && match description with
                   | None => true
                   | Some t => like_value q (i_description r) t
                   end)
             (feed_item d)))
  else Raise OperationalError.



(** [list_feeds]: the rows it prints. *)
Definition list_feeds (d : db) : result (list feed_row) :=
  if prepared d "feed" [] then Ok (feed d) else Raise OperationalError.






End FeedCli.

(** ** What the properties speak about *)

Module Props.
Import Py Fs Db Eff DownloadFeeds.

(** The Feed rows of a URL and the Episode rows of a (feed, guid) pair. *)
Definition is_feed (url : string) (r : feed_row) : bool :=
  sql_eq (f_feed_url r) (SText url).

Definition feeds_of (url : string) (d : db) : list feed_row :=
  List.filter (is_feed url) (feed d).

Definition is_episode (feed_id : Z) (g : sqlval) (r : feed_item_row) : bool :=
  sql_eq (i_feed_id r) (SInt feed_id) && sql_eq (i_guid r) g.

Definition episodes_of (feed_id : Z) (g : sqlval) (d : db) : list feed_item_row :=
  List.filter (is_episode feed_id g) (feed_item d).

(** The database has the tables of [get_database]. *)
Definition has_schema (d : db) : Prop := tables d = tables created.

(** feed_item_id is a primary key. *)
Definition unique_ids (d : db) : Prop := List.NoDup (map feed_item_id (feed_item d)).

(** A stored path reads back as itself: [Path(p).as_posix() == p]. *)
Definition normal (v : sqlval) : Prop :=
  match v with
  | SText p => as_posix (Path [p]) = p
  | _ => True
  end.

Definition well_formed (d : db) : Prop :=
  unique_ids d /\ Forall (fun r => normal (i_download_path r)) (feed_item d).

(** Every episode that has a download path in [d] still has that very path
    in [d']. *)
Definition keeps_paths (d d' : db) : Prop :=
  forall r, In r (feed_item d) -> i_download_path r <> SNull ->
    exists r', In r' (feed_item d') /\ feed_item_id r' = feed_item_id r
               /\ i_download_path r' = i_download_path r.

(** Rows are never removed and keep their keys. *)
Definition keeps_rows (d d' : db) : Prop :=
  (forall r, In r (feed d) ->
     exists r', In r' (feed d') /\ feed_id r' = feed_id r
                /\ f_feed_url r' = f_feed_url r)
  /\ (forall r, In r (feed_item d) ->
        exists r', In r' (feed_item d') /\ feed_item_id r' = feed_item_id r
                   /\ i_feed_id r' = i_feed_id r /\ i_guid r' = i_guid r).

(** Nothing disappears from the media tree, and nothing turns from a file
    into a directory or back. *)
Definition same_kind (a b : node) : bool :=
  match a, b with
  | Dir, Dir => true
  | File _, File _ => true
  | _, _ => false
  end.

Definition grows (t t' : fs) : Prop :=
  forall loc n, at_loc t loc = Some n ->
    exists n', at_loc t' loc = Some n' /\ same_kind n n' = true.

(** The rows an UPDATE of [upsert_feed] and of [upsert_feed_item] leaves,
    and the row an INSERT of [upsert_feed_item] adds. *)
Definition retitled (url : string) (t : sqlval) (l : list feed_row) : list feed_row :=
  map (fun x => if sql_eq (f_feed_url x) (SText url) then with_title x t else x) l.

Definition updated (id : Z) (g : sqlval) (m : metadata) (l : list feed_item_row)
  : list feed_item_row :=
  map (fun x => if feed_item_id x =? id then with_metadata x g m else x) l.

Definition inserted (now : string) (id feed_id : Z) (g : sqlval) (m : metadata)
  : feed_item_row :=
  {| feed_item_id := id; i_feed_id := SInt feed_id; i_guid := g;
     i_date_added := SText now; i_title := m_title m;
     i_description := m_description m; i_pub_date := m_pub_date m;
     i_itunes_duration := m_itunes_duration m;
     i_enclosure_url := m_enclosure_url m;
     i_enclosure_length := m_enclosure_length m;
     i_enclosure_type := m_enclosure_type m;
     i_itunes_season := m_itunes_season m;
     i_download_path := SNull |}.

(** A component of a path holds no slash. *)
Definition no_slash (c : string) : Prop :=
  Text.all_chars (fun a => negb (Ascii.eqb a "/")) c = true.

(** A download path read from the store and the file resolved from it. *)
Definition resolved_from (stored : sqlval) (item_file : path) : Prop :=
  match stored with
  | SNull => exists text, item_file = parse text
  | SText p => item_file = Path [p]
  | SInt _ | SReal _ => False
  end.

(** The episode [id] is in the store, and [item_file] is the file resolved
    for it. *)
Definition linked (d : db) (id : Z) (item_file : path) : Prop :=
  exists r, find (fun r => feed_item_id r =? id) (feed_item d) = Some r
            /\ resolved_from (i_download_path r) item_file.

(** How the store at some point of a pass relates to the store at an
    earlier point: the tables are declared as before, and a well-formed
    store stays well-formed, keeps its rows and keeps every download path. *)
Record store_extends (d d' : db) : Prop := {
  ext_tables : tables d' = tables d;
  ext_wf :
    well_formed d -> well_formed d' /\ keeps_paths d d' /\ keeps_rows d d'
}.

(** The same for the whole state: nothing was committed, the media tree
    grew, and the downloads started in between write to files that were not
    there at the earlier point. *)
Record extends (s s' : state) : Prop := {
  ext_saved : saved s' = saved s;
  ext_tree : grows (tree s) (tree s');
  ext_downloads :
    exists new, downloads s' = (downloads s ++ new)%list
                /\ Forall (fun c => exists_ (tree s) (destination c) = false) new;
  ext_store : store_extends (con s) (con s')
}.

(** While an enclosure is fetched, the only change to the store is the
    completion record at the end. *)
Record fetching (p : string) (id : Z) (s s' : state) : Prop := {
  fetching_saved : saved s' = saved s;
  fetching_downloads : downloads s' = downloads s;
  fetching_tree : grows (tree s) (tree s');
  fetching_con : con s' = con s \/ con s' = snd (update_download_path p id (con s))
}.

(** What a step that starts no download leaves alone: the requests sent
    and the downloads started. *)
Definition quiet (s s' : state) : Prop :=
  downloads s' = downloads s /\ requests s' = requests s.

(** The final state of a computation is related to its initial state,
    whether it returns or raises. *)
Definition preserves {S A} (R : S -> S -> Prop) (m : M S A) : Prop :=
  forall s, R s (snd (m s)).

(** The rows the UPDATE of download_path leaves. *)
Definition with_path (p : string) (id : Z) (l : list feed_item_row) : list feed_item_row :=
  map (fun x => if feed_item_id x =? id then with_download_path x (SText p) else x) l.

(** Several calls of [upsert_feed_item] for one (feed, guid) pair, each
    with its own timestamp and metadata. *)
Fixpoint upsert_feed_item_each (q : engine) (feed_id : Z) (guid : pyval)
                               (calls : list (string * item_args)) : M db (list Z) :=
  match calls with
  | [] => ret []
  | (now, a) :: rest =>
      let* id := upsert_feed_item q now feed_id guid a in
      let* ids := upsert_feed_item_each q feed_id guid rest in
      ret (id :: ids)
  end.

(** The items [process_one_feed] walks through in a parsed document, and
    the guid it reads from an item. *)
Definition items_of (doc : pyval) : result (list pyval) :=
  match getitem doc "rss" with
  | Raise x => Raise x
  | Ok rss =>
      match getitem rss "channel" with
      | Raise x => Raise x
      | Ok channel =>
          match getitem channel "item" with
          | Raise x => Raise x
          | Ok v => iter v
          end
      end
  end.

Definition guid_of (item : pyval) : result pyval :=
  match getitem item "guid" with
  | Raise x => Raise x
  | Ok g => getitem g "#text"
  end.

(** The store has an Episode row of the feed for an item, under the guid the
    loop reads from the item. *)
Definition has_episode (item : pyval) (feed_id : Z) (d : db) : Prop :=
  exists guid g r,
    guid_of item = Ok guid /\ Db.bind guid = Ok g
    /\ In r (feed_item d) /\ i_feed_id r = SInt feed_id /\ i_guid r = g.

(** The feed read for [feed_url] in state [s] is in the store [d]: it has a
    Feed row, and each item of its document has an Episode row of that
    feed. *)
Definition ingested (e : env) (feed_url : string) (s : state) (d : db) : Prop :=
  exists text s' doc items row,
    get_feed_xml e feed_url s = (Ok text, s')
    /\ xmltodict_parse e text = Ok doc
    /\ items_of doc = Ok items
    /\ In row (feed d) /\ f_feed_url row = SText feed_url
    /\ forall item, In item items -> has_episode item (feed_id row) d.

(** A feed reference is unreachable: it is no file reference, and whenever
    it is asked for the connection fails. *)
Definition unreachable (e : env) (feed_url : string) : Prop :=
  Text.strip_prefix "file://" feed_url = None
  /\ forall n, exists x, http_get e n feed_url = Failed x.

(** A line of the feeds file that [main] takes for a feed reference. *)
Definition is_reference (line : string) : bool :=
  negb (String.eqb (Text.strip line) EmptyString)
  && negb (Text.startswith (Text.strip line) "#").

(** A computation raises when started in [s]. *)
Definition raises {S A} (m : M S A) (s : S) : Prop :=
  exists x, fst (m s) = Raise x.

(** [process_one_feed] up to its loop: the feed is read, parsed and put
    into the store, and its directory is made.  What comes out is what the
    loop works with: the feed id, the directory and the items. *)
Definition open_feed (e : env) (feed_url : string) : M state (Z * path * list pyval) :=
  let* feed_xml := get_feed_xml e feed_url in
  let* feed := lift (xmltodict_parse e feed_xml) in
  let* rss := lift (getitem feed "rss") in
  let* channel := lift (getitem rss "channel") in
  let* title := lift (getitem channel "title") in
  let* feed_id := on_con (upsert_feed (current_timestamp e) feed_url title feed) in
  let* feed_dir_name := lift (safe_filename title) in
  let feed_dir := Path [feed_dir_name] in
  let* _ := on_tree (fun t => mkdir true true t feed_dir) in
  let* item_value := lift (getitem channel "item") in
  let* items := lift (iter item_value) in
  ret (feed_id, feed_dir, items).

(** Between two feeds of a batch nothing is pending, and the committed store
    is well-formed. *)
Definition settled (s : state) : Prop :=
  con s = saved s /\ well_formed (saved s).

(** The uniqueness the store is meant to keep: feed_item_id is a key, a URL
    has at most one Feed row, and a (feed, guid) pair has at most one
    Episode row. *)
Definition keyed (d : db) : Prop :=
  unique_ids d
  /\ (forall url, (List.length (feeds_of url d) <= 1)%nat)
  /\ (forall feed_id g, (List.length (episodes_of feed_id g d) <= 1)%nat).

(** A property of the store that a step keeps, and a relation between
    stores read as a relation between states in which nothing was
    committed. *)
Definition keeps (I : db -> Prop) (d d' : db) : Prop := I d -> I d'.

Definition on_store (Rd : db -> db -> Prop) (s s' : state) : Prop :=
  saved s' = saved s /\ Rd (con s) (con s').

(** Everything that is in the media tree [t] is in [t'] as it was: the same
    directories, the same files with the same contents. *)
Definition untouched (t t' : fs) : Prop :=
  forall loc n, at_loc t loc = Some n -> at_loc t' loc = Some n.

(** The two trees differ at most at [loc]. *)
Definition only_at (loc : list string) (t t' : fs) : Prop :=
  forall loc', loc' <> loc -> at_loc t' loc' = at_loc t loc'.

(** A step between two states that leaves what is in the media tree as it
    was. *)
Definition intact (s s' : state) : Prop := untouched (tree s) (tree s').

(** The child elements of an element that carry a given tag, in document
    order, and what [xmltodict] stores under a key for the values it met
    for it. *)
Definition children_named (k : string) (e : xml) : list xml :=
  match e with
  | Element _ _ cs _ => List.filter (fun c => String.eqb (tag_of c) k) cs
  end.

Definition entry (vs : list pyval) : option pyval :=
  match vs with
  | [] => None
  | [v] => Some v
  | _ => Some (PList vs)
  end.

(** What [xmltodict] gives for one element: [None], text that is not empty,
    or a dict that is not empty; never a list. *)
Definition plain (v : pyval) : Prop :=
  match v with
  | PNone => True
  | PStr s => s <> EmptyString
  | PDict kv => kv <> []
  | PList _ => False
  end.

(** The characters [safe_filename] lets through. *)
Definition allowed (c : ascii) : bool :=
  Text.isalnum_char c || mem (String c EmptyString) [" "; "."; "_"; "-"].

(** Every download path in the store [d] was in the store [d0] for the
    same episode, or leads to a file in the media tree [t]. *)
Definition backed (d0 : db) (t : fs) (d : db) : Prop :=
  forall r p, In r (feed_item d) -> i_download_path r = SText p ->
    (exists r0, In r0 (feed_item d0) /\ feed_item_id r0 = feed_item_id r
                /\ i_download_path r0 = SText p)
    \/ (exists data, file_at t (Path [p]) = Some data).

(** A step that commits nothing, leaves what is in the media tree as it
    was, and keeps the download paths backed. *)
Definition backing (d0 : db) (s s' : state) : Prop :=
  intact s s' /\ saved s' = saved s
  /\ (backed d0 (tree s) (con s) -> backed d0 (tree s') (con s')).


(** The database has the tables of [get_database], keeps its keys, and
    every Feed row has a text for its URL. *)
Definition listed (d : db) : Prop :=
  has_schema d /\ keyed d
  /\ (forall f, In f (feed d) -> exists u, f_feed_url f = SText u).







(** The fields of a date and time from the year down, and the order of two
    such lists of the same length: the first field that differs decides. *)
Definition fields (dt : Datetime.datetime) : list Z :=
  [Datetime.year dt; Datetime.month dt; Datetime.day dt;
   Datetime.hour dt; Datetime.minute dt; Datetime.second dt].

Fixpoint lex_compare (a b : list Z) : comparison :=
  match a, b with
  | [], [] => Eq
  | [], _ :: _ => Lt
  | _ :: _, [] => Gt
  | x :: a', y :: b' =>
      match x ?= y with
      | Eq => lex_compare a' b'
      | c => c
      end
  end.

(** The file the loop of [process_one_feed] makes up for an item when no
    path is stored for its episode, and the file it resolves from what is
    stored. *)
Definition canonical (e : env) (feed_dir : path) (item : pyval) : result path :=
  match getitem item "title" with
  | Raise x => Raise x
  | Ok item_title =>
      match safe_filename item_title with
      | Raise x => Raise x
      | Ok item_filename =>
          match getitem item "pubDate" with
          | Raise x => Raise x
          | Ok pub_text =>
              match strptime e pub_text with
              | Raise x => Raise x
              | Ok pub_date =>
                  match get item "itunes:season" with
                  | Raise x => Raise x
                  | Ok item_season =>
                      let item_dir :=
                        match item_season with
                        | PNone => feed_dir
                        | _ => Path [as_posix feed_dir;
                                     String.append "Season " (str item_season)]
                        end in
                      Ok (Path [as_posix item_dir;
                                Text.concat [Datetime.strftime_ymd (pads_year e) pub_date;
                                             " "; item_filename; ".mp3"]])
                  end
              end
          end
      end
  end.

Definition resolve (e : env) (feed_dir : path) (item : pyval) (stored : sqlval)
  : result path :=
  match stored with
  | SNull => canonical e feed_dir item
  | SText p => Ok (Path [p])
  | SInt _ | SReal _ => Raise TypeError
  end.

(** There is something at the place [f]. *)
Definition present (t : fs) (f : result path) : Prop :=
  exists p, f = Ok p /\ exists_ t p = true.

(** An item of a feed is settled: the file that the loop would resolve for
    it is there.  The episode is the row its key finds; an item without a
    guid text finds none and gets a new row each time. *)
Definition settled_item (e : env) (feed_id : Z) (feed_dir : path) (t : fs) (d : db)
                        (item : pyval) : Prop :=
  exists guid g,
    guid_of item = Ok guid /\ Db.bind guid = Ok g
    /\ match find (is_episode feed_id g) (feed_item d) with
       | Some row => present t (resolve e feed_dir item (i_download_path row))
       | None => g = SNull /\ present t (canonical e feed_dir item)
       end.

(** A step that leaves the media tree and the Feed rows as they were, and
    keeps settled items settled. *)
Definition settling (e : env) (feed_id : Z) (feed_dir : path) (s s' : state) : Prop :=
  intact s s'
  /\ feed (con s') = feed (con s)
  /\ (unique_ids (con s) ->
      unique_ids (con s')
      /\ forall item, settled_item e feed_id feed_dir (tree s) (con s) item ->
                      settled_item e feed_id feed_dir (tree s') (con s') item).

(** A sequence of runs of the job.  Between two runs only the database file
    is taken over; the network, the clock, the feeds file and the media
    tree of each run are arbitrary. *)
Record run : Type := {
  run_env : env;
  run_feeds : list string;
  run_tree : fs
}.

Fixpoint runs (rs : list run) (file : option db) : option db :=
  match rs with
  | [] => file
  | r :: rest =>
      runs rest (Some (saved (main (run_env r) (run_feeds r) file (run_tree r))))
  end.

End Props.

(** ** Concrete feeds and sites *)

Module Scenario.
Import Py Fs Db Eff DownloadFeeds.

Definition leaf (tag text : string) : xml := Element tag [] [] text.

(** An item as a feed lists it. *)
Definition episode (title guid pub_date url length : string) : xml :=
  Element "item" []
    [leaf "title" title;
     Element "guid" [("isPermaLink", "false")] [] guid;
     leaf "pubDate" pub_date;
     leaf "description" "About this episode";
     Element "enclosure" [("url", url); ("length", length); ("type", "audio/mpeg")]
             [] EmptyString]
    EmptyString.

Definition rss (title : string) (items : list xml) : xml :=
  Element "rss" [("version", "2.0")]
    [Element "channel" [] (leaf "title" title :: items) EmptyString]
    EmptyString.

(** The text of a document. *)
Fixpoint render (e : xml) : string :=
  match e with
  | Element tag attrs children text =>
      Text.concat
        ["<"; tag;
         Text.concat (map (fun a => Text.concat [" "; fst a; "='"; snd a; "'"]) attrs);
         ">"; text; Text.concat (map render children); "</"; tag; ">"]
  end.

Fixpoint payload (n : nat) : string :=
  match n with
  | O => EmptyString
  | S m => String "x" (payload m)
  end.

Definition ok_page (text : string) : http_result :=
  Response {| status := 200; headers := [("Content-Type", "application/rss+xml")];
              body := [text]; broken := false |}.

Definition media (status : Z) (length : string) (chunks : list string) : http_result :=
  Response {| status := status; headers := [("Content-Length", length)];
              body := chunks; broken := false |}.

Fixpoint page_of {A} (pages : list (string * A)) (url : string) : option A :=
  match pages with
  | [] => None
  | (u, r) :: rest => if String.eqb u url then Some r else page_of rest url
  end.

(** An SQLite library for stores whose texts spell integers of 64 bits or
    no number at all: it is never asked to read or to write a REAL. *)
Definition integers_only : engine :=
  {| real_of := fun _ => None; real_text := fun _ => EmptyString |}.

(** A site: the pages it serves (any other request fails to connect) and
    the documents an XML reader finds in the texts it serves. *)

Definition site (pages : list (string * http_result)) (docs : list xml) : env :=
  {| http_get := fun _ url => match page_of pages url with
                              | Some r => r
                              | None => Failed ConnectionError
                              end;
     expat := fun text => page_of (map (fun d => (render d, d)) docs) text;
     clock := fun n => Z.of_nat n;
     current_timestamp := "2023-01-03 12:00:00";
     tzname := ["UTC"; "UTC"];
     sqlite := integers_only;
     pads_year := true |}.

Definition ep1 : xml :=
  episode "Ep 1" "abc123" "Mon, 02 Jan 2023 10:00:00 GMT"
          "http://example.com/ep1.mp3" "100".

Definition ep2 : xml :=
  episode "Ep 2" "def456" "Mon, 09 Jan 2023 10:00:00 GMT"
          "http://example.com/ep2.mp3" "100".

Definition ep_undated : xml :=
  episode "Ep X" "bad000" "2023-01-05T10:00:00Z"
          "http://example.com/epx.mp3" "100".

Definition ep3 : xml :=
  episode "Pilot" "o-1" "Tue, 03 Jan 2023 08:30:00 GMT"
          "http://other.example/pilot.mp3" "100".

Definition ep4 : xml :=
  episode "Second" "o-2" "Tue, 10 Jan 2023 08:30:00 GMT"
          "http://other.example/second.mp3" "100".

(** The feed of the end-to-end scenario: one item. *)
Definition single_feed : xml := rss "Example Show" [ep1].

(** The same show with a second item. *)
Definition pair_feed : xml := rss "Example Show" [ep1; ep2].

(** A feed whose second item has a date in another format. *)
Definition undated_feed : xml := rss "Example Show" [ep1; ep_undated; ep2].

Definition other_feed : xml := rss "Other Show" [ep3; ep4].

Definition feed_url : string := "http://example.com/feed.xml".
Definition other_url : string := "http://other.example/feed.xml".
Definition gone_url : string := "http://gone.example/feed.xml".

Definition media_pages : list (string * http_result) :=
  [("http://example.com/ep1.mp3", media 200 "100" [payload 100]);
   ("http://example.com/ep2.mp3", media 200 "100" [payload 100]);
   ("http://example.com/epx.mp3", media 200 "100" [payload 100]);
   ("http://other.example/pilot.mp3", media 200 "100" [payload 100]);
   ("http://other.example/second.mp3", media 200 "100" [payload 100])].

Definition single_site : env :=
  site ((feed_url, ok_page (render single_feed)) :: media_pages) [single_feed].

Definition pair_site : env :=
  site ((feed_url, ok_page (render pair_feed)) :: media_pages) [pair_feed].

Definition undated_site : env :=
  site ((feed_url, ok_page (render undated_feed)) :: media_pages) [undated_feed].

(** The second enclosure is gone: the server answers 404 with a short
    error page. *)
Definition missing_media_site : env :=
  site [(feed_url, ok_page (render pair_feed));
        ("http://example.com/ep1.mp3", media 200 "100" [payload 100]);
        ("http://example.com/ep2.mp3", media 404 "9" ["Not Found"])]
       [pair_feed].

(** Two shows; nothing answers at [gone_url]. *)
Definition two_shows_site : env :=
  site ((feed_url, ok_page (render pair_feed))
        :: (other_url, ok_page (render other_feed)) :: media_pages)
       [pair_feed; other_feed].

(** Three versions of the metadata of one episode. *)
Definition version (title length : string) : item_args :=
  {| a_title := PStr title; a_description := PStr "About this episode";
     a_pub_date := PStr "2023-01-02T10:00:00"; a_itunes_duration := PNone;
     a_item_url := PStr "http://example.com/ep1.mp3"; a_item_length := PStr length;
     a_item_type := PStr "audio/mpeg"; a_itunes_season := PNone |}.

(** A first run that ingests the two-item show, and a later run during
    which the network is down and the media tree has been emptied. *)
Definition first_run : Props.run :=
  {| Props.run_env := pair_site; Props.run_feeds := [feed_url]; Props.run_tree := ∅ |}.

Definition offline_run : Props.run :=
  {| Props.run_env := site [] []; Props.run_feeds := [feed_url]; Props.run_tree := ∅ |}.

(** A media tree in which the file of the first episode is already there,
    and the state of a run that starts on it without a database. *)
Definition present_tree : fs :=
  <[ ["Example Show"; "2023-01-02 Ep 1.mp3"] := File "earlier" ]>
    (<[ ["Example Show"] := Dir ]> ∅).

Definition resumed : state := start None present_tree.

(** A media tree that has the directory of the show and nothing in it, and
    the state of a run that starts on it without a database. *)
Definition show_tree : fs := <[ ["Example Show"] := Dir ]> ∅.

Definition ready : state := start None show_tree.

(** A server that sends 40 of the 100 bytes it announced and then drops the
    connection. *)
Definition cut_site : env :=
  site [(feed_url, ok_page (render pair_feed));
        ("http://example.com/ep1.mp3",
         Response {| status := 200; headers := [("Content-Length", "100")];
                     body := [payload 40]; broken := true |})]
       [pair_feed].

(** A show without episodes. *)
Definition empty_feed : xml := rss "Example Show" [].

Definition empty_site : env :=
  site ((feed_url, ok_page (render empty_feed)) :: media_pages) [empty_feed].

(** An item whose guid is a bare element, and a show that lists it. *)
Definition ep_bare : xml :=
  Element "item" []
    [leaf "title" "Ep 2";
     leaf "guid" "def456";
     leaf "pubDate" "Mon, 09 Jan 2023 10:00:00 GMT";
     leaf "description" "About this episode";
     Element "enclosure" [("url", "http://example.com/ep2.mp3"); ("length", "100");
                          ("type", "audio/mpeg")]
             [] EmptyString]
    EmptyString.

Definition bare_feed : xml := rss "Example Show" [ep1; ep_bare].

Definition bare_site : env :=
  site ((feed_url, ok_page (render bare_feed)) :: media_pages) [bare_feed].

Definition ep1_item : pyval := to_value ep1.

Definition show_dir : path := Path ["Example Show"].

Definition ep1_path : path := Path ["Example Show"; "2023-01-02 Ep 1.mp3"].
Definition ep2_path : path := Path ["Example Show"; "2023-01-09 Ep 2.mp3"].

End Scenario.

(** * Properties *)

Import Py Fs Db Eff DownloadFeeds Props.

(** ** The end-to-end scenario *)

(** With one [<item>] in the channel, xmltodict stores the item itself under
    ["item"], not a list of one item. *)
Lemma single_item_is_a_dict :
  items_of (xmltodict_of Scenario.single_feed)
  = Ok [PStr "title"; PStr "guid"; PStr "pubDate"; PStr "description"; PStr "enclosure"].
Proof. reflexivity. Qed.

(** With two items it is a list, and the feed goes through: one Feed row, an
    Episode row for abc123 with the path of the scenario, and 100 bytes in
    the file. *)
Lemma two_item_feed_is_ingested :
  let st := main Scenario.pair_site [Scenario.feed_url] None ∅ in
  map f_title (feed (saved st)) = [SText "Example Show"]
  /\ map i_download_path (episodes_of 1 (SText "abc123") (saved st))
     = [SText "Example Show/2023-01-02 Ep 1.mp3"]
  /\ option_map String.length (file_at (tree st) Scenario.ep1_path) = Some 100%nat.
Proof. vm_compute. repeat split; reflexivity. Qed.

(** C1: ingesting the feed of the scenario (title "Example Show", one item
    "Ep 1" with guid abc123, dated Mon, 02 Jan 2023 10:00:00 GMT, a 100-byte
    enclosure) should leave one Feed row, one Episode row and a 100-byte
    file.  The code instead walks over the keys of the single item, fails
    with TypeError on the first of them, and the batch loop rolls the feed
    back: no Feed row, no Episode row, no file, no download. *)
Theorem single_item_feed_is_not_ingested :
  let st := main Scenario.single_site [Scenario.feed_url] None ∅ in
  fst (process_one_feed Scenario.single_site Scenario.feed_url (start None ∅))
    = Raise TypeError
  /\ feed (saved st) = []
  /\ feed_item (saved st) = []
  /\ file_at (tree st) Scenario.ep1_path = None
  /\ downloads st = [].
Proof. vm_compute. repeat split; reflexivity. Qed.

(** ** Enclosures that are not served *)

(** C2: a response to the enclosure request that is not successful should
    fail the download and leave download_path null.  Here the second
    enclosure is answered with 404 and a nine-byte error page: the pass
    succeeds, the error page is written to the episode's file, and its path
    is recorded and committed. *)
Theorem not_found_enclosure_is_recorded :
  let st := main Scenario.missing_media_site [Scenario.feed_url] None ∅ in
  http_get Scenario.missing_media_site 2 "http://example.com/ep2.mp3"
    = Scenario.media 404 "9" ["Not Found"]
  /\ fst (process_one_feed Scenario.missing_media_site Scenario.feed_url (start None ∅))
     = Ok tt
  /\ map i_download_path (episodes_of 1 (SText "def456") (saved st))
     = [SText "Example Show/2023-01-09 Ep 2.mp3"]
  /\ file_at (tree st) Scenario.ep2_path = Some "Not Found".
Proof. vm_compute. repeat split; reflexivity. Qed.

(** ** The two declarations of feed_item *)

Lemma prepared_by_tables (d d' : db) (table : string) (cols : list string) :
  tables d = tables d' -> prepared d table cols = prepared d' table cols.
Proof. intros H. unfold prepared. rewrite H. reflexivity. Qed.

(** C10: the feed_item table the query tool creates has every column of the
    one the ingestion job creates except description (feed and raw_feed are
    declared alike).  On a database with the query tool's tables, whatever
    its rows, [upsert_feed_item] raises and changes nothing, so no
    description is stored, and [list_items] raises OperationalError for
    every choice of filters, so its description filter selects no row. *)
Theorem query_tool_schema_lacks_description (d : db) :
  tables d = tables (FeedCli.get_database None) ->
  columns_of (tables (DownloadFeeds.get_database None)) "feed_item"
    = Some ["feed_item_id"; "feed_id"; "guid"; "date_added"; "title"; "description";
            "pub_date"; "itunes_duration"; "enclosure_url"; "enclosure_length";
            "enclosure_type"; "itunes_season"; "download_path"]
  /\ columns_of (tables d) "feed_item"
    = Some ["feed_item_id"; "feed_id"; "guid"; "date_added"; "title";
            "pub_date"; "itunes_duration"; "enclosure_url"; "enclosure_length";
            "enclosure_type"; "itunes_season"; "download_path"]
  /\ FeedCli.feed_decl = DownloadFeeds.feed_decl
  /\ FeedCli.raw_feed_decl = DownloadFeeds.raw_feed_decl
  /\ (forall q now feed_id guid a,
        exists x, upsert_feed_item q now feed_id guid a d = (Raise x, d))
  /\ (forall q feed_id title description,
        FeedCli.list_items q d feed_id title description = Raise OperationalError).
Proof.
  intros H. split; [reflexivity|]. split; [rewrite H; reflexivity|].
  split; [reflexivity|]. split; [reflexivity|]. split.
  - intros q now feed_id guid a. unfold upsert_feed_item, Eff.bind, prepare, lift.
    rewrite (prepared_by_tables d FeedCli.created) by exact H.
    change (prepared FeedCli.created "feed_item" ["feed_item_id"; "feed_id"; "guid"])
      with true. cbv iota.
    destruct (bind_int feed_id) as [f|x]; [|eexists; reflexivity].
    destruct (Db.bind guid) as [g|x]; [|eexists; reflexivity].
    destruct (find _ (feed_item d)) as [r|].
    + rewrite (prepared_by_tables d FeedCli.created) by exact H.
      eexists. reflexivity.
    + rewrite (prepared_by_tables d FeedCli.created) by exact H.
      eexists. reflexivity.
  - intros q feed_id title description. unfold FeedCli.list_items.
    rewrite (prepared_by_tables d FeedCli.created) by exact H. reflexivity.
Qed.

Lemma query_tool_schema_lacks_description_witness :
  (forall q now feed_id guid a,
     exists x, upsert_feed_item q now feed_id guid a FeedCli.created
               = (Raise x, FeedCli.created))
  /\ (forall q feed_id title description,
        FeedCli.list_items q FeedCli.created feed_id title description
        = Raise OperationalError).
Proof.
  pose proof (query_tool_schema_lacks_description FeedCli.created eq_refl) as H.
  split; [exact (proj1 (proj2 (proj2 (proj2 (proj2 H)))))
         | exact (proj2 (proj2 (proj2 (proj2 (proj2 H)))))].
Defined.

(** ** The store: idempotent upserts *)

Lemma prepared_ok (d : db) (table : string) (cols : list string) :
  has_schema d -> prepared created table cols = true -> prepared d table cols = true.
Proof. intros H E. rewrite (prepared_by_tables d created) by exact H. exact E. Qed.

Ltac prepared_ok H := repeat (rewrite (prepared_ok _ _ _ H) by reflexivity).

Lemma find_none_filter {A} (f : A -> bool) (l : list A) :
  find f l = None -> List.filter f l = [].
Proof.
  induction l as [|x l IH]; simpl; [reflexivity|].
  destruct (f x); [discriminate|]. exact IH.
Qed.

Lemma find_some_filter {A} (f : A -> bool) (l : list A) (r : A) :
  find f l = Some r -> exists rest, List.filter f l = r :: rest.
Proof.
  induction l as [|x l IH]; simpl; [discriminate|].
  destruct (f x).
  - intros [= ->]. eexists. reflexivity.
  - exact IH.
Qed.

Lemma filter_nil_find {A} (f : A -> bool) (l : list A) :
  List.filter f l = [] -> find f l = None.
Proof.
  induction l as [|x l IH]; simpl; [reflexivity|].
  destruct (f x); [discriminate|]. exact IH.
Qed.

Lemma filter_cons_find {A} (f : A -> bool) (l : list A) (r : A) (rest : list A) :
  List.filter f l = r :: rest -> find f l = Some r.
Proof.
  induction l as [|x l IH]; simpl; [discriminate|].
  destruct (f x).
  - intros [= -> _]. reflexivity.
  - exact IH.
Qed.

(** What one call of [upsert_feed] does, by whether the URL is known. *)
Lemma upsert_feed_new (d : db) (now url : string) (title doc : pyval) (v : sqlval) :
  has_schema d -> Db.bind title = Ok v -> feeds_of url d = [] ->
  let id := next_rowid (feed_seq d) (map feed_id (feed d)) in
  let rid := next_rowid (raw_feed_seq d) (map raw_feed_id (raw_feed d)) in
  upsert_feed now url title doc d
  = (Ok id,
     set_raw_feeds
       (set_feeds d (feed d ++ [{| feed_id := id; f_date_added := SText now;
                                   f_feed_url := SText url; f_title := v |}]) id)
       (raw_feed d ++ [{| raw_feed_id := rid; r_feed_id := SInt id;
                          r_date_added := SText now;
                          r_data := SText (json_dumps doc) |}]) rid).
Proof.
  intros H Hb Hf. unfold upsert_feed, Eff.bind, prepare, lift, ret.
  prepared_ok H.
  rewrite (filter_nil_find (fun r => sql_eq (f_feed_url r) (SText url)) (feed d) Hf).
  prepared_ok H. rewrite Hb.
  rewrite (prepared_ok _ "raw_feed" _) by (exact H || reflexivity).
  reflexivity.
Qed.

Lemma upsert_feed_known (d : db) (now url : string) (title doc : pyval) (v : sqlval)
      (r : feed_row) (rest : list feed_row) :
  has_schema d -> Db.bind title = Ok v -> feeds_of url d = r :: rest ->
  let rid := next_rowid (raw_feed_seq d) (map raw_feed_id (raw_feed d)) in
  upsert_feed now url title doc d
  = (Ok (feed_id r),
     set_raw_feeds
       (set_feeds d (retitled url v (feed d)) (feed_seq d))
       (raw_feed d ++ [{| raw_feed_id := rid; r_feed_id := SInt (feed_id r);
                          r_date_added := SText now;
                          r_data := SText (json_dumps doc) |}]) rid).
Proof.
  intros H Hb Hf. unfold upsert_feed, Eff.bind, prepare, lift, ret.
  prepared_ok H.
  rewrite (filter_cons_find (fun r => sql_eq (f_feed_url r) (SText url)) (feed d) r rest Hf).
  prepared_ok H. rewrite Hb.
  rewrite (prepared_ok _ "raw_feed" _) by (exact H || reflexivity).
  reflexivity.
Qed.

Lemma feeds_of_retitled (url : string) (v : sqlval) (l : list feed_row) :
  List.filter (is_feed url) (retitled url v l)
  = map (fun x => with_title x v) (List.filter (is_feed url) l).
Proof.
  induction l as [|x l IH]; [reflexivity|].
  cbn [retitled map List.filter]. fold (retitled url v l).
  assert (Hx : is_feed url x = sql_eq (f_feed_url x) (SText url)) by reflexivity.
  destruct (sql_eq (f_feed_url x) (SText url)) eqn:E.
  - assert (Hw : is_feed url (with_title x v) = true) by exact E.
    rewrite Hw, Hx. cbn [map]. f_equal. exact IH.
  - rewrite Hx. exact IH.
Qed.

Lemma retitled_ids (url : string) (v : sqlval) (l : list feed_row) :
  map feed_id (retitled url v l) = map feed_id l
  /\ map f_feed_url (retitled url v l) = map f_feed_url l.
Proof.
  induction l as [|x l [IH1 IH2]]; [split; reflexivity|].
  cbn [retitled map]. fold (retitled url v l). rewrite IH1, IH2.
  destruct (sql_eq (f_feed_url x) (SText url)); split; reflexivity.
Qed.

Lemma retitled_others (url : string) (v : sqlval) (l : list feed_row) (r : feed_row) :
  In r l -> is_feed url r = false -> In r (retitled url v l).
Proof.
  intros Hin Hr. unfold retitled. apply in_map_iff. exists r. split; [|exact Hin].
  unfold is_feed in Hr. rewrite Hr. reflexivity.
Qed.

(** C5: two calls of [upsert_feed] with one URL, on a database with the
    tables of [get_database] and with titles that can be bound (a string or
    None).  Both calls return the same feed identifier; the second adds no
    Feed row, so the URL has one row if it had none or one before; the rows
    of the URL carry the second title, with identifiers and URLs as they
    were; rows of other URLs are untouched; and each call appends exactly
    one RawFeedSnapshot row, for that feed and with the document of the
    call. *)
Theorem upsert_feed_twice (d : db) (url now1 now2 : string)
        (title1 title2 doc1 doc2 : pyval) (v1 v2 : sqlval) :
  has_schema d -> Db.bind title1 = Ok v1 -> Db.bind title2 = Ok v2 ->
  exists id d1 d2 s1 s2,
    upsert_feed now1 url title1 doc1 d = (Ok id, d1)
    /\ upsert_feed now2 url title2 doc2 d1 = (Ok id, d2)
    /\ List.length (feed d2) = List.length (feed d1)
    /\ List.length (feeds_of url d2) = Nat.max 1 (List.length (feeds_of url d))
    /\ map feed_id (feed d2) = map feed_id (feed d1)
    /\ map f_feed_url (feed d2) = map f_feed_url (feed d1)
    /\ Forall (fun r => f_title r = v2) (feeds_of url d2)
    /\ (forall r, In r (feed d1) -> is_feed url r = false -> In r (feed d2))
    /\ raw_feed d1 = (raw_feed d ++ [s1])%list
    /\ raw_feed d2 = (raw_feed d1 ++ [s2])%list
    /\ r_feed_id s1 = SInt id /\ r_data s1 = SText (json_dumps doc1)
    /\ r_feed_id s2 = SInt id /\ r_data s2 = SText (json_dumps doc2).
Proof.
  intros H Hb1 Hb2.
  destruct (feeds_of url d) as [|r rest] eqn:Hf.
  - pose proof (upsert_feed_new d now1 url title1 doc1 v1 H Hb1 Hf) as E1.
    cbv zeta in E1.
    set (id := next_rowid (feed_seq d) (map feed_id (feed d))) in *.
    set (row := {| feed_id := id; f_date_added := SText now1;
                   f_feed_url := SText url; f_title := v1 |}) in *.
    match type of E1 with _ = (_, ?x) => set (d1 := x) in * end.
    assert (H1 : has_schema d1) by exact H.
    assert (Hf1 : feeds_of url d1 = [row]).
    { unfold feeds_of. change (feed d1) with (feed d ++ [row])%list.
      rewrite List.filter_app. fold (feeds_of url d). rewrite Hf.
      cbn [List.filter app]. unfold is_feed, row. cbn [f_feed_url sql_eq].
      rewrite String.eqb_refl. reflexivity. }
    pose proof (upsert_feed_known d1 now2 url title2 doc2 v2 row [] H1 Hb2 Hf1) as E2.
    cbv zeta in E2.
    match type of E2 with _ = (_, ?x) => set (d2 := x) in * end.
    eexists id, d1, d2, _, _.
    split; [exact E1|]. split; [exact E2|].
    assert (Hfd2 : feed d2 = retitled url v2 (feed d1)) by reflexivity.
    destruct (retitled_ids url v2 (feed d1)) as [Hi Hu].
    split. { rewrite Hfd2. unfold retitled. apply length_map. }
    split. { unfold feeds_of at 1. rewrite Hfd2, feeds_of_retitled.
             fold (feeds_of url d1). rewrite Hf1. reflexivity. }
    split. { rewrite Hfd2. exact Hi. }
    split. { rewrite Hfd2. exact Hu. }
    split. { unfold feeds_of. rewrite Hfd2, feeds_of_retitled.
             apply Forall_map. apply Forall_forall. intros x _. reflexivity. }
    split. { intros x Hx Hn. rewrite Hfd2. apply retitled_others; assumption. }
    repeat split; reflexivity.
  - pose proof (upsert_feed_known d now1 url title1 doc1 v1 r rest H Hb1 Hf) as E1.
    cbv zeta in E1.
    match type of E1 with _ = (_, ?x) => set (d1 := x) in * end.
    assert (H1 : has_schema d1) by exact H.
    assert (Hfd1 : feed d1 = retitled url v1 (feed d)) by reflexivity.
    assert (Hf1 : feeds_of url d1
                  = with_title r v1 :: map (fun x => with_title x v1) rest).
    { unfold feeds_of. rewrite Hfd1, feeds_of_retitled. fold (feeds_of url d).
      rewrite Hf. reflexivity. }
    pose proof (upsert_feed_known d1 now2 url title2 doc2 v2 _ _ H1 Hb2 Hf1) as E2.
    cbv zeta in E2.
    match type of E2 with _ = (_, ?x) => set (d2 := x) in * end.
    eexists (feed_id r), d1, d2, _, _.
    split; [exact E1|]. split; [exact E2|].
    assert (Hfd2 : feed d2 = retitled url v2 (feed d1)) by reflexivity.
    destruct (retitled_ids url v2 (feed d1)) as [Hi Hu].
    split. { rewrite Hfd2. unfold retitled. apply length_map. }
    split. { unfold feeds_of at 1. rewrite Hfd2, feeds_of_retitled.
             fold (feeds_of url d1). rewrite Hf1. cbn [map List.length].
             rewrite !length_map. reflexivity. }
    split. { rewrite Hfd2. exact Hi. }
    split. { rewrite Hfd2. exact Hu. }
    split. { unfold feeds_of. rewrite Hfd2, feeds_of_retitled.
             apply Forall_map. apply Forall_forall. intros x _. reflexivity. }
    split. { intros x Hx Hn. rewrite Hfd2. apply retitled_others; assumption. }
    repeat split; reflexivity.
Qed.

Lemma upsert_feed_twice_witness :
  exists id d1 d2,
    upsert_feed "2023-01-03 12:00:00" Scenario.feed_url (PStr "Example Show") PNone created
      = (Ok id, d1)
    /\ upsert_feed "2023-01-04 12:00:00" Scenario.feed_url (PStr "Example Show!") PNone d1
      = (Ok id, d2)
    /\ List.length (feeds_of Scenario.feed_url d2) = 1%nat
    /\ Forall (fun r => f_title r = SText "Example Show!") (feeds_of Scenario.feed_url d2).
Proof.
  destruct (upsert_feed_twice created Scenario.feed_url
              "2023-01-03 12:00:00" "2023-01-04 12:00:00"
              (PStr "Example Show") (PStr "Example Show!") PNone PNone
              (SText "Example Show") (SText "Example Show!")
              eq_refl eq_refl eq_refl)
    as (id & d1 & d2 & s1 & s2 & E1 & E2 & _ & Hl & _ & _ & Ht & _).
  exists id, d1, d2. repeat split; assumption.
Defined.

(** What one call of [upsert_feed_item] does, by whether the pair is known. *)
Lemma upsert_feed_item_new (d : db) (q : engine) (now : string) (feed_id : Z) (guid : pyval)
      (a : item_args) (g : sqlval) (m : metadata) :
  has_schema d -> int64 feed_id = true -> Db.bind guid = Ok g -> bind_args a = Ok m ->
  episodes_of feed_id g d = [] ->
  let id := next_rowid (feed_item_seq d) (map feed_item_id (feed_item d)) in
  upsert_feed_item q now feed_id guid a d
  = (Ok id,
     set_feed_items d (feed_item d ++ [inserted now id feed_id g (as_stored q m)]) id).
Proof.
  intros H Hi Hg Ha Hf. unfold upsert_feed_item, Eff.bind, prepare, lift, ret, bind_int.
  prepared_ok H. rewrite Hi, Hg.
  rewrite (filter_nil_find
             (fun r => sql_eq (i_feed_id r) (SInt feed_id) && sql_eq (i_guid r) g)
             (feed_item d) Hf).
  prepared_ok H. rewrite Ha. reflexivity.
Qed.

Lemma upsert_feed_item_known (d : db) (q : engine) (now : string) (feed_id : Z) (guid : pyval)
      (a : item_args) (g : sqlval) (m : metadata) (r : feed_item_row)
      (rest : list feed_item_row) :
  has_schema d -> int64 feed_id = true -> Db.bind guid = Ok g -> bind_args a = Ok m ->
  episodes_of feed_id g d = r :: rest ->
  upsert_feed_item q now feed_id guid a d
  = (Ok (feed_item_id r),
     set_feed_items d (updated (feed_item_id r) g (as_stored q m) (feed_item d))
                    (feed_item_seq d)).
Proof.
  intros H Hi Hg Ha Hf. unfold upsert_feed_item, Eff.bind, prepare, lift, ret, bind_int.
  prepared_ok H. rewrite Hi, Hg.
  rewrite (filter_cons_find
             (fun r => sql_eq (i_feed_id r) (SInt feed_id) && sql_eq (i_guid r) g)
             (feed_item d) r rest Hf).
  prepared_ok H. rewrite Ha. reflexivity.
Qed.

Lemma fold_max_ge (seq : Z) (ids : list Z) :
  seq <= fold_right Z.max seq ids /\ forall x, In x ids -> x <= fold_right Z.max seq ids.
Proof.
  induction ids as [|y ids [IH1 IH2]]; simpl.
  - split; [lia|]. intros x [].
  - split; [lia|]. intros x [->|Hx]; [lia|]. specialize (IH2 x Hx). lia.
Qed.

Lemma next_rowid_fresh (seq : Z) (ids : list Z) : ~ In (next_rowid seq ids) ids.
Proof.
  intros Hin. destruct (fold_max_ge seq ids) as [_ H]. specialize (H _ Hin).
  unfold next_rowid in H. lia.
Qed.

Lemma updated_ids (id : Z) (g : sqlval) (m : metadata) (l : list feed_item_row) :
  map feed_item_id (updated id g m l) = map feed_item_id l
  /\ map i_download_path (updated id g m l) = map i_download_path l
  /\ map i_feed_id (updated id g m l) = map i_feed_id l.
Proof.
  induction l as [|x l (IH1 & IH2 & IH3)]; [repeat split; reflexivity|].
  cbn [updated map]. fold (updated id g m l). rewrite IH1, IH2, IH3.
  destruct (feed_item_id x =? id); repeat split; reflexivity.
Qed.

Lemma unique_row (l : list feed_item_row) (r x : feed_item_row) :
  List.NoDup (map feed_item_id l) -> In r l -> In x l ->
  feed_item_id x = feed_item_id r -> x = r.
Proof.
  induction l as [|y l IH]; simpl; [intros _ []|].
  intros Hnd Hr Hx E. apply List.NoDup_cons_iff in Hnd. destruct Hnd as [Hy Hnd].
  destruct Hr as [->|Hr], Hx as [->|Hx].
  - reflexivity.
  - exfalso. apply Hy. rewrite <- E. apply in_map. exact Hx.
  - exfalso. apply Hy. rewrite E. apply in_map. exact Hr.
  - apply IH; assumption.
Qed.

Lemma filter_map_commute {A} (P : A -> bool) (f : A -> A) (l : list A) :
  (forall x, In x l -> P (f x) = P x) ->
  List.filter P (map f l) = map f (List.filter P l).
Proof.
  induction l as [|x l IH]; intros H; [reflexivity|].
  cbn [map List.filter]. rewrite (H x) by (left; reflexivity).
  rewrite IH by (intros y Hy; apply H; right; exact Hy).
  destruct (P x); reflexivity.
Qed.

Lemma is_episode_text_refl (feed_id : Z) (g : string) (r : feed_item_row) (m : metadata) :
  is_episode feed_id (SText g) r = true ->
  is_episode feed_id (SText g) (with_metadata r (SText g) m) = true.
Proof.
  unfold is_episode. cbn [with_metadata i_feed_id i_guid sql_eq].
  intros H. apply andb_true_iff in H. destruct H as [H _]. rewrite H.
  rewrite String.eqb_refl. reflexivity.
Qed.

(** With unique identifiers, the update touches the one row it found. *)
Lemma episodes_of_updated (d : db) (feed_id : Z) (g : string) (m : metadata)
      (r : feed_item_row) :
  unique_ids d -> episodes_of feed_id (SText g) d = [r] ->
  List.filter (is_episode feed_id (SText g))
              (updated (feed_item_id r) (SText g) m (feed_item d))
  = [with_metadata r (SText g) m].
Proof.
  intros Hnd Hf.
  assert (Hr : In r (feed_item d) /\ is_episode feed_id (SText g) r = true).
  { apply filter_In. fold (episodes_of feed_id (SText g) d). rewrite Hf. left. reflexivity. }
  destruct Hr as [Hr Hm].
  unfold updated. rewrite filter_map_commute.
  - fold (episodes_of feed_id (SText g) d). rewrite Hf. cbn [map].
    rewrite Z.eqb_refl. reflexivity.
  - intros x Hx. destruct (feed_item_id x =? feed_item_id r) eqn:E; [|reflexivity].
    apply Z.eqb_eq in E. rewrite (unique_row _ r x Hnd Hr Hx E).
    rewrite Hm. apply is_episode_text_refl. exact Hm.
Qed.

Lemma updated_others (l : list feed_item_row) (r x : feed_item_row) (g : sqlval)
      (m : metadata) :
  List.NoDup (map feed_item_id l) -> In r l -> In x l -> x <> r ->
  In x (updated (feed_item_id r) g m l).
Proof.
  intros Hnd Hr Hx Hne. unfold updated. apply in_map_iff. exists x. split; [|exact Hx].
  destruct (feed_item_id x =? feed_item_id r) eqn:E; [|reflexivity].
  apply Z.eqb_eq in E. exfalso. apply Hne. exact (unique_row l r x Hnd Hr Hx E).
Qed.

Lemma NoDup_snoc {A} (l : list A) (x : A) :
  List.NoDup l -> ~ In x l -> List.NoDup (l ++ [x]).
Proof.
  intros Hl Hx. apply List.NoDup_app.
  - exact Hl.
  - constructor; [intros []|constructor].
  - intros a Ha [<-|[]]. exact (Hx Ha).
Qed.

(** One call for a pair that has at most one row. *)
Lemma upsert_feed_item_step (d : db) (q : engine) (now : string) (feed_id : Z) (g : string)
      (a : item_args) (m : metadata) :
  has_schema d -> unique_ids d -> int64 feed_id = true ->
  (List.length (episodes_of feed_id (SText g) d) <= 1)%nat ->
  bind_args a = Ok m ->
  exists id d1 row,
    upsert_feed_item q now feed_id (PStr g) a d = (Ok id, d1)
    /\ has_schema d1 /\ unique_ids d1
    /\ episodes_of feed_id (SText g) d1 = [row]
    /\ feed_item_id row = id
    /\ (forall r0 rest, episodes_of feed_id (SText g) d = r0 :: rest ->
          id = feed_item_id r0)
    /\ metadata_of row = as_stored q m
    /\ i_download_path row
       = match episodes_of feed_id (SText g) d with
         | r0 :: _ => i_download_path r0
         | [] => SNull
         end
    /\ (forall r, In r (feed_item d) -> is_episode feed_id (SText g) r = false ->
          In r (feed_item d1))
    /\ map i_download_path (feed_item d1)
       = (map i_download_path (feed_item d)
          ++ match episodes_of feed_id (SText g) d with
             | [] => [SNull]
             | _ => []
             end)%list.
Proof.
  intros H Hnd H64 Hlen Ha.
  destruct (episodes_of feed_id (SText g) d) as [|r0 rest] eqn:Hf.
  - rewrite (upsert_feed_item_new d q now feed_id (PStr g) a (SText g) m H H64 eq_refl Ha Hf).
    cbv zeta.
    set (id := next_rowid (feed_item_seq d) (map feed_item_id (feed_item d))).
    eexists id, _, (inserted now id feed_id (SText g) (as_stored q m)).
    split; [reflexivity|]. split; [exact H|].
    split.
    { unfold unique_ids. cbn [set_feed_items feed_item]. rewrite map_app.
      apply NoDup_snoc; [exact Hnd|apply next_rowid_fresh]. }
    split.
    { unfold episodes_of. cbn [set_feed_items feed_item]. rewrite List.filter_app.
      fold (episodes_of feed_id (SText g) d). rewrite Hf.
      cbn [List.filter app]. unfold is_episode, inserted. cbn [i_feed_id i_guid sql_eq].
      rewrite Z.eqb_refl, String.eqb_refl. reflexivity. }
    split; [reflexivity|]. split; [intros r0 rest [=]|].
    split; [reflexivity|]. split; [reflexivity|].
    split.
    { intros r Hr _. cbn [set_feed_items feed_item]. apply in_or_app. left. exact Hr. }
    cbn [set_feed_items feed_item]. rewrite map_app. reflexivity.
  - assert (rest = []) as ->.
    { destruct rest; [reflexivity|]. cbn in Hlen. lia. }
    rewrite (upsert_feed_item_known d q now feed_id (PStr g) a (SText g) m r0 []
               H H64 eq_refl Ha Hf).
    assert (Hr : In r0 (feed_item d) /\ is_episode feed_id (SText g) r0 = true).
    { apply filter_In. fold (episodes_of feed_id (SText g) d). rewrite Hf.
      left. reflexivity. }
    destruct Hr as [Hr Hm].
    destruct (updated_ids (feed_item_id r0) (SText g) (as_stored q m) (feed_item d))
      as (Hi & Hp & _).
    eexists (feed_item_id r0), _, (with_metadata r0 (SText g) (as_stored q m)).
    split; [reflexivity|]. split; [exact H|].
    split. { unfold unique_ids. cbn [set_feed_items feed_item]. rewrite Hi. exact Hnd. }
    split. { unfold episodes_of. cbn [set_feed_items feed_item].
             apply episodes_of_updated; assumption. }
    split; [reflexivity|]. split; [intros r1 rest [= -> _]; reflexivity|].
    split; [reflexivity|]. split; [reflexivity|].
    split.
    { intros r Hin Hn. cbn [set_feed_items feed_item].
      apply updated_others; try assumption.
      intros ->. rewrite Hm in Hn. discriminate. }
    cbn [set_feed_items feed_item]. rewrite Hp, app_nil_r. reflexivity.
Qed.

(** C6, the claim as it stands fails: one call with the length "0100" on
    the empty database leaves a row whose enclosure_length is the number
    100, not the text that was passed. *)
Lemma padded_length_is_stored_as_number :
  exists id d' row m,
    upsert_feed_item_each Scenario.integers_only 1 (PStr "abc123")
      [("2023-01-03 12:00:00", Scenario.version "Ep 1" "0100")] created
      = (Ok [id], d')
    /\ episodes_of 1 (SText "abc123") d' = [row]
    /\ bind_args (Scenario.version "Ep 1" "0100") = Ok m
    /\ m_enclosure_length m = SText "0100"
    /\ i_enclosure_length row = SInt 100
    /\ metadata_of row <> m.
Proof.
  eexists _, _, _, _. split; [vm_compute; reflexivity|].
  split; [vm_compute; reflexivity|]. split; [reflexivity|].
  split; [reflexivity|]. split; [reflexivity|].
  intros E. apply (f_equal m_enclosure_length) in E. discriminate E.
Qed.

(** C6: any number of calls of [upsert_feed_item] for one (feed, guid) pair,
    the feed id an integer of 64 bits and the guid a text, each call with
    its own metadata, on a database with the tables of [get_database] in
    which feed_item_id is unique and the pair has at most one row.  Every
    call returns the same identifier; afterwards the pair has exactly one
    row; its metadata are those bound by the last call as their columns
    store them (enclosure_length and itunes_season as the number they
    spell, if they spell one); its download_path is the one the row had
    before the calls (NULL if the row is new); the rows of other pairs are
    untouched; and the download paths of the table are what they were,
    with one NULL added for a new row. *)
Theorem upsert_feed_item_repeated (q : engine) (calls : list (string * item_args)) :
  forall (d : db) (feed_id : Z) (g : string) (last : string * item_args) (m : metadata),
  has_schema d -> unique_ids d -> int64 feed_id = true ->
  (List.length (episodes_of feed_id (SText g) d) <= 1)%nat ->
  Forall (fun c => is_ok (bind_args (snd c)) = true) calls ->
  bind_args (snd last) = Ok m ->
  exists id d' row,
    upsert_feed_item_each q feed_id (PStr g) (calls ++ [last]) d
      = (Ok (repeat id (S (List.length calls))), d')
    /\ episodes_of feed_id (SText g) d' = [row]
    /\ feed_item_id row = id
    /\ (forall r0 rest, episodes_of feed_id (SText g) d = r0 :: rest ->
          id = feed_item_id r0)
    /\ metadata_of row = as_stored q m
    /\ i_download_path row
       = match episodes_of feed_id (SText g) d with
         | r0 :: _ => i_download_path r0
         | [] => SNull
         end
    /\ (forall r, In r (feed_item d) -> is_episode feed_id (SText g) r = false ->
          In r (feed_item d'))
    /\ map i_download_path (feed_item d')
       = (map i_download_path (feed_item d)
          ++ match episodes_of feed_id (SText g) d with
             | [] => [SNull]
             | _ => []
             end)%list.
Proof.
  induction calls as [|[now a] calls IH];
    intros d feed_id g [nowl al] m H Hnd H64 Hlen Hall Hlast.
  - cbn [snd] in Hlast.
    destruct (upsert_feed_item_step d q nowl feed_id g al m H Hnd H64 Hlen Hlast)
      as (id & d1 & row & E & _ & _ & Hf & Hid & Hk & Hm & Hp & Ho & Hps).
    exists id, d1, row. split.
    { cbn [app upsert_feed_item_each]. unfold Eff.bind. rewrite E. reflexivity. }
    repeat split; assumption.
  - apply Forall_cons in Hall. destruct Hall as [Ha Hall]. cbn [snd] in Ha.
    destruct (bind_args a) as [ma|] eqn:Ea; [|discriminate].
    destruct (upsert_feed_item_step d q now feed_id g a ma H Hnd H64 Hlen Ea)
      as (id & d1 & row1 & E & H1 & Hnd1 & Hf1 & Hid1 & Hk1 & _ & Hp1 & Ho1 & Hps1).
    assert (Hlen1 : (List.length (episodes_of feed_id (SText g) d1) <= 1)%nat)
      by (rewrite Hf1; cbn; lia).
    destruct (IH d1 feed_id g (nowl, al) m H1 Hnd1 H64 Hlen1 Hall Hlast)
      as (id' & d' & row & E' & Hf & Hid & Hk & Hm & Hp & Ho & Hps).
    rewrite Hf1 in Hp, Hps.
    assert (id' = id) as -> by (rewrite (Hk row1 [] Hf1); exact Hid1).
    exists id, d', row. split.
    { cbn [app upsert_feed_item_each List.length]. unfold Eff.bind at 1. rewrite E.
      unfold Eff.bind at 1. rewrite E'. reflexivity. }
    split; [exact Hf|]. split; [exact Hid|]. split; [exact Hk1|]. split; [exact Hm|].
    split; [rewrite Hp; exact Hp1|].
    split.
    { intros r Hr Hn. apply Ho; [apply Ho1; assumption|exact Hn]. }
    rewrite Hps, Hps1, app_nil_r. reflexivity.
Qed.

Lemma upsert_feed_item_repeated_witness :
  exists id d' row,
    upsert_feed_item_each Scenario.integers_only 1 (PStr "abc123")
      [("2023-01-03 12:00:00", Scenario.version "Ep 1" "100");
       ("2023-01-04 12:00:00", Scenario.version "Ep 1 (fixed)" " 120");
       ("2023-01-05 12:00:00", Scenario.version "Episode One" "0130")] created
      = (Ok [id; id; id], d')
    /\ episodes_of 1 (SText "abc123") d' = [row]
    /\ i_title row = SText "Episode One"
    /\ i_enclosure_length row = SInt 130
    /\ i_download_path row = SNull.
Proof.
  destruct (upsert_feed_item_repeated Scenario.integers_only
              [("2023-01-03 12:00:00", Scenario.version "Ep 1" "100");
               ("2023-01-04 12:00:00", Scenario.version "Ep 1 (fixed)" " 120")]
              created 1 "abc123"
              ("2023-01-05 12:00:00", Scenario.version "Episode One" "0130")
              _ eq_refl (List.NoDup_nil Z) eq_refl (le_S 0 0 (le_n 0))
              ltac:(repeat constructor) eq_refl)
    as (id & d' & row & E & Hf & _ & _ & Hm & Hp & _).
  exists id, d', row. split; [exact E|]. split; [exact Hf|].
  split; [exact (f_equal m_title Hm)|].
  split; [exact (f_equal m_enclosure_length Hm)|exact Hp].
Defined.

(** ** The media tree only grows *)

Lemma same_kind_refl (n : node) : same_kind n n = true.
Proof. destruct n; reflexivity. Qed.

Lemma same_kind_trans (a b c : node) :
  same_kind a b = true -> same_kind b c = true -> same_kind a c = true.
Proof. destruct a, b, c; simpl; congruence. Qed.

Lemma grows_refl (t : fs) : grows t t.
Proof. intros loc n H. exists n. split; [exact H|apply same_kind_refl]. Qed.

Lemma grows_trans (t1 t2 t3 : fs) : grows t1 t2 -> grows t2 t3 -> grows t1 t3.
Proof.
  intros H12 H23 loc n H. destruct (H12 loc n H) as (n2 & H2 & K2).
  destruct (H23 loc n2 H2) as (n3 & H3 & K3). exists n3. split; [exact H3|].
  exact (same_kind_trans _ _ _ K2 K3).
Qed.

Lemma child_not_nil (loc : list string) (name : string) : child loc name <> [].
Proof. unfold child. destruct loc; discriminate. Qed.

Lemma at_loc_insert (t : fs) (loc loc' : list string) (n : node) :
  loc <> [] ->
  at_loc (<[loc := n]> t) loc' = if decide (loc = loc') then Some n else at_loc t loc'.
Proof.
  intros Hne. destruct loc' as [|x l].
  - simpl. destruct (decide (loc = [])); [contradiction|reflexivity].
  - cbn [at_loc]. rewrite lookup_insert. reflexivity.
Qed.

Lemma grows_insert (t : fs) (loc : list string) (n : node) :
  loc <> [] ->
  (forall n0, at_loc t loc = Some n0 -> same_kind n0 n = true) ->
  grows t (<[loc := n]> t).
Proof.
  intros Hne Hk loc' n' H. rewrite at_loc_insert by exact Hne.
  destruct (decide (loc = loc')) as [<-|_].
  - exists n. split; [reflexivity|]. apply Hk. exact H.
  - exists n'. split; [exact H|apply same_kind_refl].
Qed.

Lemma grows_is_dir (t t' : fs) (loc : list string) :
  grows t t' -> is_dir_at t loc = true -> is_dir_at t' loc = true.
Proof.
  intros G. unfold is_dir_at. destruct (at_loc t loc) as [[|d]|] eqn:E; try discriminate.
  destruct (G _ _ E) as (n' & -> & K). destruct n'; [reflexivity|discriminate].
Qed.

Lemma grows_walk (t t' : fs) (ps : list string) :
  grows t t' -> forall cur loc, walk t cur ps = Ok loc -> walk t' cur ps = Ok loc.
Proof.
  intros G. induction ps as [|p ps IH]; intros cur loc; simpl; [trivial|].
  destruct (is_dir_at t cur) eqn:D; [|discriminate].
  rewrite (grows_is_dir _ _ _ G D).
  destruct (String.eqb p ".."); [apply IH|].
  destruct (at_loc t (child cur p)) as [n|] eqn:E; [|discriminate].
  destruct (G _ _ E) as (n' & -> & _). apply IH.
Qed.

Lemma grows_exists (t t' : fs) (p : path) :
  grows t t' -> exists_ t p = true -> exists_ t' p = true.
Proof.
  intros G. unfold exists_. destruct (walk t [] (parts p)) as [loc|] eqn:E; [|discriminate].
  rewrite (grows_walk _ _ _ G _ _ E). trivial.
Qed.

Lemma os_mkdir_grows (t : fs) (ps : list string) : grows t (snd (os_mkdir t ps)).
Proof.
  unfold os_mkdir. destruct ps as [|p ps]; [apply grows_refl|].
  destruct (walk t [] (removelast (p :: ps))) as [loc|]; [|apply grows_refl].
  destruct (negb (is_dir_at t loc)); [apply grows_refl|].
  destruct (String.eqb _ ".."); [apply grows_refl|].
  destruct (at_loc t (child loc _)) eqn:E; [apply grows_refl|].
  cbn [snd]. apply grows_insert; [apply child_not_nil|].
  intros n0 H. rewrite E in H. discriminate.
Qed.

Lemma mkdir_plain_grows (exist_ok : bool) (t : fs) (ps : list string) :
  grows t (snd (mkdir_plain exist_ok t ps)).
Proof.
  unfold mkdir_plain. pose proof (os_mkdir_grows t ps) as G.
  destruct (os_mkdir t ps) as [[u|x] t']; cbn [snd] in *; [exact G|].
  destruct x; try exact G;
    match goal with |- context [if ?c then _ else _] => destruct c end; exact G.
Qed.

Lemma mkdir_parents_grows (n : nat) :
  forall (exist_ok : bool) (t : fs) (ps : list string),
    grows t (snd (mkdir_parents n exist_ok t ps)).
Proof.
  induction n as [|n IH]; intros exist_ok t ps; cbn [mkdir_parents].
  - pose proof (os_mkdir_grows t (firstn 0 ps)) as G.
    destruct (os_mkdir t (firstn 0 ps)) as [[u|x] t']; cbn [snd] in *;
      [apply mkdir_plain_grows|].
    destruct x; try apply mkdir_plain_grows. exact G.
  - pose proof (os_mkdir_grows t (firstn (S n) ps)) as G.
    destruct (os_mkdir t (firstn (S n) ps)) as [[u|x] t']; cbn [snd] in *;
      [apply mkdir_plain_grows|].
    destruct x; try apply mkdir_plain_grows.
    pose proof (IH true t' ps) as G'.
    destruct (mkdir_parents n true t' ps) as [[u|x] t'']; cbn [snd] in *.
    + eapply grows_trans; [exact G|]. eapply grows_trans; [exact G'|].
      apply mkdir_plain_grows.
    + eapply grows_trans; eassumption.
Qed.

Lemma mkdir_grows (parents exist_ok : bool) (t : fs) (p : path) :
  grows t (snd (mkdir parents exist_ok t p)).
Proof.
  unfold mkdir. destruct parents; [apply mkdir_parents_grows|apply mkdir_plain_grows].
Qed.

Lemma open_wb_grows (t : fs) (p : path) : grows t (snd (open_wb t p)).
Proof.
  unfold open_wb. destruct (parts p) as [|x ps]; [apply grows_refl|].
  destruct (walk t [] (removelast (x :: ps))) as [loc|]; [|apply grows_refl].
  destruct (negb (is_dir_at t loc)); [apply grows_refl|].
  destruct (String.eqb _ ".."); [apply grows_refl|].
  destruct (at_loc t (child loc _)) as [[|d]|] eqn:E; [apply grows_refl| |];
    cbn [snd]; apply grows_insert; try apply child_not_nil;
    intros n0 H; rewrite E in H; inversion H; reflexivity.
Qed.

Lemma write_grows (t : fs) (loc : list string) (chunk : string) :
  grows t (write t loc chunk).
Proof.
  unfold write. destruct (t !! loc) as [[|d]|] eqn:E; try apply grows_refl.
  destruct loc as [|x l].
  - intros loc' n H. destruct loc' as [|y l'].
    + exists Dir. split; [reflexivity|]. simpl in H. injection H as <-. reflexivity.
    + exists n. cbn [at_loc] in *. rewrite lookup_insert_ne by discriminate.
      split; [exact H|apply same_kind_refl].
  - apply grows_insert; [discriminate|].
    intros n0 H. cbn [at_loc] in H. rewrite E in H. injection H as <-. reflexivity.
Qed.

(** ** Relations that every step of a computation respects *)

Section Preserves.
Context {S : Type} (R : S -> S -> Prop).
Hypothesis R_refl : forall s, R s s.
Hypothesis R_trans : forall s1 s2 s3, R s1 s2 -> R s2 s3 -> R s1 s3.

Lemma preserves_ret {A} (a : A) : preserves R (ret a).
Proof. intros s. apply R_refl. Qed.

Lemma preserves_raise {A} (x : exn) : preserves R (@raise S A x).
Proof. intros s. apply R_refl. Qed.

Lemma preserves_lift {A} (r : result A) : preserves R (lift r).
Proof. intros s. apply R_refl. Qed.

Lemma preserves_bind {A B} (m : M S A) (k : A -> M S B) :
  preserves R m -> (forall a, preserves R (k a)) -> preserves R (Eff.bind m k).
Proof.
  intros Hm Hk s. unfold Eff.bind. specialize (Hm s).
  destruct (m s) as [[a|x] s1]; cbn [snd] in *; [|exact Hm].
  eapply R_trans; [exact Hm|apply Hk].
Qed.

Lemma preserves_for_each {A} (body : A -> M S unit) (l : list A) :
  (forall x, preserves R (body x)) -> preserves R (for_each body l).
Proof.
  intros Hb. induction l as [|x l IH]; cbn [for_each].
  - apply preserves_ret.
  - apply preserves_bind; [apply Hb|intros _; exact IH].
Qed.

End Preserves.

(** Taking a successful computation apart. *)
Lemma bind_ok {S A B} (m : M S A) (k : A -> M S B) (s s' : S) (b : B) :
  Eff.bind m k s = (Ok b, s') ->
  exists a s1, m s = (Ok a, s1) /\ k a s1 = (Ok b, s').
Proof.
  unfold Eff.bind. destruct (m s) as [[a|x] s1]; [|discriminate].
  intros H. exists a, s1. split; [reflexivity|exact H].
Qed.

Lemma lift_ok {S A} (r : result A) (s s' : S) (a : A) :
  lift r s = (Ok a, s') -> r = Ok a /\ s' = s.
Proof. unfold lift. intros [= -> ->]. split; reflexivity. Qed.

Lemma ret_ok {S A} (a b : A) (s s' : S) :
  ret a s = (Ok b, s') -> b = a /\ s' = s.
Proof. unfold ret. intros [= -> ->]. split; reflexivity. Qed.

Lemma for_each_ok {S A} (body : A -> M S unit) (x : A) (l : list A) (s s' : S) :
  for_each body (x :: l) s = (Ok tt, s') ->
  exists s1, body x s = (Ok tt, s1) /\ for_each body l s1 = (Ok tt, s').
Proof.
  cbn [for_each]. intros H. apply bind_ok in H. destruct H as ([] & s1 & H1 & H2).
  exists s1. split; assumption.
Qed.

(** ** The store under the statements of the program *)

Lemma keeps_paths_refl (d : db) : keeps_paths d d.
Proof. intros r Hr _. exists r. repeat split. exact Hr. Qed.

Lemma keeps_paths_trans (d1 d2 d3 : db) :
  keeps_paths d1 d2 -> keeps_paths d2 d3 -> keeps_paths d1 d3.
Proof.
  intros H12 H23 r Hr Hn. destruct (H12 r Hr Hn) as (r2 & Hr2 & Hi2 & Hp2).
  destruct (H23 r2 Hr2) as (r3 & Hr3 & Hi3 & Hp3); [congruence|].
  exists r3. repeat split; [exact Hr3|congruence|congruence].
Qed.

Lemma keeps_rows_refl (d : db) : keeps_rows d d.
Proof.
  split; intros r Hr; exists r; repeat split; exact Hr.
Qed.

Lemma keeps_rows_trans (d1 d2 d3 : db) :
  keeps_rows d1 d2 -> keeps_rows d2 d3 -> keeps_rows d1 d3.
Proof.
  intros [F12 I12] [F23 I23]. split.
  - intros r Hr. destruct (F12 r Hr) as (r2 & Hr2 & A2 & B2).
    destruct (F23 r2 Hr2) as (r3 & Hr3 & A3 & B3).
    exists r3. repeat split; [exact Hr3|congruence|congruence].
  - intros r Hr. destruct (I12 r Hr) as (r2 & Hr2 & A2 & B2 & C2).
    destruct (I23 r2 Hr2) as (r3 & Hr3 & A3 & B3 & C3).
    exists r3. repeat split; [exact Hr3|congruence|congruence|congruence].
Qed.

Lemma store_extends_refl (d : db) : store_extends d d.
Proof.
  split; [reflexivity|]. intros H. split; [exact H|].
  split; [apply keeps_paths_refl|apply keeps_rows_refl].
Qed.

Lemma store_extends_trans (d1 d2 d3 : db) :
  store_extends d1 d2 -> store_extends d2 d3 -> store_extends d1 d3.
Proof.
  intros [T12 W12] [T23 W23]. split; [congruence|].
  intros H1. destruct (W12 H1) as (H2 & P12 & K12).
  destruct (W23 H2) as (H3 & P23 & K23). split; [exact H3|].
  split; [eapply keeps_paths_trans|eapply keeps_rows_trans]; eassumption.
Qed.

Lemma extends_refl (s : state) : extends s s.
Proof.
  split; [reflexivity|apply grows_refl| |apply store_extends_refl].
  exists []. split; [symmetry; apply app_nil_r|constructor].
Qed.

Lemma extends_trans (s1 s2 s3 : state) : extends s1 s2 -> extends s2 s3 -> extends s1 s3.
Proof.
  intros [S12 T12 (n12 & D12 & F12) C12] [S23 T23 (n23 & D23 & F23) C23].
  split; [congruence|eapply grows_trans; eassumption| |
          eapply store_extends_trans; eassumption].
  exists (n12 ++ n23)%list. split; [rewrite D23, D12, app_assoc; reflexivity|].
  apply Forall_app. split; [exact F12|].
  eapply Forall_impl; [exact F23|]. intros c Hc. cbv beta in *.
  destruct (exists_ (tree s1) (destination c)) eqn:E; [|reflexivity].
  rewrite (grows_exists _ _ _ T12 E) in Hc. discriminate.
Qed.

Lemma keeps_paths_same_items (d d' : db) :
  feed_item d' = feed_item d -> keeps_paths d d'.
Proof. intros E r Hr _. exists r. rewrite E. repeat split. exact Hr. Qed.

Lemma well_formed_same_items (d d' : db) :
  feed_item d' = feed_item d -> well_formed d -> well_formed d'.
Proof. unfold well_formed, unique_ids. intros ->. trivial. Qed.

Lemma store_extends_set_feeds (d : db) (rows : list feed_row) (seq : Z) :
  (forall r, In r (feed d) ->
     exists r', In r' rows /\ feed_id r' = feed_id r /\ f_feed_url r' = f_feed_url r) ->
  store_extends d (set_feeds d rows seq).
Proof.
  intros H. split; [reflexivity|]. intros W.
  split; [exact (well_formed_same_items d _ eq_refl W)|].
  split; [apply keeps_paths_same_items; reflexivity|]. split; [exact H|].
  intros r Hr. exists r. repeat split. exact Hr.
Qed.

Lemma store_extends_set_raw_feeds (d : db) (rows : list raw_feed_row) (seq : Z) :
  store_extends d (set_raw_feeds d rows seq).
Proof.
  split; [reflexivity|]. intros W.
  split; [exact (well_formed_same_items d _ eq_refl W)|].
  split; [apply keeps_paths_same_items; reflexivity|].
  split; intros r Hr; exists r; repeat split; exact Hr.
Qed.

Lemma preserves_prepare (R : db -> db -> Prop) (table : string) (cols : list string) :
  (forall d, R d d) -> preserves R (prepare table cols).
Proof.
  intros Hr d. unfold prepare. destruct (prepared d table cols); apply Hr.
Qed.

Lemma upsert_feed_store (now url : string) (title doc : pyval) :
  preserves store_extends (upsert_feed now url title doc).
Proof.
  unfold upsert_feed.
  apply (preserves_bind _ store_extends_trans);
    [apply preserves_prepare, store_extends_refl|intros _].
  apply (preserves_bind _ store_extends_trans);
    [intros d; apply store_extends_refl|intros rec].
  apply (preserves_bind _ store_extends_trans).
  - destruct rec as [r|].
    + apply (preserves_bind _ store_extends_trans);
        [apply preserves_prepare, store_extends_refl|intros _].
      apply (preserves_bind _ store_extends_trans);
        [apply preserves_lift, store_extends_refl|intros t].
      intros d. cbn [snd]. apply store_extends_set_feeds. intros x Hx.
      exists (if sql_eq (f_feed_url x) (SText url) then with_title x t else x).
      split; [apply in_map_iff; exists x; split; [reflexivity|exact Hx]|].
      destruct (sql_eq (f_feed_url x) (SText url)); split; reflexivity.
    + apply (preserves_bind _ store_extends_trans);
        [apply preserves_prepare, store_extends_refl|intros _].
      apply (preserves_bind _ store_extends_trans);
        [apply preserves_lift, store_extends_refl|intros t].
      intros d. cbn [snd]. apply store_extends_set_feeds. intros x Hx.
      exists x. split; [apply in_or_app; left; exact Hx|split; reflexivity].
  - intros id.
    apply (preserves_bind _ store_extends_trans);
      [apply preserves_prepare, store_extends_refl|intros _].
    apply (preserves_bind _ store_extends_trans);
      [|intros _; apply preserves_ret, store_extends_refl].
    intros d. cbn [snd]. apply store_extends_set_raw_feeds.
Qed.

(** The three ways a call of [upsert_feed_item] can end. *)
Lemma upsert_feed_item_cases (q : engine) (now : string) (feed_id : Z) (guid : pyval)
      (a : item_args) (d : db) :
  (exists x, upsert_feed_item q now feed_id guid a d = (Raise x, d))
  \/ (exists g m,
        Db.bind guid = Ok g /\ (exists m0, bind_args a = Ok m0 /\ m = as_stored q m0)
        /\ episodes_of feed_id g d = []
        /\ upsert_feed_item q now feed_id guid a d
           = (Ok (next_rowid (feed_item_seq d) (map feed_item_id (feed_item d))),
              set_feed_items d
                (feed_item d
                 ++ [inserted now (next_rowid (feed_item_seq d)
                                              (map feed_item_id (feed_item d)))
                              feed_id g m])
                (next_rowid (feed_item_seq d) (map feed_item_id (feed_item d)))))
  \/ (exists g m r,
        Db.bind guid = Ok g /\ (exists m0, bind_args a = Ok m0 /\ m = as_stored q m0)
        /\ In r (feed_item d) /\ is_episode feed_id g r = true
        /\ find (is_episode feed_id g) (feed_item d) = Some r
        /\ upsert_feed_item q now feed_id guid a d
           = (Ok (feed_item_id r),
              set_feed_items d (updated (feed_item_id r) g m (feed_item d))
                             (feed_item_seq d))).
Proof.
  unfold upsert_feed_item, Eff.bind, prepare, lift.
  destruct (prepared d "feed_item" ["feed_item_id"; "feed_id"; "guid"]);
    [|left; eexists; reflexivity].
  destruct (bind_int feed_id) as [f|x]; [|left; eexists; reflexivity].
  destruct (Db.bind guid) as [g|x]; [|left; eexists; reflexivity].
  change (find (fun r => sql_eq (i_feed_id r) (SInt feed_id) && sql_eq (i_guid r) g)
               (feed_item d))
    with (find (is_episode feed_id g) (feed_item d)).
  destruct (find (is_episode feed_id g) (feed_item d)) as [r|] eqn:F.
  - destruct (prepared d "feed_item" _); [|left; eexists; reflexivity].
    destruct (bind_args a) as [m|x]; [|left; eexists; reflexivity].
    right. right. exists g, (as_stored q m), r. destruct (find_some _ _ F) as [Hin Hm].
    split; [reflexivity|]. split; [exists m; split; reflexivity|].
    repeat split; assumption.
  - destruct (prepared d "feed_item" _); [|left; eexists; reflexivity].
    destruct (bind_args a) as [m|x]; [|left; eexists; reflexivity].
    right. left. exists g, (as_stored q m). split; [reflexivity|].
    split; [exists m; split; reflexivity|]. split; [|reflexivity].
    apply find_none_filter. exact F.
Qed.

(** ** Paths read back as themselves *)

Lemma split_slash_not_nil (s : string) : split_slash s <> [].
Proof.
  induction s as [|a s IH]; simpl; [discriminate|].
  destruct (Ascii.eqb a "/"); [discriminate|].
  destruct (split_slash s); discriminate.
Qed.

Lemma split_slash_no_slash (s : string) : Forall no_slash (split_slash s).
Proof.
  induction s as [|a s IH]; simpl.
  - repeat constructor.
  - destruct (Ascii.eqb a "/") eqn:E.
    + constructor; [reflexivity|exact IH].
    + destruct (split_slash s) as [|h t]; [repeat constructor; unfold no_slash; simpl;
                                            rewrite E; reflexivity|].
      apply Forall_cons in IH. destruct IH as [Hh Ht]. constructor; [|exact Ht].
      unfold no_slash in *. simpl. rewrite E. exact Hh.
Qed.

Lemma split_slash_one (c : string) : no_slash c -> split_slash c = [c].
Proof.
  unfold no_slash. induction c as [|a c IH]; simpl; [reflexivity|].
  intros H. apply andb_true_iff in H. destruct H as [Ha Hc].
  apply negb_true_iff in Ha. rewrite Ha, (IH Hc). reflexivity.
Qed.

Lemma split_slash_cons (c rest : string) :
  no_slash c -> split_slash (String.append c (String "/" rest)) = c :: split_slash rest.
Proof.
  unfold no_slash. induction c as [|a c IH]; simpl; [reflexivity|].
  intros H. apply andb_true_iff in H. destruct H as [Ha Hc].
  apply negb_true_iff in Ha. rewrite Ha, (IH Hc). reflexivity.
Qed.

Lemma split_slash_join (ps : list string) :
  Forall no_slash ps -> ps <> [] -> split_slash (Text.join "/" ps) = ps.
Proof.
  induction ps as [|c ps IH]; intros H Hne; [contradiction|].
  apply Forall_cons in H. destruct H as [Hc Hps].
  destruct ps as [|c' ps'].
  - simpl. apply split_slash_one. exact Hc.
  - change (Text.join "/" (c :: c' :: ps'))
      with (String.append c (String "/" (Text.join "/" (c' :: ps')))).
    rewrite split_slash_cons by exact Hc. rewrite IH; [reflexivity|exact Hps|discriminate].
Qed.

Lemma filter_names (ps : list string) :
  Forall (fun c => is_name c = true) ps -> List.filter is_name ps = ps.
Proof.
  induction ps as [|c ps IH]; intros H; [reflexivity|].
  apply Forall_cons in H. destruct H as [Hc Hps]. simpl. rewrite Hc, (IH Hps). reflexivity.
Qed.

Lemma parts_of_parse (s : string) :
  Forall no_slash (parts (parse s)) /\ Forall (fun c => is_name c = true) (parts (parse s)).
Proof.
  unfold parse. cbn [parts]. split.
  - pose proof (split_slash_no_slash s) as H.
    induction (split_slash s) as [|c l IH]; simpl; [constructor|].
    apply Forall_cons in H. destruct H as [Hc Hl].
    destruct (is_name c); [constructor; [exact Hc|]|]; apply IH; exact Hl.
  - apply Forall_forall. intros c Hc. apply list_elem_of_In in Hc.
    apply filter_In in Hc. exact (proj2 Hc).
Qed.

Lemma root_of_parse (s : string) :
  root (parse s) = EmptyString \/ root (parse s) = "/" \/ root (parse s) = "//".
Proof.
  unfold parse, root_of. cbn [root].
  destruct s as [|a s]; [left; reflexivity|].
  destruct a as [[] [] [] [] [] [] [] []]; try (left; reflexivity).
  destruct s as [|b s]; [right; left; reflexivity|].
  destruct b as [[] [] [] [] [] [] [] []]; try (right; left; reflexivity).
  destruct s as [|c s]; [right; right; reflexivity|].
  destruct c as [[] [] [] [] [] [] [] []]; try (right; right; reflexivity).
  right; left; reflexivity.
Qed.

Lemma name_first_char (c : string) :
  no_slash c -> is_name c = true ->
  exists a r, c = String a r /\ Ascii.eqb a "/" = false.
Proof.
  unfold no_slash. destruct c as [|a r]; [discriminate|]. simpl.
  intros H _. apply andb_true_iff in H. destruct H as [Ha _].
  apply negb_true_iff in Ha. exists a, r. split; [reflexivity|exact Ha].
Qed.

Lemma join_first_char (ps : list string) :
  Forall no_slash ps -> Forall (fun c => is_name c = true) ps -> ps <> [] ->
  exists a r, Text.join "/" ps = String a r /\ Ascii.eqb a "/" = false.
Proof.
  intros H1 H2 Hne. destruct ps as [|c ps]; [contradiction|].
  apply Forall_cons in H1. apply Forall_cons in H2.
  destruct (name_first_char c (proj1 H1) (proj1 H2)) as (a & r & -> & Ha).
  destruct ps as [|c' ps'].
  - exists a, r. split; [reflexivity|exact Ha].
  - exists a. eexists. split; [reflexivity|exact Ha].
Qed.

Lemma not_slash_char (a : ascii) : Ascii.eqb a "/" = false -> a <> "/"%char.
Proof. intros H. apply Ascii.eqb_neq. exact H. Qed.

(** [Path(p.as_posix()) == p] for every path made from text. *)
Theorem parse_as_posix (s : string) : parse (as_posix (parse s)) = parse s.
Proof.
  destruct (parts_of_parse s) as [Hns Hnm].
  pose proof (root_of_parse s) as Hr.
  destruct (parse s) as [r ps] eqn:E. cbn [root parts] in *.
  destruct ps as [|c ps'].
  - destruct Hr as [->|[->| ->]]; reflexivity.
  - set (ps := c :: ps') in *.
    assert (Hap : as_posix {| root := r; parts := ps |}
                  = String.append r (Text.join "/" ps))
      by (unfold as_posix, ps; cbn [root parts]; destruct r; reflexivity).
    rewrite Hap. clear Hap.
    assert (Hne : ps <> []) by discriminate.
    destruct (join_first_char ps Hns Hnm Hne) as (a & rest & Hj & Ha).
    assert (Hparts : List.filter is_name (split_slash (Text.join "/" ps)) = ps).
    { rewrite split_slash_join by assumption. apply filter_names. exact Hnm. }
    assert (Hsplit1 : forall t, split_slash (String "/" t) = EmptyString :: split_slash t)
      by reflexivity.
    assert (Hroot : root_of (Text.join "/" ps) = EmptyString
                    /\ root_of (String "/" (Text.join "/" ps)) = "/"
                    /\ root_of (String "/" (String "/" (Text.join "/" ps))) = "//").
    { rewrite Hj. unfold root_of.
      destruct a as [[] [] [] [] [] [] [] []]; try (repeat split; reflexivity).
      discriminate. }
    destruct Hroot as (R0 & R1 & R2).
    destruct Hr as [->|[->| ->]].
    + change (String.append EmptyString (Text.join "/" ps)) with (Text.join "/" ps).
      unfold parse. rewrite Hparts, R0. reflexivity.
    + change (String.append "/" (Text.join "/" ps)) with (String "/" (Text.join "/" ps)).
      unfold parse. rewrite R1, Hsplit1.
      change (List.filter is_name (EmptyString :: split_slash (Text.join "/" ps)))
        with (List.filter is_name (split_slash (Text.join "/" ps))).
      rewrite Hparts. reflexivity.
    + change (String.append "//" (Text.join "/" ps))
        with (String "/" (String "/" (Text.join "/" ps))).
      unfold parse. rewrite R2, !Hsplit1.
      change (List.filter is_name
                (EmptyString :: EmptyString :: split_slash (Text.join "/" ps)))
        with (List.filter is_name (split_slash (Text.join "/" ps))).
      rewrite Hparts. reflexivity.
Qed.

Lemma Path_one (p : string) : Path [p] = parse p.
Proof. reflexivity. Qed.

Lemma Path_is_parse (segs : list string) : exists s, Path segs = parse s.
Proof.
  destruct segs as [|a r]; [exists EmptyString; reflexivity|].
  exists (join_onto a r). reflexivity.
Qed.

Lemma as_posix_normal (segs : list string) : normal (SText (as_posix (Path segs))).
Proof.
  destruct (Path_is_parse segs) as [s ->]. unfold normal. rewrite Path_one.
  rewrite parse_as_posix. reflexivity.
Qed.

(** ** Every statement extends the store *)

Lemma sql_eq_true (a b : sqlval) : sql_eq a b = true -> a = b.
Proof.
  destruct a, b; simpl; try discriminate.
  - intros H. apply Z.eqb_eq in H. congruence.
  - intros H. apply String.eqb_eq in H. congruence.
Qed.

Lemma normal_paths_map (l l' : list feed_item_row) :
  map i_download_path l' = map i_download_path l ->
  Forall (fun r => normal (i_download_path r)) l ->
  Forall (fun r => normal (i_download_path r)) l'.
Proof.
  revert l'. induction l as [|x l IH]; intros [|x' l'] E H; try discriminate.
  - constructor.
  - injection E as Ex El. apply Forall_cons in H. destruct H as [Hx Hl].
    constructor; [rewrite Ex; exact Hx|apply IH; assumption].
Qed.

Lemma upsert_feed_item_store (q : engine) (now : string) (feed_id : Z) (guid : pyval) (a : item_args) :
  preserves store_extends (upsert_feed_item q now feed_id guid a).
Proof.
  intros d.
  destruct (upsert_feed_item_cases q now feed_id guid a d)
    as [[x ->]|[(g & m & _ & _ & _ & ->)|(g & m & r & _ & _ & Hin & Hm & _ & ->)]];
    cbn [snd].
  - apply store_extends_refl.
  - split; [reflexivity|]. intros [Hu Hn]. split; [split|split; [|split]].
    + unfold unique_ids. cbn [set_feed_items feed_item]. rewrite map_app.
      apply NoDup_snoc; [exact Hu|apply next_rowid_fresh].
    + cbn [set_feed_items feed_item]. apply Forall_app. split; [exact Hn|].
      repeat constructor.
    + intros r Hr _. exists r. cbn [set_feed_items feed_item].
      split; [apply in_or_app; left; exact Hr|split; reflexivity].
    + intros r Hr. exists r. split; [exact Hr|split; reflexivity].
    + intros r Hr. exists r. cbn [set_feed_items feed_item].
      split; [apply in_or_app; left; exact Hr|repeat split; reflexivity].
  - destruct (updated_ids (feed_item_id r) g m (feed_item d)) as (Hi & Hp & Hf).
    split; [reflexivity|]. intros [Hu Hn]. split; [split|split; [|split]].
    + unfold unique_ids. cbn [set_feed_items feed_item]. rewrite Hi. exact Hu.
    + cbn [set_feed_items feed_item]. eapply normal_paths_map; [exact Hp|exact Hn].
    + intros x Hx _. cbn [set_feed_items feed_item].
      exists (if feed_item_id x =? feed_item_id r then with_metadata x g m else x).
      split; [apply in_map_iff; exists x; split; [reflexivity|exact Hx]|].
      destruct (feed_item_id x =? feed_item_id r); split; reflexivity.
    + intros x Hx. exists x. split; [exact Hx|split; reflexivity].
    + intros x Hx. cbn [set_feed_items feed_item].
      exists (if feed_item_id x =? feed_item_id r then with_metadata x g m else x).
      split; [apply in_map_iff; exists x; split; [reflexivity|exact Hx]|].
      destruct (feed_item_id x =? feed_item_id r) eqn:E; [|repeat split; reflexivity].
      apply Z.eqb_eq in E. rewrite (unique_row _ r x Hu Hin Hx E).
      unfold is_episode in Hm. apply andb_true_iff in Hm. destruct Hm as [_ Hg].
      apply sql_eq_true in Hg. repeat split. cbn [with_metadata i_guid]. congruence.
Qed.

Lemma select_download_path_same (id : Z) (d : db) :
  snd (select_download_path id d) = d.
Proof.
  unfold select_download_path, Eff.bind, prepare.
  destruct (prepared d _ _); [|reflexivity].
  destruct (find _ (feed_item d)); reflexivity.
Qed.

Lemma select_download_path_ok (id : Z) (d d' : db) (v : sqlval) :
  select_download_path id d = (Ok v, d') ->
  d' = d /\ exists r, find (fun r => feed_item_id r =? id) (feed_item d) = Some r
                      /\ i_download_path r = v.
Proof.
  unfold select_download_path, Eff.bind, prepare.
  destruct (prepared d _ _); [|discriminate].
  destruct (find _ (feed_item d)) as [r|]; [|discriminate].
  intros [= <- <-]. split; [reflexivity|]. exists r. split; reflexivity.
Qed.

Lemma update_download_path_cases (p : string) (id : Z) (d : db) :
  snd (update_download_path p id d) = d
  \/ snd (update_download_path p id d)
     = set_feed_items d (with_path p id (feed_item d)) (feed_item_seq d).
Proof.
  unfold update_download_path, Eff.bind, prepare.
  destruct (prepared d _ _); [right|left]; reflexivity.
Qed.

Lemma update_download_path_twice (p : string) (id : Z) (d : db) :
  snd (update_download_path p id (snd (update_download_path p id d)))
  = snd (update_download_path p id d).
Proof.
  unfold update_download_path, Eff.bind, prepare.
  destruct (prepared d _ _) eqn:E; cbn [snd]; [|rewrite E; reflexivity].
  assert (E' : prepared (set_feed_items d (with_path p id (feed_item d)) (feed_item_seq d))
                        "feed_item" ["download_path"; "feed_item_id"] = true) by exact E.
  unfold with_path in E'. rewrite E'. cbn [snd set_feed_items feed_item feed_item_seq].
  unfold set_feed_items. f_equal. cbn [feed_item]. rewrite map_map. apply map_ext.
  intros x. destruct (feed_item_id x =? id) eqn:Ex; [|rewrite Ex; reflexivity].
  cbn [with_download_path feed_item_id]. rewrite Ex. reflexivity.
Qed.

(** The completion record extends the store when it is written for the file
    that was resolved for the episode. *)
Lemma update_download_path_store (d : db) (id : Z) (item_file : path) :
  linked d id item_file ->
  store_extends d (snd (update_download_path (as_posix item_file) id d)).
Proof.
  intros (r & F & Hres).
  destruct (update_download_path_cases (as_posix item_file) id d) as [->| ->];
    [apply store_extends_refl|].
  destruct (find_some _ _ F) as [Hin Hid]. apply Z.eqb_eq in Hid.
  split; [reflexivity|]. intros [Hu Hn].
  assert (Hids : map feed_item_id (with_path (as_posix item_file) id (feed_item d))
                 = map feed_item_id (feed_item d)).
  { unfold with_path. rewrite map_map. apply map_ext. intros x.
    destruct (feed_item_id x =? id); reflexivity. }
  assert (Hsame : forall x, In x (feed_item d) -> feed_item_id x = id ->
                            i_download_path x <> SNull ->
                            i_download_path x = SText (as_posix item_file)).
  { intros x Hx Ex Hnn. assert (x = r) as ->.
    { apply (unique_row _ r x Hu Hin Hx). congruence. }
    apply Forall_forall with (x := r) in Hn; [|apply list_elem_of_In; exact Hin].
    destruct (i_download_path r) as [|n|p|y]; [contradiction|contradiction| |contradiction].
    cbn in Hres, Hn. rewrite Hres, Hn. reflexivity. }
  split; [split|split; [|split]].
  - unfold unique_ids. cbn [set_feed_items feed_item]. rewrite Hids. exact Hu.
  - cbn [set_feed_items feed_item]. unfold with_path. apply Forall_map.
    eapply Forall_impl; [exact Hn|]. intros x Hx. cbv beta.
    destruct (feed_item_id x =? id); [|exact Hx].
    cbn [with_download_path i_download_path].
    destruct (i_download_path r) as [|n|p|y]; cbn in Hres.
    + destruct Hres as [text ->]. exact (as_posix_normal [text]).
    + contradiction.
    + rewrite Hres. exact (as_posix_normal [p]).
    + contradiction.
  - intros x Hx Hnn. cbn [set_feed_items feed_item].
    exists (if feed_item_id x =? id
            then with_download_path x (SText (as_posix item_file)) else x).
    split; [apply in_map_iff; exists x; split; [reflexivity|exact Hx]|].
    destruct (feed_item_id x =? id) eqn:E; [|split; reflexivity].
    apply Z.eqb_eq in E. split; [reflexivity|].
    cbn [with_download_path i_download_path]. symmetry. apply Hsame; assumption.
  - intros x Hx. exists x. split; [exact Hx|split; reflexivity].
  - intros x Hx. cbn [set_feed_items feed_item].
    exists (if feed_item_id x =? id
            then with_download_path x (SText (as_posix item_file)) else x).
    split; [apply in_map_iff; exists x; split; [reflexivity|exact Hx]|].
    destruct (feed_item_id x =? id); repeat split; reflexivity.
Qed.

(** ** Every step of a pass extends the state *)

Lemma on_con_extends {A} (m : M db A) :
  preserves store_extends m -> preserves extends (on_con m).
Proof.
  intros H s. unfold on_con. specialize (H (con s)).
  destruct (m (con s)) as [r d]. cbn [snd] in *.
  split; cbn [set_con saved tree downloads con];
    [reflexivity|apply grows_refl| |exact H].
  exists []. split; [symmetry; apply app_nil_r|constructor].
Qed.

Lemma on_tree_extends {A} (f : fs -> result A * fs) :
  (forall t, grows t (snd (f t))) -> preserves extends (on_tree f).
Proof.
  intros H s. unfold on_tree. specialize (H (tree s)).
  destruct (f (tree s)) as [r t]. cbn [snd] in *.
  split; cbn [set_tree saved tree downloads con];
    [reflexivity|exact H| |apply store_extends_refl].
  exists []. split; [symmetry; apply app_nil_r|constructor].
Qed.

Lemma time_time_extends (e : env) : preserves extends (time_time e).
Proof.
  intros s. split; cbn; [reflexivity|apply grows_refl| |apply store_extends_refl].
  exists []. split; [symmetry; apply app_nil_r|constructor].
Qed.

Lemma requests_get_extends (e : env) (url : pyval) : preserves extends (requests_get e url).
Proof.
  intros s. unfold requests_get. destruct url; try apply extends_refl.
  split; cbn; [reflexivity|apply grows_refl| |apply store_extends_refl].
  exists []. split; [symmetry; apply app_nil_r|constructor].
Qed.

Lemma get_feed_xml_extends (e : env) (feed_url : string) :
  preserves extends (get_feed_xml e feed_url).
Proof.
  unfold get_feed_xml. destruct (Text.strip_prefix "file://" feed_url) as [name|].
  - intros s. apply extends_refl.
  - apply (preserves_bind _ extends_trans); [apply requests_get_extends|intros res].
    destruct (broken res); [apply preserves_raise, extends_refl|].
    apply (preserves_bind _ extends_trans); [apply preserves_lift, extends_refl|intros _].
    apply preserves_ret, extends_refl.
Qed.

Lemma quiet_refl (s : state) : quiet s s.
Proof. split; reflexivity. Qed.

Lemma quiet_trans (s1 s2 s3 : state) : quiet s1 s2 -> quiet s2 s3 -> quiet s1 s3.
Proof. unfold quiet. intros [] []. split; congruence. Qed.

Lemma on_con_quiet {A} (m : M db A) : preserves quiet (on_con m).
Proof. intros s. unfold on_con. destruct (m (con s)). split; reflexivity. Qed.

Lemma on_tree_quiet {A} (f : fs -> result A * fs) : preserves quiet (on_tree f).
Proof. intros s. unfold on_tree. destruct (f (tree s)). split; reflexivity. Qed.

(** The relation that holds while an enclosure is fetched. *)
Lemma fetching_refl (p : string) (id : Z) (s : state) : fetching p id s s.
Proof. split; [reflexivity|reflexivity|apply grows_refl|left; reflexivity]. Qed.

Lemma fetching_trans (p : string) (id : Z) (s1 s2 s3 : state) :
  fetching p id s1 s2 -> fetching p id s2 s3 -> fetching p id s1 s3.
Proof.
  intros [S12 D12 T12 C12] [S23 D23 T23 C23].
  split; [congruence|congruence|eapply grows_trans; eassumption|].
  destruct C12 as [E12|E12], C23 as [E23|E23]; rewrite E23, E12.
  - left; reflexivity.
  - right; reflexivity.
  - right; reflexivity.
  - right. apply update_download_path_twice.
Qed.

Lemma write_chunks_fetching (p : string) (id : Z) (e : env) (f : list string)
      (expected start : Z) (chunks : list string) :
  forall b c, preserves (fetching p id) (write_chunks e f expected start chunks b c).
Proof.
  induction chunks as [|chunk rest IH]; intros b c; cbn [write_chunks].
  - apply preserves_ret, fetching_refl.
  - apply (preserves_bind _ (fetching_trans p id)).
    { intros s. unfold on_tree. cbn.
      split; cbn; [reflexivity|reflexivity|apply write_grows|left; reflexivity]. }
    intros _. apply (preserves_bind _ (fetching_trans p id)).
    { intros s. split; cbn; [reflexivity|reflexivity|apply grows_refl|left; reflexivity]. }
    intros now. apply (preserves_bind _ (fetching_trans p id));
      [apply preserves_lift, fetching_refl|intros _; apply IH].
Qed.

Lemma fetch_fetching (e : env) (item_url : pyval) (item_file : path) (id : Z) :
  preserves (fetching (as_posix item_file) id) (fetch e item_url item_file id).
Proof.
  unfold fetch.
  pose proof (fetching_trans (as_posix item_file) id) as T.
  pose proof (fetching_refl (as_posix item_file) id) as Rf.
  apply (preserves_bind _ T).
  { intros s. unfold requests_get. destruct item_url; try apply Rf.
    split; cbn; [reflexivity|reflexivity|apply grows_refl|left; reflexivity]. }
  intros res. apply (preserves_bind _ T); [apply preserves_lift, Rf|intros lt].
  apply (preserves_bind _ T); [apply preserves_lift, Rf|intros eb].
  apply (preserves_bind _ T).
  { intros s. split; cbn; [reflexivity|reflexivity|apply grows_refl|left; reflexivity]. }
  intros st. apply (preserves_bind _ T).
  { intros s. unfold on_tree. pose proof (open_wb_grows (tree s) item_file) as G.
    destruct (open_wb (tree s) item_file) as [r t']. cbn [snd] in *.
    split; cbn; [reflexivity|reflexivity|exact G|left; reflexivity]. }
  intros f. apply (preserves_bind _ T); [apply write_chunks_fetching|intros w].
  apply (preserves_bind _ T).
  { destruct (broken res); [apply preserves_raise|apply preserves_ret]; exact Rf. }
  intros _. apply (preserves_bind _ T); [apply preserves_lift, Rf|intros _].
  intros s. unfold on_con.
  destruct (update_download_path (as_posix item_file) id (con s)) as [r d] eqn:U.
  split; cbn; [reflexivity|reflexivity|apply grows_refl|].
  right. rewrite U. reflexivity.
Qed.

Lemma download_after_note (e : env) (item_url : pyval) (item_file : path) (id : Z)
      (s : state) :
  fetching (as_posix item_file) id
    (snd (note_download {| for_episode := id; from_url := item_url;
                           destination := item_file |} s))
    (snd (download e item_url item_file id s)).
Proof. exact (fetch_fetching e item_url item_file id _). Qed.

Lemma download_extends (e : env) (item_url : pyval) (item_file : path) (id : Z)
      (s : state) :
  exists_ (tree s) item_file = false -> linked (con s) id item_file ->
  extends s (snd (download e item_url item_file id s)).
Proof.
  intros Hex Hl. destruct (download_after_note e item_url item_file id s) as [S D T C].
  cbn [note_download snd saved downloads tree con] in S, D, T, C. split.
  - exact S.
  - exact T.
  - eexists. split; [exact D|]. repeat constructor. exact Hex.
  - destruct C as [-> | ->]; [apply store_extends_refl|].
    apply update_download_path_store. exact Hl.
Qed.

Lemma download_starts (e : env) (item_url : pyval) (item_file : path) (id : Z)
      (s : state) :
  downloads (snd (download e item_url item_file id s))
  = (downloads s ++ [{| for_episode := id; from_url := item_url;
                        destination := item_file |}])%list.
Proof.
  destruct (download_after_note e item_url item_file id s) as [_ D _ _]. exact D.
Qed.

Ltac lift_step R_refl R_trans :=
  apply (preserves_bind _ R_trans); [apply preserves_lift, R_refl|intros ?].

(** [reconcile_item] respects every relation that its statements and its
    mkdir respect. *)
Lemma reconcile_item_preserves (R : state -> state -> Prop)
      (e : env) (feed_id : Z) (feed_dir : path) (item : pyval) :
  (forall s, R s s) -> (forall s1 s2 s3, R s1 s2 -> R s2 s3 -> R s1 s3) ->
  (forall p, preserves R (on_tree (fun t => mkdir false true t p))) ->
  (forall q now guid a, preserves R (on_con (upsert_feed_item q now feed_id guid a))) ->
  (forall id, preserves R (on_con (select_download_path id))) ->
  preserves R (reconcile_item e feed_id feed_dir item).
Proof.
  intros R_refl R_trans Hmk Hup Hsel. unfold reconcile_item.
  do 7 lift_step R_refl R_trans.
  apply (preserves_bind _ R_trans).
  { match goal with |- preserves R (match ?x with _ => _ end) => destruct x end;
      try (apply preserves_ret, R_refl);
      (apply (preserves_bind _ R_trans);
       [apply Hmk|intros _; apply preserves_ret, R_refl]). }
  intros item_dir. do 8 lift_step R_refl R_trans.
  apply (preserves_bind _ R_trans); [apply Hup|intros id].
  apply (preserves_bind _ R_trans); [apply Hsel|intros stored].
  apply (preserves_bind _ R_trans); [|intros f; apply preserves_ret, R_refl].
  destruct stored;
    [apply preserves_ret|apply preserves_raise|apply preserves_ret|apply preserves_raise];
    apply R_refl.
Qed.

Lemma select_download_path_store (id : Z) :
  preserves store_extends (select_download_path id).
Proof. intros d. rewrite select_download_path_same. apply store_extends_refl. Qed.

Lemma reconcile_item_extends (e : env) (feed_id : Z) (feed_dir : path) (item : pyval) :
  preserves extends (reconcile_item e feed_id feed_dir item).
Proof.
  apply reconcile_item_preserves.
  - apply extends_refl.
  - apply extends_trans.
  - intros p. apply on_tree_extends. intros t. apply mkdir_grows.
  - intros q now guid a. apply on_con_extends, upsert_feed_item_store.
  - intros id. apply on_con_extends, select_download_path_store.
Qed.

Lemma reconcile_item_quiet (e : env) (feed_id : Z) (feed_dir : path) (item : pyval) :
  preserves quiet (reconcile_item e feed_id feed_dir item).
Proof.
  apply reconcile_item_preserves.
  - apply quiet_refl.
  - apply quiet_trans.
  - intros p. apply on_tree_quiet.
  - intros q now guid a. apply on_con_quiet.
  - intros id. apply on_con_quiet.
Qed.

Ltac inv_bind H :=
  let a := fresh "v" in
  let s1 := fresh "s" in
  let H1 := fresh "E" in
  apply bind_ok in H; destruct H as (a & s1 & H1 & H); cbv beta in H.

Ltac inv_lift H :=
  let a := fresh "v" in
  let s1 := fresh "s" in
  let H1 := fresh "E" in
  apply bind_ok in H; destruct H as (a & s1 & H1 & H); cbv beta in H;
  apply lift_ok in H1; destruct H1 as [H1 ->].

Lemma on_con_ok {A} (m : M db A) (s s' : state) (a : A) :
  on_con m s = (Ok a, s') -> m (con s) = (Ok a, con s') /\ s' = set_con s (con s').
Proof.
  unfold on_con. destruct (m (con s)) as [r d]. intros [= -> <-]. split; reflexivity.
Qed.

(** When [reconcile_item] returns, the file it returns is the one resolved
    from the stored path of the episode it returns. *)
Lemma reconcile_item_linked (e : env) (feed_id : Z) (feed_dir : path) (item : pyval)
      (s s' : state) (id : Z) (u : pyval) (f : path) :
  reconcile_item e feed_id feed_dir item s = (Ok (id, u, f), s') ->
  linked (con s') id f.
Proof.
  intros H. unfold reconcile_item in H.
  do 7 inv_lift H. inv_bind H. do 8 inv_lift H.
  inv_bind H. inv_bind H. inv_bind H.
  apply ret_ok in H. destruct H as [[= -> -> ->] ->].
  match goal with
  | Hs : on_con (select_download_path _) _ = _ |- _ =>
      apply on_con_ok in Hs; destruct Hs as [Hs Hst];
      apply select_download_path_ok in Hs; destruct Hs as (Hc & r & F & Hp)
  end.
  exists r.
  match goal with
  | Hf : (match ?stored with _ => _ end) ?st = (Ok _, ?st') |- _ =>
      destruct stored as [|n|p|y]; unfold ret, raise in Hf;
      [injection Hf as <- <- | discriminate Hf | injection Hf as <- <- | discriminate Hf]
  end.
  - split; [rewrite Hc; exact F|]. rewrite Hp. unfold resolved_from.
    eexists. reflexivity.
  - split; [rewrite Hc; exact F|]. rewrite Hp. reflexivity.
Qed.

Lemma process_item_extends (e : env) (feed_id : Z) (feed_dir : path) (item : pyval) :
  preserves extends (process_item e feed_id feed_dir item).
Proof.
  intros s. unfold process_item, Eff.bind.
  pose proof (reconcile_item_extends e feed_id feed_dir item s) as Hr.
  destruct (reconcile_item e feed_id feed_dir item s) as [[[[id u] f]|x] s1] eqn:E;
    cbn [snd fst] in *; [|exact Hr].
  destruct (exists_ (tree s1) f) eqn:X; [exact Hr|].
  eapply extends_trans; [exact Hr|].
  apply download_extends; [exact X|].
  exact (reconcile_item_linked _ _ _ _ _ _ _ _ _ E).
Qed.

Lemma process_one_feed_extends (e : env) (feed_url : string) :
  preserves extends (process_one_feed e feed_url).
Proof.
  unfold process_one_feed.
  apply (preserves_bind _ extends_trans); [apply get_feed_xml_extends|intros text].
  do 4 lift_step extends_refl extends_trans.
  apply (preserves_bind _ extends_trans);
    [apply on_con_extends, upsert_feed_store|intros feed_id].
  lift_step extends_refl extends_trans.
  apply (preserves_bind _ extends_trans);
    [apply on_tree_extends; intros t; apply mkdir_grows|intros _].
  do 2 lift_step extends_refl extends_trans.
  apply (preserves_for_each _ extends_refl extends_trans).
  intros item. apply process_item_extends.
Qed.

(** ** Download paths across feeds and runs *)

Lemma main_step_settled (e : env) (s : state) (line : string) :
  settled s ->
  settled (main_step e s line)
  /\ keeps_paths (saved s) (saved (main_step e s line))
  /\ keeps_rows (saved s) (saved (main_step e s line))
  /\ grows (tree s) (tree (main_step e s line)).
Proof.
  intros [Hc Hw]. unfold main_step.
  destruct (negb (String.eqb (Text.strip line) EmptyString)
            && negb (Text.startswith (Text.strip line) "#")).
  - pose proof (process_one_feed_extends e (Text.strip line) s) as [S T _ [_ W]].
    destruct (process_one_feed e (Text.strip line) s) as [[u|x] s'];
      cbn [snd] in *.
    + rewrite Hc in W. destruct (W Hw) as (Hw' & Kp & Kr).
      split; [split; [reflexivity|exact Hw']|]. cbn [commit saved tree].
      split; [exact Kp|]. split; [exact Kr|exact T].
    + unfold settled. cbn [rollback saved tree con]. rewrite S.
      split; [split; [reflexivity|exact Hw]|].
      split; [apply keeps_paths_refl|]. split; [apply keeps_rows_refl|exact T].
  - split; [split; assumption|].
    split; [apply keeps_paths_refl|]. split; [apply keeps_rows_refl|apply grows_refl].
Qed.

Lemma main_loop_settled (e : env) (lines : list string) :
  forall s, settled s ->
  settled (fold_left (main_step e) lines s)
  /\ keeps_paths (saved s) (saved (fold_left (main_step e) lines s))
  /\ keeps_rows (saved s) (saved (fold_left (main_step e) lines s)).
Proof.
  induction lines as [|line lines IH]; intros s Hs; cbn [fold_left].
  - split; [exact Hs|]. split; [apply keeps_paths_refl|apply keeps_rows_refl].
  - destruct (main_step_settled e s line Hs) as (Hs1 & Kp1 & Kr1 & _).
    destruct (IH _ Hs1) as (Hs2 & Kp2 & Kr2). split; [exact Hs2|].
    split; [eapply keeps_paths_trans|eapply keeps_rows_trans]; eassumption.
Qed.

Lemma created_well_formed : well_formed created.
Proof. split; [constructor|constructor]. Qed.

Lemma main_keeps_paths (e : env) (lines : list string) (file : option db) (t : fs) :
  well_formed (get_database file) ->
  well_formed (saved (main e lines file t))
  /\ keeps_paths (get_database file) (saved (main e lines file t))
  /\ keeps_rows (get_database file) (saved (main e lines file t)).
Proof.
  intros Hw. unfold main.
  assert (Hs : settled (start file t)) by (split; [reflexivity|exact Hw]).
  destruct (main_loop_settled e lines _ Hs) as ([Hc Hw'] & Kp & Kr).
  cbn [commit saved]. rewrite Hc. split; [exact Hw'|]. split; [exact Kp|exact Kr].
Qed.

Lemma runs_keep_paths (rs : list run) :
  forall file, well_formed (get_database file) ->
    well_formed (get_database (runs rs file))
    /\ keeps_paths (get_database file) (get_database (runs rs file)).
Proof.
  induction rs as [|r rs IH]; intros file Hw; cbn [runs].
  - split; [exact Hw|apply keeps_paths_refl].
  - destruct (main_keeps_paths (run_env r) (run_feeds r) file (run_tree r) Hw)
      as (Hw1 & Kp1 & _).
    destruct (IH (Some (saved (main (run_env r) (run_feeds r) file (run_tree r)))) Hw1)
      as (Hw2 & Kp2).
    split; [exact Hw2|]. eapply keeps_paths_trans; [exact Kp1|exact Kp2].
Qed.

(** C7: take the database after any sequence of runs that started without
    a database file, and the database after any further sequence of runs
    (each run with its own network, clock, feeds file and media tree).  An
    episode whose download_path is not null in the first still has a row in
    the second, with the same identifier and the same download_path: the
    path is never set back to null and never replaced by another value, so
    it goes from null to a value at most once. *)
Theorem download_path_is_set_once (before after : list run) (r : feed_item_row) :
  In r (feed_item (get_database (runs before None))) ->
  i_download_path r <> SNull ->
  exists r',
    In r' (feed_item (get_database (runs after (runs before None))))
    /\ feed_item_id r' = feed_item_id r
    /\ i_download_path r' = i_download_path r.
Proof.
  intros Hin Hnn.
  destruct (runs_keep_paths before None created_well_formed) as [Hw _].
  destruct (runs_keep_paths after (runs before None) Hw) as [_ K].
  exact (K r Hin Hnn).
Qed.

Lemma download_path_is_set_once_witness :
  exists r r',
    In r (feed_item (get_database (runs [Scenario.first_run] None)))
    /\ i_download_path r = SText "Example Show/2023-01-02 Ep 1.mp3"
    /\ In r' (feed_item (get_database
                           (runs [Scenario.offline_run; Scenario.first_run]
                                 (runs [Scenario.first_run] None))))
    /\ feed_item_id r' = feed_item_id r
    /\ i_download_path r' = SText "Example Show/2023-01-02 Ep 1.mp3".
Proof.
  set (r := {| feed_item_id := 1; i_feed_id := SInt 1; i_guid := SText "abc123";
               i_date_added := SText "2023-01-03 12:00:00"; i_title := SText "Ep 1";
               i_description := SText "About this episode";
               i_pub_date := SText "2023-01-02T10:00:00"; i_itunes_duration := SNull;
               i_enclosure_url := SText "http://example.com/ep1.mp3";
               i_enclosure_length := SInt 100;
               i_enclosure_type := SText "audio/mpeg"; i_itunes_season := SNull;
               i_download_path := SText "Example Show/2023-01-02 Ep 1.mp3" |}).
  assert (Hin : In r (feed_item (get_database (runs [Scenario.first_run] None))))
    by (vm_compute; left; reflexivity).
  assert (Hnn : i_download_path r <> SNull) by discriminate.
  destruct (download_path_is_set_once [Scenario.first_run]
              [Scenario.offline_run; Scenario.first_run] r Hin Hnn)
    as (r' & Hin' & Hid & Hp).
  exists r, r'. split; [exact Hin|]. split; [reflexivity|]. split; [exact Hin'|].
  split; [exact Hid|exact Hp].
Defined.

(** ** Files that are already there *)

(** Every download started during a pass over a feed writes to a file that
    was not there when the pass began. *)
Lemma downloads_avoid_present_files (e : env) (feed_url : string) (s : state) :
  exists new,
    downloads (snd (process_one_feed e feed_url s)) = (downloads s ++ new)%list
    /\ Forall (fun c => exists_ (tree s) (destination c) = false) new.
Proof. destruct (process_one_feed_extends e feed_url s) as [_ _ H _]. exact H. Qed.

(** C8: [s0] is the state at the start of a pass and [s] a later state of
    the pass, in which the loop comes to an item.  [reconcile_item] returns
    the episode of the item and the path [f] resolved for it (the stored
    one, or the canonical one).  If there was something at [f] when the
    pass started, the loop body ends there: no download is started and no
    request is sent for the episode. *)
Theorem skip_if_present (e : env) (feed_id : Z) (feed_dir : path) (item : pyval)
        (s0 s s1 : state) (id : Z) (u : pyval) (f : path) :
  extends s0 s ->
  reconcile_item e feed_id feed_dir item s = (Ok (id, u, f), s1) ->
  exists_ (tree s0) f = true ->
  process_item e feed_id feed_dir item s = (Ok tt, s1)
  /\ downloads s1 = downloads s
  /\ requests s1 = requests s.
Proof.
  intros H0 E X.
  pose proof (reconcile_item_extends e feed_id feed_dir item s) as H1.
  pose proof (reconcile_item_quiet e feed_id feed_dir item s) as Q.
  rewrite E in H1, Q. cbn [snd] in H1, Q.
  assert (X1 : exists_ (tree s1) f = true).
  { apply (grows_exists (tree s)); [apply H1|].
    apply (grows_exists (tree s0)); [apply H0|exact X]. }
  split; [|exact Q].
  unfold process_item, Eff.bind. rewrite E. cbn [fst snd]. rewrite X1. reflexivity.
Qed.

Lemma skip_if_present_witness :
  exists s1,
    process_item Scenario.single_site 1 Scenario.show_dir Scenario.ep1_item
                 Scenario.resumed = (Ok tt, s1)
    /\ downloads s1 = [] /\ requests s1 = [].
Proof.
  assert (E : exists s1,
             reconcile_item Scenario.single_site 1 Scenario.show_dir Scenario.ep1_item
                            Scenario.resumed
             = (Ok (1, PStr "http://example.com/ep1.mp3", Scenario.ep1_path), s1)).
  { eexists. vm_compute. reflexivity. }
  destruct E as [s1 E]. exists s1.
  exact (skip_if_present Scenario.single_site 1 Scenario.show_dir Scenario.ep1_item
           Scenario.resumed Scenario.resumed s1 1 (PStr "http://example.com/ep1.mp3")
           Scenario.ep1_path (extends_refl _) E eq_refl).
Defined.

(** C9: the loop comes to an item; [reconcile_item] returns its episode and
    the path [f] resolved for it; the stored download_path of the episode
    is null and there is something at [f].  Then the loop body ends with
    the state as [reconcile_item] left it: the store is not written to and
    the download_path of the episode is still null.  More generally, a turn
    of the loop that starts no download leaves the state as
    [reconcile_item] left it, so the completion record is only written in
    the branch that downloads. *)
Theorem skipped_download_leaves_path_null (e : env) (feed_id : Z) (feed_dir : path)
        (item : pyval) (s s1 : state) (id : Z) (u : pyval) (f : path) :
  reconcile_item e feed_id feed_dir item s = (Ok (id, u, f), s1) ->
  fst (select_download_path id (con s1)) = Ok SNull ->
  exists_ (tree s1) f = true ->
  process_item e feed_id feed_dir item s = (Ok tt, s1)
  /\ con (snd (process_item e feed_id feed_dir item s)) = con s1
  /\ fst (select_download_path id (con (snd (process_item e feed_id feed_dir item s))))
     = Ok SNull
  /\ (forall s',
        downloads (snd (process_item e feed_id feed_dir item s')) = downloads s' ->
        snd (process_item e feed_id feed_dir item s')
        = snd (reconcile_item e feed_id feed_dir item s')).
Proof.
  intros E N X.
  assert (P : process_item e feed_id feed_dir item s = (Ok tt, s1)).
  { unfold process_item, Eff.bind. rewrite E. cbn [fst snd]. rewrite X. reflexivity. }
  split; [exact P|]. rewrite P. cbn [snd]. split; [reflexivity|]. split; [exact N|].
  intros s' D. unfold process_item, Eff.bind in *.
  pose proof (reconcile_item_quiet e feed_id feed_dir item s') as [Q _].
  destruct (reconcile_item e feed_id feed_dir item s') as [[[[id' u'] f']|x] s1'];
    cbn [fst snd] in *; [|reflexivity].
  destruct (exists_ (tree s1') f'); [reflexivity|]. exfalso.
  rewrite download_starts, Q in D.
  apply (f_equal (@List.length _)) in D. rewrite length_app in D. cbn in D. lia.
Qed.

Lemma skipped_download_leaves_path_null_witness :
  exists s1,
    process_item Scenario.single_site 1 Scenario.show_dir Scenario.ep1_item
                 Scenario.resumed = (Ok tt, s1)
    /\ map i_download_path (feed_item (con s1)) = [SNull]
    /\ file_at (tree s1) Scenario.ep1_path = Some "earlier".
Proof.
  assert (E : exists s1,
             reconcile_item Scenario.single_site 1 Scenario.show_dir Scenario.ep1_item
                            Scenario.resumed
             = (Ok (1, PStr "http://example.com/ep1.mp3", Scenario.ep1_path), s1)
             /\ fst (select_download_path 1 (con s1)) = Ok SNull
             /\ exists_ (tree s1) Scenario.ep1_path = true
             /\ map i_download_path (feed_item (con s1)) = [SNull]
             /\ file_at (tree s1) Scenario.ep1_path = Some "earlier").
  { eexists. split; [vm_compute; reflexivity|]. vm_compute. repeat split; reflexivity. }
  destruct E as (s1 & E & N & X & Hp & Hf). exists s1.
  split; [|split; assumption].
  exact (proj1 (skipped_download_leaves_path_null Scenario.single_site 1
                  Scenario.show_dir Scenario.ep1_item Scenario.resumed s1 1
                  (PStr "http://example.com/ep1.mp3") Scenario.ep1_path E N X)).
Defined.

(** ** Dates that do not parse *)

Lemma raises_bind {S A B} (m : M S A) (k : A -> M S B) (s : S) :
  (forall a s1, m s = (Ok a, s1) -> raises (k a) s1) -> raises (Eff.bind m k) s.
Proof.
  intros H. unfold raises, Eff.bind. destruct (m s) as [[a|x] s1] eqn:E.
  - exact (H a s1 eq_refl).
  - exists x. reflexivity.
Qed.

Lemma raises_lift_bind {S A B} (r : result A) (k : A -> M S B) (s : S) :
  (forall a, r = Ok a -> raises (k a) s) -> raises (Eff.bind (lift r) k) s.
Proof.
  intros H. apply raises_bind. intros a s1 E. apply lift_ok in E.
  destruct E as [E ->]. exact (H a E).
Qed.

Lemma raises_for_each {S A} (body : A -> M S unit) (l : list A) (x : A) :
  In x l -> (forall s, raises (body x) s) -> forall s, raises (for_each body l) s.
Proof.
  intros Hin Hx. induction l as [|y l IH]; [destruct Hin|].
  intros s. cbn [for_each]. apply raises_bind. intros [] s1 E.
  destruct Hin as [->|Hin].
  - destruct (Hx s) as [z Hz]. rewrite E in Hz. discriminate.
  - apply IH. exact Hin.
Qed.

(** An item whose date does not parse stops the loop body before anything
    is written. *)
Lemma process_item_undated (e : env) (feed_id : Z) (feed_dir : path) (item : pyval)
      (pub : string) :
  getitem item "pubDate" = Ok (PStr pub) ->
  Datetime.strptime (tzname e) pub = None ->
  forall s, raises (process_item e feed_id feed_dir item) s.
Proof.
  intros Hp Hd s. unfold process_item. apply raises_bind. intros a s1 E. exfalso.
  unfold reconcile_item in E. do 4 inv_lift E. inv_lift E.
  inv_bind E. apply lift_ok in E5. destruct E5 as [E5 _].
  match goal with
  | H1 : getitem item "pubDate" = Ok ?v, H2 : strptime e ?v = Ok _ |- _ =>
      rewrite Hp in H1; injection H1 as <-; unfold strptime in H2; rewrite Hd in H2;
      discriminate H2
  end.
Qed.

Lemma items_of_ok (doc : pyval) (items : list pyval) :
  items_of doc = Ok items ->
  exists rss channel v,
    getitem doc "rss" = Ok rss /\ getitem rss "channel" = Ok channel
    /\ getitem channel "item" = Ok v /\ iter v = Ok items.
Proof.
  unfold items_of. destruct (getitem doc "rss") as [rss|] eqn:Hr; [|discriminate].
  destruct (getitem rss "channel") as [channel|] eqn:Hc; [|discriminate].
  destruct (getitem channel "item") as [v|] eqn:Hv; [|discriminate].
  intros H. exists rss, channel, v.
  split; [reflexivity|]. split; [exact Hc|]. split; [exact Hv|exact H].
Qed.

(** [process_one_feed] is [open_feed] followed by the loop. *)
Lemma process_one_feed_loop (e : env) (feed_url : string) (s : state) :
  process_one_feed e feed_url s
  = match open_feed e feed_url s with
    | (Ok (feed_id, feed_dir, items), sc) =>
        for_each (process_item e feed_id feed_dir) items sc
    | (Raise x, sc) => (Raise x, sc)
    end.
Proof.
  unfold process_one_feed, open_feed, Eff.bind, lift, ret.
  destruct (get_feed_xml e feed_url s) as [[text|x] s1]; [|reflexivity].
  destruct (xmltodict_parse e text) as [doc|x]; [|reflexivity].
  destruct (getitem doc "rss") as [rss|x]; [|reflexivity].
  destruct (getitem rss "channel") as [channel|x]; [|reflexivity].
  destruct (getitem channel "title") as [title|x]; [|reflexivity].
  destruct (on_con _ s1) as [[fid|x] s2]; [|reflexivity].
  destruct (safe_filename title) as [name|x]; [|reflexivity].
  destruct (on_tree _ s2) as [[u|x] s3]; [|reflexivity].
  destruct (getitem channel "item") as [v|x]; [|reflexivity].
  destruct (iter v) as [items|x]; reflexivity.
Qed.

(** The loop stops at the first item whose body raises, in the state that
    body leaves. *)
Lemma for_each_stops {S A} (body : A -> M S unit) (before after : list A) (x : A)
      (s sk sx : S) (z : exn) :
  for_each body before s = (Ok tt, sk) -> body x sk = (Raise z, sx) ->
  for_each body (before ++ x :: after) s = (Raise z, sx).
Proof.
  revert s. induction before as [|y l IH]; intros s Hb Hx.
  - cbn [for_each] in Hb. apply ret_ok in Hb. destruct Hb as [_ ->].
    cbn [app for_each]. unfold Eff.bind. rewrite Hx. reflexivity.
  - apply for_each_ok in Hb. destruct Hb as (s1 & H1 & H2).
    cbn [app for_each]. unfold Eff.bind. rewrite H1. exact (IH s1 H2 Hx).
Qed.

(** An item whose date does not parse stops the loop body before the state
    is touched; the exception is ValueError when the title and the URL of
    the enclosure, which the body reads first, can be read. *)
Lemma process_item_undated_state (e : env) (feed_id : Z) (feed_dir : path)
      (item : pyval) (pub : string) (s : state) :
  getitem item "pubDate" = Ok (PStr pub) ->
  Datetime.strptime (tzname e) pub = None ->
  exists x,
    process_item e feed_id feed_dir item s = (Raise x, s)
    /\ (forall title name enclosure url,
          getitem item "title" = Ok title -> safe_filename title = Ok name ->
          getitem item "enclosure" = Ok enclosure -> getitem enclosure "@url" = Ok url ->
          x = ValueError).
Proof.
  intros Hp Hd. unfold process_item, reconcile_item, Eff.bind, lift.
  destruct (getitem item "title") as [title|x] eqn:E1;
    [|exists x; split; [reflexivity|intros ? ? ? ? [=]]].
  destruct (safe_filename title) as [name|x] eqn:E2;
    [|exists x; split; [reflexivity|intros ? ? ? ? [= <-] E; rewrite E2 in E; discriminate E]].
  destruct (getitem item "enclosure") as [enc|x] eqn:E3;
    [|exists x; split; [reflexivity|intros ? ? ? ? _ _ [=]]].
  destruct (getitem enc "@url") as [url|x] eqn:E4;
    [|exists x; split; [reflexivity
                       |intros ? ? ? ? _ _ [= <-] E; rewrite E4 in E; discriminate E]].
  rewrite Hp. unfold strptime. rewrite Hd.
  exists ValueError. split; reflexivity.
Qed.

(** C3, as the code has it: when the feed read for a line of the batch has
    an item whose pubDate is text that [strptime] rejects, the pass over the
    feed raises, the batch loop rolls back (the committed store is what it
    was before the feed, and nothing is pending) and goes on with the lines
    that follow.  If the pass comes to the loop and the items before that
    one go through, the pass raises at that item and leaves the state as
    the items before it left it: no item after it is reconciled or
    downloaded.  The exception is then ValueError, provided the title and
    the enclosure URL of the item, which are read before the date, can be
    read. *)
Theorem unparseable_date_aborts_feed (e : env) (line : string) (rest : list string)
        (s s' : state) (text : string) (doc : pyval) (items : list pyval)
        (item : pyval) (pub : string) :
  is_reference line = true ->
  get_feed_xml e (Text.strip line) s = (Ok text, s') ->
  xmltodict_parse e text = Ok doc ->
  items_of doc = Ok items ->
  In item items ->
  getitem item "pubDate" = Ok (PStr pub) ->
  Datetime.strptime (tzname e) pub = None ->
  raises (process_one_feed e (Text.strip line)) s
  /\ saved (main_step e s line) = saved s
  /\ con (main_step e s line) = saved s
  /\ main_step e s line = rollback (snd (process_one_feed e (Text.strip line) s))
  /\ fold_left (main_step e) (line :: rest) s
     = fold_left (main_step e) rest
                 (rollback (snd (process_one_feed e (Text.strip line) s)))
  /\ (forall feed_id feed_dir before after sc sk,
        open_feed e (Text.strip line) s = (Ok (feed_id, feed_dir, items), sc) ->
        items = (before ++ item :: after)%list ->
        for_each (process_item e feed_id feed_dir) before sc = (Ok tt, sk) ->
        exists x,
          process_one_feed e (Text.strip line) s = (Raise x, sk)
          /\ main_step e s line = rollback sk
          /\ (forall title name enclosure url,
                getitem item "title" = Ok title -> safe_filename title = Ok name ->
                getitem item "enclosure" = Ok enclosure ->
                getitem enclosure "@url" = Ok url ->
                x = ValueError)).
Proof.
  intros Href Hx Hd Hi Hin Hp Hbad.
  destruct (items_of_ok doc items Hi) as (rss & channel & v & Hr & Hc & Hv & Hit).
  assert (R : raises (process_one_feed e (Text.strip line)) s).
  { unfold process_one_feed. apply raises_bind. intros text' s1 E.
    rewrite Hx in E. injection E as <- <-.
    apply raises_lift_bind. intros doc' E. rewrite Hd in E. injection E as <-.
    apply raises_lift_bind. intros rss' E. rewrite Hr in E. injection E as <-.
    apply raises_lift_bind. intros ch' E. rewrite Hc in E. injection E as <-.
    apply raises_lift_bind. intros title _.
    apply raises_bind. intros feed_id s2 _.
    apply raises_lift_bind. intros name _.
    apply raises_bind. intros u s3 _.
    apply raises_lift_bind. intros v' E. rewrite Hv in E. injection E as <-.
    apply raises_lift_bind. intros items' E. rewrite Hit in E. injection E as <-.
    apply (raises_for_each _ _ item Hin).
    apply (process_item_undated e feed_id _ item pub Hp Hbad). }
  assert (Hstep : main_step e s line
                  = rollback (snd (process_one_feed e (Text.strip line) s))).
  { unfold main_step. unfold is_reference in Href. rewrite Href.
    destruct R as [x R].
    destruct (process_one_feed e (Text.strip line) s) as [[u|y] s2];
      [discriminate R|reflexivity]. }
  split; [exact R|].
  pose proof (process_one_feed_extends e (Text.strip line) s) as [S _ _ _].
  split; [rewrite Hstep; exact S|]. split; [rewrite Hstep; exact S|].
  split; [exact Hstep|]. split; [cbn [fold_left]; rewrite Hstep; reflexivity|].
  intros feed_id feed_dir before after sc sk Hopen Hsplit Hbefore.
  destruct (process_item_undated_state e feed_id feed_dir item pub sk Hp Hbad)
    as (x & Hitem & Hval).
  exists x.
  assert (Hpass : process_one_feed e (Text.strip line) s = (Raise x, sk)).
  { rewrite process_one_feed_loop, Hopen, Hsplit.
    exact (for_each_stops _ before after item sc sk sk x Hbefore Hitem). }
  split; [exact Hpass|]. split; [rewrite Hstep, Hpass; reflexivity|exact Hval].
Qed.

Lemma unparseable_date_aborts_feed_witness :
  exists sk,
    process_one_feed Scenario.undated_site Scenario.feed_url (start None ∅)
    = (Raise ValueError, sk)
    /\ map destination (downloads sk) = [Scenario.ep1_path]
    /\ main_step Scenario.undated_site (start None ∅) Scenario.feed_url = rollback sk
    /\ saved (main_step Scenario.undated_site (start None ∅) Scenario.feed_url) = created
    /\ con (main_step Scenario.undated_site (start None ∅) Scenario.feed_url) = created.
Proof.
  assert (Hx : exists s',
             get_feed_xml Scenario.undated_site (Text.strip Scenario.feed_url)
                          (start None ∅)
             = (Ok (Scenario.render Scenario.undated_feed), s')).
  { eexists. vm_compute. reflexivity. }
  destruct Hx as [s' Hx].
  assert (Hopen : exists sc,
             open_feed Scenario.undated_site (Text.strip Scenario.feed_url)
                       (start None ∅)
             = (Ok (1, Scenario.show_dir,
                    map to_value [Scenario.ep1; Scenario.ep_undated; Scenario.ep2]), sc)
             /\ exists sk,
                  for_each (process_item Scenario.undated_site 1 Scenario.show_dir)
                           [to_value Scenario.ep1] sc = (Ok tt, sk)
                  /\ map destination (downloads sk) = [Scenario.ep1_path]).
  { eexists. split; [vm_compute; reflexivity|].
    eexists. split; vm_compute; reflexivity. }
  destruct Hopen as (sc & Hopen & sk & Hbefore & Hdown).
  destruct (unparseable_date_aborts_feed Scenario.undated_site Scenario.feed_url []
              (start None ∅) s' (Scenario.render Scenario.undated_feed)
              (xmltodict_of Scenario.undated_feed)
              (map to_value [Scenario.ep1; Scenario.ep_undated; Scenario.ep2])
              (to_value Scenario.ep_undated) "2023-01-05T10:00:00Z"
              eq_refl Hx eq_refl eq_refl
              (or_intror (or_introl eq_refl)) eq_refl eq_refl)
    as (_ & Hsaved & Hcon & _ & _ & Hat).
  destruct (Hat 1 Scenario.show_dir [to_value Scenario.ep1] [to_value Scenario.ep2]
                sc sk Hopen eq_refl Hbefore) as (x & Hpass & Hstep & Hval).
  assert (x = ValueError) as ->.
  { eapply Hval; vm_compute; reflexivity. }
  exists sk. split; [exact Hpass|]. split; [exact Hdown|]. split; [exact Hstep|].
  split; [exact Hsaved|exact Hcon].
Defined.

(** C3 as it is claimed fails: in a feed with three items of which the
    second has a date in another format, the first item is downloaded, then
    the pass raises with ValueError; the third item is neither reconciled
    (it has no Episode row) nor downloaded (nothing is at its path), and the
    feed as a whole is aborted (it has no Feed row). *)
Lemma undated_item_aborts_whole_feed :
  let st := main Scenario.undated_site [Scenario.feed_url] None ∅ in
  items_of (xmltodict_of Scenario.undated_feed)
    = Ok (map to_value [Scenario.ep1; Scenario.ep_undated; Scenario.ep2])
  /\ strptime Scenario.undated_site (PStr "2023-01-05T10:00:00Z") = Raise ValueError
  /\ fst (process_one_feed Scenario.undated_site Scenario.feed_url (start None ∅))
     = Raise ValueError
  /\ ~ (exists r, In r (feed_item (saved st)) /\ i_guid r = SText "def456")
  /\ exists_ (tree st) Scenario.ep2_path = false
  /\ map destination (downloads st) = [Scenario.ep1_path]
  /\ feed (saved st) = [].
Proof.
  cbv zeta. split; [reflexivity|]. split; [reflexivity|].
  split; [vm_compute; reflexivity|].
  assert (E : feed_item (saved (main Scenario.undated_site [Scenario.feed_url] None ∅))
              = []) by (vm_compute; reflexivity).
  split; [rewrite E; intros (r & [] & _)|].
  vm_compute. repeat split; reflexivity.
Qed.

(** ** One feed fails, the others go through *)

Lemma upsert_feed_ok (now url : string) (title doc : pyval) (d d' : db) (id : Z) :
  upsert_feed now url title doc d = (Ok id, d') ->
  exists row, In row (feed d') /\ feed_id row = id /\ f_feed_url row = SText url.
Proof.
  intros H. unfold upsert_feed, Eff.bind, prepare, lift, ret in H.
  destruct (prepared d "feed" ["feed_id"; "feed_url"]); [|discriminate H].
  destruct (find (fun r => sql_eq (f_feed_url r) (SText url)) (feed d)) as [r|] eqn:F.
  - destruct (prepared d "feed" ["title"; "feed_url"]); [|discriminate H].
    destruct (Db.bind title) as [t|]; [|discriminate H].
    match type of H with
    | context [prepared ?a "raw_feed" ?c] => destruct (prepared a "raw_feed" c)
    end; [|discriminate H].
    injection H as <- <-. destruct (find_some _ _ F) as [Hin Hu].
    pose proof (sql_eq_true _ _ Hu) as Hurl.
    exists (with_title r t). cbn [set_raw_feeds set_feeds feed].
    split; [|split; [reflexivity|exact Hurl]].
    apply in_map_iff. exists r. rewrite Hu. split; [reflexivity|exact Hin].
  - destruct (prepared d "feed" ["date_added"; "feed_url"; "title"; "feed_id"]);
      [|discriminate H].
    destruct (Db.bind title) as [t|]; [|discriminate H].
    match type of H with
    | context [prepared ?a "raw_feed" ?c] => destruct (prepared a "raw_feed" c)
    end; [|discriminate H].
    injection H as <- <-. eexists. cbn [set_raw_feeds set_feeds feed].
    split; [apply in_or_app; right; left; reflexivity|]. split; reflexivity.
Qed.

Lemma upsert_feed_item_ok (q : engine) (now : string) (feed_id : Z) (guid : pyval) (a : item_args)
      (d d' : db) (id : Z) :
  upsert_feed_item q now feed_id guid a d = (Ok id, d') ->
  exists g r, Db.bind guid = Ok g /\ In r (feed_item d')
              /\ i_feed_id r = SInt feed_id /\ i_guid r = g.
Proof.
  intros H.
  destruct (upsert_feed_item_cases q now feed_id guid a d)
    as [[x E]|[(g & m & Hg & _ & _ & E)|(g & m & r & Hg & _ & Hin & Hm & _ & E)]];
    rewrite E in H; [discriminate| |]; injection H as <- <-.
  - exists g. eexists. split; [exact Hg|]. cbn [set_feed_items feed_item].
    split; [apply in_or_app; right; left; reflexivity|]. split; reflexivity.
  - exists g, (with_metadata r g m). split; [exact Hg|]. cbn [set_feed_items feed_item].
    split.
    + unfold updated. apply in_map_iff. exists r. rewrite Z.eqb_refl.
      split; [reflexivity|exact Hin].
    + unfold is_episode in Hm. apply andb_true_iff in Hm. destruct Hm as [Hf _].
      apply sql_eq_true in Hf. split; [exact Hf|reflexivity].
Qed.

Lemma has_episode_kept (item : pyval) (feed_id : Z) (d d' : db) :
  keeps_rows d d' -> has_episode item feed_id d -> has_episode item feed_id d'.
Proof.
  intros [_ K] (guid & g & r & Hg & Hb & Hin & Hf & Hi).
  destruct (K r Hin) as (r' & Hin' & _ & Hf' & Hi').
  exists guid, g, r'. repeat split; try assumption; congruence.
Qed.

Lemma extends_well_formed (s s' : state) :
  extends s s' -> well_formed (con s) ->
  well_formed (con s') /\ keeps_rows (con s) (con s').
Proof.
  intros [_ _ _ [_ W]] H. destruct (W H) as (H' & _ & K). split; assumption.
Qed.

Lemma reconcile_item_ok (e : env) (feed_id : Z) (feed_dir : path) (item : pyval)
      (s s' : state) (id : Z) (u : pyval) (f : path) :
  reconcile_item e feed_id feed_dir item s = (Ok (id, u, f), s') ->
  has_episode item feed_id (con s').
Proof.
  intros H. unfold reconcile_item in H.
  do 7 inv_lift H. inv_bind H. do 8 inv_lift H.
  inv_bind H. inv_bind H. inv_bind H.
  apply ret_ok in H. destruct H as [_ ->].
  match goal with
  | Hu : on_con (upsert_feed_item _ _ _ ?guid _) _ = (Ok _, ?sa),
    Hs : on_con (select_download_path _) ?sa = (Ok _, ?sb),
    Hf : (match _ with _ => _ end) ?sb = (Ok _, ?sc) |- _ =>
      apply on_con_ok in Hu; destruct Hu as [Hu _];
      apply upsert_feed_item_ok in Hu; destruct Hu as (g & r & Hg & Hin & Hfi & Hgi);
      apply on_con_ok in Hs; destruct Hs as [Hs _];
      apply select_download_path_ok in Hs; destruct Hs as [Hc _];
      assert (sc = sb) as ->
        by (match type of Hf with
            | (match ?st with _ => _ end) _ = _ =>
                destruct st; unfold ret, raise in Hf;
                [injection Hf as _ <-; reflexivity|discriminate Hf
                |injection Hf as _ <-; reflexivity|discriminate Hf]
            end);
      exists guid, g, r; rewrite Hc
  end.
  repeat split; try assumption.
  unfold guid_of.
  match goal with
  | H1 : getitem item "guid" = Ok ?ge, H2 : getitem ?ge "#text" = Ok _ |- _ =>
      rewrite H1; exact H2
  end.
Qed.

Lemma process_item_ok (e : env) (feed_id : Z) (feed_dir : path) (item : pyval)
      (s s' : state) :
  well_formed (con s) ->
  process_item e feed_id feed_dir item s = (Ok tt, s') ->
  has_episode item feed_id (con s').
Proof.
  intros W H. unfold process_item in H. inv_bind H. destruct v as [[id u] f].
  cbn [fst snd] in H.
  pose proof (reconcile_item_ok _ _ _ _ _ _ _ _ _ E) as Hep.
  pose proof (reconcile_item_linked _ _ _ _ _ _ _ _ _ E) as Hl.
  pose proof (reconcile_item_extends e feed_id feed_dir item s) as X.
  rewrite E in X. cbn [snd] in X.
  destruct (extends_well_formed _ _ X W) as [W1 _].
  destruct (exists_ (tree s0) f) eqn:Ex.
  - injection H as <-. exact Hep.
  - pose proof (download_extends e u f id s0 Ex Hl) as X2. rewrite H in X2.
    cbn [snd] in X2. destruct (extends_well_formed _ _ X2 W1) as [_ K].
    exact (has_episode_kept _ _ _ _ K Hep).
Qed.

Lemma for_each_rows (e : env) (feed_id : Z) (feed_dir : path) (items : list pyval) :
  forall s s', well_formed (con s) ->
    for_each (process_item e feed_id feed_dir) items s = (Ok tt, s') ->
    forall item, In item items -> has_episode item feed_id (con s').
Proof.
  induction items as [|x l IH]; intros s s' W H item Hin; [destruct Hin|].
  apply for_each_ok in H. destruct H as (s1 & H1 & H2).
  pose proof (process_item_extends e feed_id feed_dir x s) as X1.
  rewrite H1 in X1. cbn [snd] in X1.
  destruct (extends_well_formed _ _ X1 W) as [W1 _].
  destruct Hin as [<-|Hin].
  - pose proof (preserves_for_each _ extends_refl extends_trans
                  (process_item e feed_id feed_dir) l
                  (process_item_extends e feed_id feed_dir) s1) as X2.
    rewrite H2 in X2. cbn [snd] in X2.
    destruct (extends_well_formed _ _ X2 W1) as [_ K].
    exact (has_episode_kept _ _ _ _ K (process_item_ok _ _ _ _ _ _ W H1)).
  - exact (IH s1 s' W1 H2 item Hin).
Qed.

Ltac inv_bind_as H a s1 H1 :=
  apply bind_ok in H; destruct H as (a & s1 & H1 & H); cbv beta in H.

Ltac inv_lift_as H a H1 :=
  let s1 := fresh "s" in
  apply bind_ok in H; destruct H as (a & s1 & H1 & H); cbv beta in H;
  apply lift_ok in H1; destruct H1 as [H1 ->].

(** A pass that returns has put the feed into the store. *)
Lemma process_one_feed_ok (e : env) (feed_url : string) (s s' : state) :
  well_formed (con s) ->
  process_one_feed e feed_url s = (Ok tt, s') ->
  ingested e feed_url s (con s').
Proof.
  intros W H. unfold process_one_feed in H.
  inv_bind_as H text sa Hx.
  inv_lift_as H doc Hd. inv_lift_as H rss Hr. inv_lift_as H channel Hc.
  inv_lift_as H title Ht.
  inv_bind_as H fid sb Hup.
  inv_lift_as H name Hn.
  inv_bind_as H u s_c Hmk.
  inv_lift_as H v Hv. inv_lift_as H items Hit.
  pose proof (get_feed_xml_extends e feed_url s) as X1. rewrite Hx in X1. cbn [snd] in X1.
  destruct (extends_well_formed _ _ X1 W) as [W1 _].
  pose proof (on_con_extends _ (upsert_feed_store (current_timestamp e) feed_url title doc)
                sa) as X2.
  rewrite Hup in X2. cbn [snd] in X2.
  destruct (extends_well_formed _ _ X2 W1) as [W2 _].
  pose proof (on_tree_extends (fun t => mkdir true true t (Path [name]))
                (fun t => mkdir_grows true true t (Path [name])) sb) as X3.
  rewrite Hmk in X3. cbn [snd] in X3.
  destruct (extends_well_formed _ _ X3 W2) as [W3 _].
  pose proof (preserves_for_each _ extends_refl extends_trans
                (process_item e fid (Path [name])) items
                (process_item_extends e fid (Path [name])) s_c) as X4.
  rewrite H in X4. cbn [snd] in X4.
  destruct (extends_well_formed _ _ (extends_trans _ _ _ X3 X4) W2) as [_ [Kf _]].
  apply on_con_ok in Hup. destruct Hup as [Hup _].
  apply upsert_feed_ok in Hup. destruct Hup as (row & Hin & Hid & Hurl).
  destruct (Kf row Hin) as (row' & Hin' & Hid' & Hurl').
  exists text, sa, doc, items, row'.
  split; [exact Hx|]. split; [exact Hd|].
  split; [unfold items_of; rewrite Hr, Hc, Hv; exact Hit|].
  split; [exact Hin'|]. split; [congruence|].
  rewrite Hid', Hid. exact (for_each_rows e fid (Path [name]) items s_c s' W3 H).
Qed.

Lemma ingested_kept (e : env) (feed_url : string) (s : state) (d d' : db) :
  keeps_rows d d' -> ingested e feed_url s d -> ingested e feed_url s d'.
Proof.
  intros K (text & s' & doc & items & row & Hx & Hd & Hi & Hin & Hu & Hep).
  destruct (proj1 K row Hin) as (row' & Hin' & Hid' & Hu').
  exists text, s', doc, items, row'.
  repeat split; try assumption; [congruence|].
  intros item Hitem. rewrite Hid'. exact (has_episode_kept _ _ _ _ K (Hep item Hitem)).
Qed.

(** An unreachable feed: the pass raises on the request, and only the list
    of requests changes. *)
Lemma unreachable_feed (e : env) (feed_url : string) (s : state) :
  unreachable e feed_url ->
  exists x, process_one_feed e feed_url s
            = (Raise x,
               {| con := con s; saved := saved s; tree := tree s; ticks := ticks s;
                  requests := (requests s ++ [feed_url])%list;
                  downloads := downloads s |}).
Proof.
  intros [Hf Hn]. destruct (Hn (List.length (requests s))) as [x Hx].
  exists x. unfold process_one_feed, get_feed_xml. rewrite Hf.
  unfold Eff.bind, requests_get. rewrite Hx. reflexivity.
Qed.

Lemma main_step_ok (e : env) (s s' : state) (line : string) :
  is_reference line = true ->
  process_one_feed e (Text.strip line) s = (Ok tt, s') ->
  main_step e s line = commit s'.
Proof.
  intros Href H. unfold main_step. unfold is_reference in Href. rewrite Href, H.
  reflexivity.
Qed.

(** C4: a batch of three feed references, the second of them unreachable,
    run on a well-formed store (an absent database file is one), where the
    passes over the first and the third feed return.  The pass over the
    second feed raises; after it the store is exactly the store the first
    feed left committed, with nothing pending, and the media tree and the
    downloads are untouched.  The store committed at the end of the batch is
    the one the pass over the third feed left, and the first and the third
    feed are both in it: each has its Feed row, and each of its items has
    its Episode row. *)
Theorem feed_isolation (e : env) (l1 l2 l3 : string) (file : option db) (t : fs)
        (s1 s3 : state) :
  is_reference l1 = true -> is_reference l2 = true -> is_reference l3 = true ->
  well_formed (get_database file) ->
  process_one_feed e (Text.strip l1) (start file t) = (Ok tt, s1) ->
  unreachable e (Text.strip l2) ->
  process_one_feed e (Text.strip l3) (main_step e (commit s1) l2) = (Ok tt, s3) ->
  raises (process_one_feed e (Text.strip l2)) (commit s1)
  /\ con (main_step e (commit s1) l2) = con s1
  /\ saved (main_step e (commit s1) l2) = con s1
  /\ tree (main_step e (commit s1) l2) = tree s1
  /\ downloads (main_step e (commit s1) l2) = downloads s1
  /\ saved (main e [l1; l2; l3] file t) = con s3
  /\ ingested e (Text.strip l1) (start file t) (saved (main e [l1; l2; l3] file t))
  /\ ingested e (Text.strip l3) (main_step e (commit s1) l2)
              (saved (main e [l1; l2; l3] file t)).
Proof.
  intros R1 R2 R3 W H1 Hun H3.
  destruct (unreachable_feed e (Text.strip l2) (commit s1) Hun) as [x Hx].
  assert (E2 : main_step e (commit s1) l2
               = rollback {| con := con s1; saved := con s1; tree := tree s1;
                             ticks := ticks s1;
                             requests := (requests s1 ++ [Text.strip l2])%list;
                             downloads := downloads s1 |}).
  { unfold main_step. unfold is_reference in R2. rewrite R2, Hx. reflexivity. }
  split; [exists x; rewrite Hx; reflexivity|].
  rewrite E2 in *. cbn [rollback con saved tree downloads].
  split; [reflexivity|]. split; [reflexivity|]. split; [reflexivity|].
  split; [reflexivity|].
  assert (Em : main e [l1; l2; l3] file t = commit (commit s3)).
  { unfold main. cbn [fold_left]. rewrite (main_step_ok e _ s1 l1 R1 H1).
    rewrite E2. rewrite (main_step_ok e _ s3 l3 R3 H3). reflexivity. }
  rewrite Em. cbn [commit saved con].
  split; [reflexivity|].
  assert (W0 : well_formed (con (start file t))) by exact W.
  pose proof (process_one_feed_ok e (Text.strip l1) _ s1 W0 H1) as I1.
  pose proof (process_one_feed_extends e (Text.strip l1) (start file t)) as X1.
  rewrite H1 in X1. cbn [snd] in X1.
  destruct (extends_well_formed _ _ X1 W0) as [W1 _].
  set (s2 := rollback {| con := con s1; saved := con s1; tree := tree s1;
                         ticks := ticks s1;
                         requests := (requests s1 ++ [Text.strip l2])%list;
                         downloads := downloads s1 |}) in *.
  assert (W2 : well_formed (con s2)) by exact W1.
  pose proof (process_one_feed_ok e (Text.strip l3) s2 s3 W2 H3) as I3.
  pose proof (process_one_feed_extends e (Text.strip l3) s2) as X3.
  rewrite H3 in X3. cbn [snd] in X3.
  destruct (extends_well_formed _ _ X3 W2) as [_ K].
  split; [|exact I3].
  exact (ingested_kept e (Text.strip l1) (start file t) (con s1) (con s3) K I1).
Qed.

Lemma unreachable_gone : unreachable Scenario.two_shows_site Scenario.gone_url.
Proof. split; [reflexivity|]. intros n. eexists. reflexivity. Qed.

Lemma feed_isolation_witness :
  let final := main Scenario.two_shows_site
                    [Scenario.feed_url; Scenario.gone_url; Scenario.other_url] None ∅ in
  let s1 := snd (process_one_feed Scenario.two_shows_site Scenario.feed_url
                                  (start None ∅)) in
  saved (main_step Scenario.two_shows_site (commit s1) Scenario.gone_url) = con s1
  /\ ingested Scenario.two_shows_site Scenario.feed_url (start None ∅) (saved final)
  /\ ingested Scenario.two_shows_site Scenario.other_url
              (main_step Scenario.two_shows_site (commit s1) Scenario.gone_url)
              (saved final).
Proof.
  cbv zeta.
  set (s1 := snd (process_one_feed Scenario.two_shows_site Scenario.feed_url
                                   (start None ∅))).
  set (s3 := snd (process_one_feed Scenario.two_shows_site Scenario.other_url
                    (main_step Scenario.two_shows_site (commit s1) Scenario.gone_url))).
  assert (H1 : process_one_feed Scenario.two_shows_site (Text.strip Scenario.feed_url)
                                (start None ∅) = (Ok tt, s1))
    by (vm_compute; reflexivity).
  assert (H3 : process_one_feed Scenario.two_shows_site (Text.strip Scenario.other_url)
                 (main_step Scenario.two_shows_site (commit s1) Scenario.gone_url)
               = (Ok tt, s3))
    by (vm_compute; reflexivity).
  destruct (feed_isolation Scenario.two_shows_site Scenario.feed_url Scenario.gone_url
              Scenario.other_url None ∅ s1 s3 eq_refl eq_refl eq_refl
              created_well_formed H1 unreachable_gone H3)
    as (_ & _ & Hs & _ & _ & _ & I1 & I3).
  split; [exact Hs|]. split; [exact I1|exact I3].
Defined.

(** * Further properties of the code *)

(** ** Relations on the store carried through a pass *)

Section StoreRelation.
Variable Rd : db -> db -> Prop.
Hypothesis Rd_refl : forall d, Rd d d.
Hypothesis Rd_trans : forall d1 d2 d3, Rd d1 d2 -> Rd d2 d3 -> Rd d1 d3.
Hypothesis Rd_upsert_feed :
  forall now url title doc, preserves Rd (upsert_feed now url title doc).
Hypothesis Rd_upsert_feed_item :
  forall q now feed_id guid a, preserves Rd (upsert_feed_item q now feed_id guid a).
Hypothesis Rd_update :
  forall p id, preserves Rd (update_download_path p id).

Lemma on_store_refl (s : state) : on_store Rd s s.
Proof. split; [reflexivity|apply Rd_refl]. Qed.

Lemma on_store_trans (s1 s2 s3 : state) :
  on_store Rd s1 s2 -> on_store Rd s2 s3 -> on_store Rd s1 s3.
Proof.
  intros [S12 R12] [S23 R23]. split; [congruence|eapply Rd_trans; eassumption].
Qed.

Lemma on_store_same (s s' : state) :
  con s' = con s -> saved s' = saved s -> on_store Rd s s'.
Proof. intros Hc Hs. split; [exact Hs|rewrite Hc; apply Rd_refl]. Qed.

Lemma on_store_on_con {A} (m : M db A) :
  preserves Rd m -> preserves (on_store Rd) (on_con m).
Proof.
  intros H s. unfold on_con. specialize (H (con s)).
  destruct (m (con s)) as [r d]. split; [reflexivity|exact H].
Qed.

Lemma on_store_on_tree {A} (f : fs -> result A * fs) :
  preserves (on_store Rd) (on_tree f).
Proof.
  intros s. unfold on_tree. destruct (f (tree s)) as [r t].
  apply on_store_same; reflexivity.
Qed.

Lemma on_store_time_time (e : env) : preserves (on_store Rd) (time_time e).
Proof. intros s. apply on_store_same; reflexivity. Qed.

Lemma on_store_requests_get (e : env) (url : pyval) :
  preserves (on_store Rd) (requests_get e url).
Proof.
  intros s. unfold requests_get. destruct url; apply on_store_same; reflexivity.
Qed.

Lemma on_store_get_feed_xml (e : env) (feed_url : string) :
  preserves (on_store Rd) (get_feed_xml e feed_url).
Proof.
  unfold get_feed_xml. destruct (Text.strip_prefix "file://" feed_url) as [name|].
  - intros s. apply on_store_refl.
  - apply (preserves_bind _ on_store_trans); [apply on_store_requests_get|intros res].
    destruct (broken res); [apply preserves_raise, on_store_refl|].
    apply (preserves_bind _ on_store_trans);
      [apply preserves_lift, on_store_refl|intros _].
    apply preserves_ret, on_store_refl.
Qed.

Lemma on_store_write_chunks (e : env) (f : list string) (expected start : Z)
      (chunks : list string) :
  forall b c, preserves (on_store Rd) (write_chunks e f expected start chunks b c).
Proof.
  induction chunks as [|chunk rest IH]; intros b c; cbn [write_chunks].
  - apply preserves_ret, on_store_refl.
  - apply (preserves_bind _ on_store_trans); [apply on_store_on_tree|intros _].
    apply (preserves_bind _ on_store_trans); [apply on_store_time_time|intros now].
    apply (preserves_bind _ on_store_trans);
      [apply preserves_lift, on_store_refl|intros _; apply IH].
Qed.

Lemma on_store_fetch (e : env) (item_url : pyval) (item_file : path) (id : Z) :
  preserves (on_store Rd) (fetch e item_url item_file id).
Proof.
  unfold fetch.
  apply (preserves_bind _ on_store_trans); [apply on_store_requests_get|intros res].
  do 2 lift_step on_store_refl on_store_trans.
  apply (preserves_bind _ on_store_trans); [apply on_store_time_time|intros start].
  apply (preserves_bind _ on_store_trans); [apply on_store_on_tree|intros f].
  apply (preserves_bind _ on_store_trans); [apply on_store_write_chunks|intros w].
  apply (preserves_bind _ on_store_trans).
  { destruct (broken res); [apply preserves_raise|apply preserves_ret];
      apply on_store_refl. }
  intros _. lift_step on_store_refl on_store_trans.
  apply on_store_on_con, Rd_update.
Qed.

Lemma on_store_download (e : env) (item_url : pyval) (item_file : path) (id : Z) :
  preserves (on_store Rd) (download e item_url item_file id).
Proof.
  unfold download. apply (preserves_bind _ on_store_trans).
  - intros s. apply on_store_same; reflexivity.
  - intros _. apply on_store_fetch.
Qed.

Lemma on_store_process_item (e : env) (feed_id : Z) (feed_dir : path) (item : pyval) :
  preserves (on_store Rd) (process_item e feed_id feed_dir item).
Proof.
  unfold process_item. apply (preserves_bind _ on_store_trans).
  - apply reconcile_item_preserves.
    + apply on_store_refl.
    + apply on_store_trans.
    + intros p. apply on_store_on_tree.
    + intros q now guid a. apply on_store_on_con, Rd_upsert_feed_item.
    + intros id. apply on_store_on_con. intros d.
      rewrite select_download_path_same. apply Rd_refl.
  - intros resolved s. destruct (exists_ (tree s) (snd resolved)).
    + apply on_store_refl.
    + apply on_store_download.
Qed.

Lemma on_store_process_one_feed (e : env) (feed_url : string) :
  preserves (on_store Rd) (process_one_feed e feed_url).
Proof.
  unfold process_one_feed.
  apply (preserves_bind _ on_store_trans); [apply on_store_get_feed_xml|intros text].
  do 4 lift_step on_store_refl on_store_trans.
  apply (preserves_bind _ on_store_trans);
    [apply on_store_on_con, Rd_upsert_feed|intros feed_id].
  lift_step on_store_refl on_store_trans.
  apply (preserves_bind _ on_store_trans); [apply on_store_on_tree|intros _].
  do 2 lift_step on_store_refl on_store_trans.
  apply (preserves_for_each _ on_store_refl on_store_trans).
  intros item. apply on_store_process_item.
Qed.

End StoreRelation.

(** A property of the store that the three writing operations keep is kept
    by every feed of a batch, by every run, and by every sequence of runs. *)
Section StoreInvariant.
Variable I : db -> Prop.
Hypothesis I_upsert_feed :
  forall now url title doc d, I d -> I (snd (upsert_feed now url title doc d)).
Hypothesis I_upsert_feed_item :
  forall q now feed_id guid a d, I d -> I (snd (upsert_feed_item q now feed_id guid a d)).
Hypothesis I_update :
  forall p id d, I d -> I (snd (update_download_path p id d)).

Lemma keeps_refl (d : db) : keeps I d d.
Proof. intros H. exact H. Qed.

Lemma keeps_trans (d1 d2 d3 : db) : keeps I d1 d2 -> keeps I d2 d3 -> keeps I d1 d3.
Proof. intros H12 H23 H. exact (H23 (H12 H)). Qed.

Lemma process_one_feed_keeps (e : env) (feed_url : string) :
  preserves (on_store (keeps I)) (process_one_feed e feed_url).
Proof.
  apply on_store_process_one_feed.
  - apply keeps_refl.
  - apply keeps_trans.
  - intros now url title doc d. exact (I_upsert_feed now url title doc d).
  - intros q now feed_id guid a d. exact (I_upsert_feed_item q now feed_id guid a d).
  - intros p id d. exact (I_update p id d).
Qed.

Lemma main_step_keeps (e : env) (s : state) (line : string) :
  con s = saved s -> I (saved s) ->
  con (main_step e s line) = saved (main_step e s line)
  /\ I (saved (main_step e s line)).
Proof.
  intros Hc Hi. unfold main_step.
  destruct (negb (String.eqb (Text.strip line) EmptyString)
            && negb (Text.startswith (Text.strip line) "#")); [|split; assumption].
  pose proof (process_one_feed_keeps e (Text.strip line) s) as [S K].
  destruct (process_one_feed e (Text.strip line) s) as [[u|x] s']; cbn [snd] in *.
  - cbn [commit con saved]. split; [reflexivity|]. apply K. rewrite Hc. exact Hi.
  - cbn [rollback con saved]. split; [reflexivity|]. rewrite S. exact Hi.
Qed.

Lemma main_keeps (e : env) (lines : list string) (file : option db) (t : fs) :
  I (get_database file) -> I (saved (main e lines file t)).
Proof.
  intros Hi. unfold main.
  assert (H : forall s, con s = saved s -> I (saved s) ->
                        con (fold_left (main_step e) lines s)
                        = saved (fold_left (main_step e) lines s)
                        /\ I (saved (fold_left (main_step e) lines s))).
  { induction lines as [|line lines IH]; intros s Hc Hs; cbn [fold_left].
    - split; assumption.
    - destruct (main_step_keeps e s line Hc Hs) as [Hc1 Hs1]. exact (IH _ Hc1 Hs1). }
  destruct (H (start file t) eq_refl Hi) as [Hc Hs].
  cbn [commit saved]. rewrite Hc. exact Hs.
Qed.

Lemma runs_keep (rs : list run) :
  forall file, I (get_database file) -> I (get_database (runs rs file)).
Proof.
  induction rs as [|r rs IH]; intros file Hi; cbn [runs]; [exact Hi|].
  apply IH. cbn [get_database]. apply main_keeps. exact Hi.
Qed.

End StoreInvariant.

(** ** One row per URL, one row per (feed, guid) *)

(** What [upsert_feed] leaves, whether it returns or raises: the episodes as
    they were, and the feeds as they were, or with one row added for a URL
    that had none, or with the rows of the URL retitled. *)
Lemma upsert_feed_shape (now url : string) (title doc : pyval) (d : db) :
  feed_item (snd (upsert_feed now url title doc d)) = feed_item d
  /\ (feed (snd (upsert_feed now url title doc d)) = feed d
      \/ (feeds_of url d = []
          /\ exists row, f_feed_url row = SText url
               /\ feed (snd (upsert_feed now url title doc d)) = (feed d ++ [row])%list)
      \/ exists t, feed (snd (upsert_feed now url title doc d)) = retitled url t (feed d)).
Proof.
  unfold upsert_feed, Eff.bind, prepare, lift, ret.
  destruct (prepared d "feed" ["feed_id"; "feed_url"]);
    [|split; [reflexivity|left; reflexivity]].
  destruct (find (fun r => sql_eq (f_feed_url r) (SText url)) (feed d)) as [r|] eqn:F.
  - destruct (prepared d "feed" ["title"; "feed_url"]);
      [|split; [reflexivity|left; reflexivity]].
    destruct (Db.bind title) as [t|]; [|split; [reflexivity|left; reflexivity]].
    match goal with
    | |- context [prepared ?a "raw_feed" ?c] => destruct (prepared a "raw_feed" c)
    end; (split; [reflexivity|right; right; exists t; reflexivity]).
  - destruct (prepared d "feed" ["date_added"; "feed_url"; "title"; "feed_id"]);
      [|split; [reflexivity|left; reflexivity]].
    destruct (Db.bind title) as [t|]; [|split; [reflexivity|left; reflexivity]].
    pose proof (find_none_filter _ _ F) as Hf.
    match goal with
    | |- context [prepared ?a "raw_feed" ?c] => destruct (prepared a "raw_feed" c)
    end; (split; [reflexivity|right; left; split; [exact Hf|]; eexists;
                  split; [|reflexivity]; reflexivity]).
Qed.

Lemma is_feed_eq (url : string) (r : feed_row) :
  is_feed url r = true -> f_feed_url r = SText url.
Proof. apply sql_eq_true. Qed.

Lemma feeds_of_retitled_length (url url' : string) (t : sqlval) (l : list feed_row) :
  List.length (List.filter (is_feed url') (retitled url t l))
  = List.length (List.filter (is_feed url') l).
Proof.
  unfold retitled. rewrite filter_map_commute.
  - apply length_map.
  - intros x _. destruct (sql_eq (f_feed_url x) (SText url)); reflexivity.
Qed.

Lemma upsert_feed_keyed (now url : string) (title doc : pyval) (d : db) :
  keyed d -> keyed (snd (upsert_feed now url title doc d)).
Proof.
  intros (Hu & Hf & He).
  destruct (upsert_feed_shape now url title doc d) as [Hi Hs].
  unfold keyed, unique_ids, episodes_of. rewrite Hi.
  split; [exact Hu|]. split; [|exact He].
  intros url'. unfold feeds_of.
  destruct Hs as [-> |[(Hnone & row & Hrow & ->)|[t ->]]].
  - apply Hf.
  - rewrite List.filter_app, length_app. cbn [List.filter].
    destruct (is_feed url' row) eqn:E.
    + apply is_feed_eq in E. rewrite Hrow in E. injection E as <-.
      fold (feeds_of url d). rewrite Hnone. cbn. lia.
    + specialize (Hf url'). unfold feeds_of in Hf. cbn. lia.
  - rewrite feeds_of_retitled_length. apply Hf.
Qed.

Lemma is_episode_eq (feed_id : Z) (g : sqlval) (r : feed_item_row) :
  is_episode feed_id g r = true -> i_feed_id r = SInt feed_id /\ i_guid r = g.
Proof.
  unfold is_episode. intros H. apply andb_true_iff in H. destruct H as [H1 H2].
  split; apply sql_eq_true; assumption.
Qed.

Lemma upsert_feed_item_keyed (q : engine) (now : string) (feed_id : Z) (guid : pyval) (a : item_args)
      (d : db) :
  keyed d -> keyed (snd (upsert_feed_item q now feed_id guid a d)).
Proof.
  intros (Hu & Hf & He).
  destruct (upsert_feed_item_cases q now feed_id guid a d)
    as [[x ->]|[(g & m & _ & _ & Hnone & ->)|(g & m & r & _ & _ & Hin & Hm & _ & ->)]];
    cbn [snd].
  - repeat split; assumption.
  - split; [|split; [exact Hf|]].
    + unfold unique_ids. cbn [set_feed_items feed_item]. rewrite map_app.
      apply NoDup_snoc; [exact Hu|apply next_rowid_fresh].
    + intros fid' g'. unfold episodes_of. cbn [set_feed_items feed_item].
      rewrite List.filter_app, length_app. cbn [List.filter].
      match goal with |- context [is_episode fid' g' ?row] =>
        destruct (is_episode fid' g' row) eqn:E end.
      * apply is_episode_eq in E. cbn [inserted i_feed_id i_guid] in E.
        destruct E as [[= <-] <-]. fold (episodes_of feed_id g d). rewrite Hnone.
        cbn. lia.
      * specialize (He fid' g'). unfold episodes_of in He. cbn. lia.
  - destruct (updated_ids (feed_item_id r) g m (feed_item d)) as (Hi & _ & _).
    split; [|split; [exact Hf|]].
    + unfold unique_ids. cbn [set_feed_items feed_item]. rewrite Hi. exact Hu.
    + intros fid' g'. unfold episodes_of. cbn [set_feed_items feed_item].
      unfold updated. rewrite filter_map_commute.
      * rewrite length_map. apply He.
      * intros x Hx. destruct (feed_item_id x =? feed_item_id r) eqn:E; [|reflexivity].
        apply Z.eqb_eq in E. rewrite (unique_row _ r x Hu Hin Hx E).
        destruct (is_episode_eq _ _ _ Hm) as [_ Hg].
        unfold is_episode. cbn [with_metadata i_feed_id i_guid]. rewrite Hg.
        reflexivity.
Qed.

Lemma update_download_path_keyed (p : string) (id : Z) (d : db) :
  keyed d -> keyed (snd (update_download_path p id d)).
Proof.
  intros (Hu & Hf & He).
  destruct (update_download_path_cases p id d) as [-> | ->];
    [repeat split; assumption|].
  split; [|split; [exact Hf|]].
  - unfold unique_ids. cbn [set_feed_items feed_item]. unfold with_path.
    rewrite map_map. erewrite map_ext; [exact Hu|].
    intros x. destruct (feed_item_id x =? id); reflexivity.
  - intros fid' g'. unfold episodes_of. cbn [set_feed_items feed_item].
    unfold with_path. rewrite filter_map_commute.
    + rewrite length_map. apply He.
    + intros x _. destruct (feed_item_id x =? id); reflexivity.
Qed.

Lemma created_keyed : keyed created.
Proof.
  split; [constructor|]. split; intros; cbn; lia.
Qed.

(** X1.  After any sequence of runs that started without a database file,
    feed_item_id is unique, every URL has at most one Feed row, and every
    (feed, guid) pair has at most one Episode row. *)
Theorem runs_keep_rows_unique (rs : list run) :
  let d := get_database (runs rs None) in
  List.NoDup (map feed_item_id (feed_item d))
  /\ (forall url, (List.length (feeds_of url d) <= 1)%nat)
  /\ (forall feed_id g, (List.length (episodes_of feed_id g d) <= 1)%nat).
Proof.
  apply (runs_keep keyed upsert_feed_keyed upsert_feed_item_keyed
           update_download_path_keyed rs None).
  exact created_keyed.
Qed.

(** ** Files that are there are never written to *)

Lemma untouched_refl (t : fs) : untouched t t.
Proof. intros loc n H. exact H. Qed.

Lemma untouched_trans (t1 t2 t3 : fs) :
  untouched t1 t2 -> untouched t2 t3 -> untouched t1 t3.
Proof. intros H12 H23 loc n H. exact (H23 _ _ (H12 _ _ H)). Qed.

Lemma untouched_insert (t : fs) (loc : list string) (n : node) :
  loc <> [] -> at_loc t loc = None -> untouched t (<[loc := n]> t).
Proof.
  intros Hne Hnone loc' n' H. rewrite at_loc_insert by exact Hne.
  destruct (decide (loc = loc')) as [<-|_]; [congruence|exact H].
Qed.

Lemma os_mkdir_untouched (t : fs) (ps : list string) : untouched t (snd (os_mkdir t ps)).
Proof.
  unfold os_mkdir. destruct ps as [|p ps]; [apply untouched_refl|].
  destruct (walk t [] (removelast (p :: ps))) as [loc|]; [|apply untouched_refl].
  destruct (negb (is_dir_at t loc)); [apply untouched_refl|].
  destruct (String.eqb _ ".."); [apply untouched_refl|].
  destruct (at_loc t (child loc _)) eqn:E; [apply untouched_refl|].
  cbn [snd]. apply untouched_insert; [apply child_not_nil|exact E].
Qed.

Lemma mkdir_plain_untouched (exist_ok : bool) (t : fs) (ps : list string) :
  untouched t (snd (mkdir_plain exist_ok t ps)).
Proof.
  unfold mkdir_plain. pose proof (os_mkdir_untouched t ps) as G.
  destruct (os_mkdir t ps) as [[u|x] t']; cbn [snd] in *; [exact G|].
  destruct x; try exact G;
    match goal with |- context [if ?c then _ else _] => destruct c end; exact G.
Qed.

Lemma mkdir_parents_untouched (n : nat) :
  forall (exist_ok : bool) (t : fs) (ps : list string),
    untouched t (snd (mkdir_parents n exist_ok t ps)).
Proof.
  induction n as [|n IH]; intros exist_ok t ps; cbn [mkdir_parents].
  - pose proof (os_mkdir_untouched t (firstn 0 ps)) as G.
    destruct (os_mkdir t (firstn 0 ps)) as [[u|x] t']; cbn [snd] in *;
      [apply mkdir_plain_untouched|].
    destruct x; try apply mkdir_plain_untouched. exact G.
  - pose proof (os_mkdir_untouched t (firstn (S n) ps)) as G.
    destruct (os_mkdir t (firstn (S n) ps)) as [[u|x] t']; cbn [snd] in *;
      [apply mkdir_plain_untouched|].
    destruct x; try apply mkdir_plain_untouched.
    pose proof (IH true t' ps) as G'.
    destruct (mkdir_parents n true t' ps) as [[u|x] t'']; cbn [snd] in *.
    + eapply untouched_trans; [exact G|]. eapply untouched_trans; [exact G'|].
      apply mkdir_plain_untouched.
    + eapply untouched_trans; eassumption.
Qed.

Lemma mkdir_untouched (parents exist_ok : bool) (t : fs) (p : path) :
  untouched t (snd (mkdir parents exist_ok t p)).
Proof.
  unfold mkdir. destruct parents;
    [apply mkdir_parents_untouched|apply mkdir_plain_untouched].
Qed.

Lemma walk_snoc (t : fs) (ps : list string) (p : string) :
  forall cur,
    walk t cur (ps ++ [p])
    = match walk t cur ps with
      | Ok loc => walk t loc [p]
      | Raise x => Raise x
      end.
Proof.
  induction ps as [|q ps IH]; intros cur; [reflexivity|].
  cbn [app walk]. destruct (is_dir_at t cur); [|reflexivity].
  destruct (String.eqb q ".."); [apply IH|].
  destruct (at_loc t (child cur q)); [apply IH|reflexivity].
Qed.

(** Opening a path at which nothing exists creates a new file or fails; it
    never empties a file that is there. *)
Lemma open_wb_fresh (t : fs) (f : path) :
  exists_ t f = false ->
  (exists x, open_wb t f = (Raise x, t))
  \/ (exists loc, loc <> [] /\ at_loc t loc = None
                  /\ open_wb t f = (Ok loc, <[loc := File EmptyString]> t)).
Proof.
  unfold exists_, open_wb. intros Hex.
  destruct (parts f) as [|x ps] eqn:Hp; [left; eexists; reflexivity|].
  assert (Hsplit : (x :: ps) = (removelast (x :: ps) ++ [List.last (x :: ps) EmptyString])%list)
    by (apply app_removelast_last; discriminate).
  rewrite Hsplit in Hex at 1. rewrite walk_snoc in Hex.
  destruct (walk t [] (removelast (x :: ps))) as [loc|e]; [|left; eexists; reflexivity].
  cbn [walk] in Hex.
  destruct (is_dir_at t loc); cbn [negb]; [|left; eexists; reflexivity].
  destruct (String.eqb (List.last (x :: ps) EmptyString) "..");
    [left; eexists; reflexivity|].
  destruct (at_loc t (child loc (List.last (x :: ps) EmptyString))) as [[|d]|] eqn:E.
  - left; eexists; reflexivity.
  - discriminate Hex.
  - right. eexists. split; [apply child_not_nil|]. split; [exact E|reflexivity].
Qed.

Lemma only_at_refl (loc : list string) (t : fs) : only_at loc t t.
Proof. intros loc' _. reflexivity. Qed.

Lemma only_at_trans (loc : list string) (t1 t2 t3 : fs) :
  only_at loc t1 t2 -> only_at loc t2 t3 -> only_at loc t1 t3.
Proof. intros H12 H23 loc' Hne. rewrite (H23 loc' Hne). exact (H12 loc' Hne). Qed.

Lemma write_only_at (t : fs) (loc : list string) (chunk : string) :
  only_at loc t (write t loc chunk).
Proof.
  unfold write. destruct (t !! loc) as [[|d]|]; try apply only_at_refl.
  intros loc' Hne. destruct loc' as [|y l']; [reflexivity|].
  cbn [at_loc]. apply lookup_insert_ne. congruence.
Qed.

Lemma write_chunks_only_at (e : env) (loc : list string) (expected start : Z)
      (chunks : list string) :
  forall b c s,
    only_at loc (tree s) (tree (snd (write_chunks e loc expected start chunks b c s))).
Proof.
  induction chunks as [|chunk rest IH]; intros b c s; cbn [write_chunks].
  - apply only_at_refl.
  - unfold Eff.bind at 1. unfold on_tree. cbn [snd fst].
    unfold Eff.bind at 1. unfold time_time. cbn [snd fst].
    unfold Eff.bind at 1. unfold lift.
    destruct (progress_message expected _ start); cbn [snd].
    + eapply only_at_trans; [|apply IH]. cbn [tree set_tree]. apply write_only_at.
    + cbn [tree set_tree]. apply write_only_at.
Qed.

(** A download to a path at which nothing exists leaves everything that is
    in the media tree as it was. *)
Lemma fetch_untouched (e : env) (item_url : pyval) (item_file : path) (id : Z)
      (s : state) :
  exists_ (tree s) item_file = false ->
  untouched (tree s) (tree (snd (fetch e item_url item_file id s))).
Proof.
  intros Hex. unfold fetch. unfold Eff.bind at 1.
  assert (Hreq : tree (snd (requests_get e item_url s)) = tree s)
    by (unfold requests_get; destruct item_url; reflexivity).
  destruct (requests_get e item_url s) as [[res|x] s1]; cbn [snd] in *;
    [|rewrite Hreq; apply untouched_refl].
  unfold Eff.bind at 1. unfold lift at 1.
  destruct (header (headers res) "content-length") as [lt|x];
    [|cbn [snd]; rewrite Hreq; apply untouched_refl].
  unfold Eff.bind at 1. unfold lift at 1.
  destruct (Text.int lt) as [n|]; [|cbn [snd]; rewrite Hreq; apply untouched_refl].
  unfold Eff.bind at 1. unfold time_time at 1.
  unfold Eff.bind at 1. unfold on_tree at 1. cbn [tree].
  rewrite Hreq.
  destruct (open_wb_fresh (tree s) item_file Hex)
    as [[x ->]|(loc & Hne & Hnone & ->)]; [apply untouched_refl|].
  cbn [set_tree].
  match goal with
  | |- untouched _ (tree (snd (Eff.bind (write_chunks e loc n ?st ?body 0 ?st) ?k ?s0))) =>
      unfold Eff.bind at 1;
      pose proof (write_chunks_only_at e loc n st body 0 st s0) as Hw;
      destruct (write_chunks e loc n st body 0 st s0) as [[w|x] s2]
  end; cbn [snd tree set_tree] in *.
  - assert (Hrest : forall loc' m, at_loc (tree s) loc' = Some m ->
                                   at_loc (tree s2) loc' = Some m).
    { intros loc' m H. assert (loc' <> loc) by congruence.
      rewrite (Hw loc') by assumption. rewrite at_loc_insert by exact Hne.
      destruct (decide (loc = loc')); [congruence|exact H]. }
    unfold Eff.bind at 1.
    destruct (broken res); unfold raise, ret; [exact Hrest|].
    unfold Eff.bind at 1. unfold lift.
    destruct (progress_message n (snd w) _); [|exact Hrest].
    unfold on_con. destruct (update_download_path _ _ (con s2)). exact Hrest.
  - intros loc' m H. assert (loc' <> loc) by congruence.
    rewrite (Hw loc') by assumption. rewrite at_loc_insert by exact Hne.
    destruct (decide (loc = loc')); [congruence|exact H].
Qed.

Lemma intact_refl (s : state) : intact s s.
Proof. apply untouched_refl. Qed.

Lemma intact_trans (s1 s2 s3 : state) : intact s1 s2 -> intact s2 s3 -> intact s1 s3.
Proof. apply untouched_trans. Qed.

Lemma intact_on_con {A} (m : M db A) : preserves intact (on_con m).
Proof. intros s. unfold on_con. destruct (m (con s)). apply untouched_refl. Qed.

Lemma intact_mkdir (parents exist_ok : bool) (p : path) :
  preserves intact (on_tree (fun t => mkdir parents exist_ok t p)).
Proof.
  intros s. unfold on_tree. pose proof (mkdir_untouched parents exist_ok (tree s) p) as G.
  destruct (mkdir parents exist_ok (tree s) p). exact G.
Qed.

Lemma intact_get_feed_xml (e : env) (feed_url : string) :
  preserves intact (get_feed_xml e feed_url).
Proof.
  intros s. unfold get_feed_xml.
  destruct (Text.strip_prefix "file://" feed_url) as [name|]; [apply untouched_refl|].
  unfold Eff.bind, requests_get, raise, lift, ret. cbn [snd fst].
  destruct (http_get e _ feed_url) as [x|r]; [apply untouched_refl|].
  destruct (broken r); [apply untouched_refl|].
  destruct (raise_for_status r); apply untouched_refl.
Qed.

Lemma intact_process_item (e : env) (feed_id : Z) (feed_dir : path) (item : pyval) :
  preserves intact (process_item e feed_id feed_dir item).
Proof.
  intros s. unfold process_item, Eff.bind.
  assert (Hr : intact s (snd (reconcile_item e feed_id feed_dir item s))).
  { apply reconcile_item_preserves.
    - apply intact_refl.
    - apply intact_trans.
    - intros p. apply intact_mkdir.
    - intros q now guid a. apply intact_on_con.
    - intros id. apply intact_on_con. }
  destruct (reconcile_item e feed_id feed_dir item s) as [[[[id u] f]|x] s1];
    cbn [snd fst] in *; [|exact Hr].
  destruct (exists_ (tree s1) f) eqn:X; [exact Hr|].
  eapply intact_trans; [exact Hr|].
  unfold download, Eff.bind, note_download.
  apply (fetch_untouched e u f id
           {| con := con s1; saved := saved s1; tree := tree s1; ticks := ticks s1;
              requests := requests s1;
              downloads := (downloads s1 ++ [{| for_episode := id; from_url := u;
                                                destination := f |}])%list |}).
  exact X.
Qed.

Lemma intact_process_one_feed (e : env) (feed_url : string) :
  preserves intact (process_one_feed e feed_url).
Proof.
  unfold process_one_feed.
  apply (preserves_bind _ intact_trans); [apply intact_get_feed_xml|intros text].
  do 4 lift_step intact_refl intact_trans.
  apply (preserves_bind _ intact_trans); [apply intact_on_con|intros feed_id].
  lift_step intact_refl intact_trans.
  apply (preserves_bind _ intact_trans); [apply intact_mkdir|intros _].
  do 2 lift_step intact_refl intact_trans.
  apply (preserves_for_each _ intact_refl intact_trans).
  intros item. apply intact_process_item.
Qed.

Lemma intact_main_step (e : env) (s : state) (line : string) :
  intact s (main_step e s line).
Proof.
  unfold main_step.
  destruct (negb (String.eqb (Text.strip line) EmptyString)
            && negb (Text.startswith (Text.strip line) "#")); [|apply intact_refl].
  pose proof (intact_process_one_feed e (Text.strip line) s) as H.
  destruct (process_one_feed e (Text.strip line) s) as [[u|x] s']; exact H.
Qed.

Lemma intact_main_loop (e : env) (lines : list string) :
  forall s, intact s (fold_left (main_step e) lines s).
Proof.
  induction lines as [|line lines IH]; intros s; [apply intact_refl|].
  cbn [fold_left]. eapply intact_trans; [apply intact_main_step|apply IH].
Qed.

Lemma untouched_walk (t t' : fs) (ps : list string) :
  untouched t t' -> forall cur loc, walk t cur ps = Ok loc -> walk t' cur ps = Ok loc.
Proof.
  intros G. induction ps as [|p ps IH]; intros cur loc; simpl; [trivial|].
  unfold is_dir_at.
  destruct (at_loc t cur) as [[|d]|] eqn:D; try discriminate.
  rewrite (G _ _ D).
  destruct (String.eqb p ".."); [apply IH|].
  destruct (at_loc t (child cur p)) as [n|] eqn:E; [|discriminate].
  rewrite (G _ _ E). apply IH.
Qed.

(** X2.  A run never rewrites a file: whatever the feeds file, the network
    and the database are, a path that leads to a file before the run leads
    to a file with the same contents after it. *)
Theorem run_keeps_files (e : env) (feeds_file : list string) (file : option db)
        (t : fs) (p : path) (data : string) :
  file_at t p = Some data ->
  file_at (tree (main e feeds_file file t)) p = Some data.
Proof.
  assert (G : untouched t (tree (main e feeds_file file t))).
  { unfold main. cbn [commit tree].
    exact (intact_main_loop e feeds_file (start file t)). }
  unfold file_at. intros H.
  destruct (walk t [] (parts p)) as [loc|] eqn:W; [|discriminate].
  rewrite (untouched_walk _ _ _ G _ _ W).
  destruct (at_loc t loc) as [[|d]|] eqn:A; try discriminate.
  rewrite (G _ _ A). exact H.
Qed.

Lemma run_keeps_files_witness :
  file_at Scenario.present_tree Scenario.ep1_path = Some "earlier"
  /\ file_at (tree (main Scenario.pair_site [Scenario.feed_url] None Scenario.present_tree))
             Scenario.ep1_path = Some "earlier".
Proof.
  split; [vm_compute; reflexivity|].
  apply run_keeps_files. vm_compute. reflexivity.
Defined.

(** ** What a download leaves behind *)

Lemma append_assoc (a b c : string) :
  String.append (String.append a b) c = String.append a (String.append b c).
Proof.
  induction a as [|x a IH]; [reflexivity|].
  change (String x (String.append (String.append a b) c)
          = String x (String.append a (String.append b c))).
  rewrite IH. reflexivity.
Qed.

Lemma append_empty (a : string) : String.append a EmptyString = a.
Proof.
  induction a as [|x a IH]; [reflexivity|].
  change (String x (String.append a EmptyString) = String x a).
  rewrite IH. reflexivity.
Qed.

Lemma write_at (t : fs) (loc : list string) (d chunk : string) :
  t !! loc = Some (File d) ->
  write t loc chunk !! loc = Some (File (String.append d chunk)).
Proof. intros H. unfold write. rewrite H. apply lookup_insert_eq. Qed.

Lemma write_chunks_cons (e : env) (loc : list string) (expected start : Z)
      (chunk : string) (rest : list string) (b c : Z) (s : state) :
  write_chunks e loc expected start (chunk :: rest) b c s
  = let s2 := {| con := con s; saved := saved s; tree := write (tree s) loc chunk;
                 ticks := S (ticks s); requests := requests s;
                 downloads := downloads s |} in
    match progress_message expected (clock e (ticks s)) start with
    | Ok _ => write_chunks e loc expected start rest
                (b + Z.of_nat (String.length chunk)) (clock e (ticks s)) s2
    | Raise x => (Raise x, s2)
    end.
Proof. reflexivity. Qed.

(** However the copy ends, the store is as it was, and the file holds the
    chunks received so far, in order. *)
Lemma write_chunks_prefix (e : env) (loc : list string) (expected start : Z)
      (chunks : list string) :
  forall b c d s,
    tree s !! loc = Some (File d) ->
    con (snd (write_chunks e loc expected start chunks b c s)) = con s
    /\ exists k,
         tree (snd (write_chunks e loc expected start chunks b c s)) !! loc
         = Some (File (String.append d (Text.concat (firstn k chunks))))
         /\ (is_ok (fst (write_chunks e loc expected start chunks b c s)) = true ->
             k = List.length chunks).
Proof.
  induction chunks as [|chunk rest IH]; intros b c d s Hd.
  - cbn. split; [reflexivity|]. exists 0%nat. cbn. rewrite append_empty.
    split; [exact Hd|reflexivity].
  - rewrite write_chunks_cons. cbv zeta.
    pose proof (write_at (tree s) loc d chunk Hd) as Hw.
    destruct (progress_message expected _ start).
    + match goal with
      | |- context [write_chunks e loc expected start rest ?b' ?c' ?s'] =>
          destruct (IH b' c' (String.append d chunk) s' Hw) as (Hc & k & Hk & Hlen)
      end.
      split; [exact Hc|]. exists (S k). cbn [firstn Text.concat List.length].
      rewrite <- append_assoc. split; [exact Hk|].
      intros Hok. rewrite (Hlen Hok). reflexivity.
    + split; [reflexivity|]. exists 1%nat. cbn [firstn Text.concat tree snd fst is_ok].
      rewrite append_empty. split; [exact Hw|discriminate].
Qed.

(** A copy that comes to its end has received at least one chunk only if
    the expected length is not zero. *)
Lemma write_chunks_expected (e : env) (loc : list string) (expected start : Z)
      (chunks : list string) :
  forall b c s w s',
    write_chunks e loc expected start chunks b c s = (Ok w, s') ->
    (chunks = [] /\ snd w = c) \/ (chunks <> [] /\ expected <> 0 /\ snd w <> start).
Proof.
  induction chunks as [|chunk rest IH]; intros b c s w s' H; cbn [write_chunks] in H.
  - left. apply ret_ok in H. destruct H as [-> _]. split; reflexivity.
  - right. inv_bind H. inv_bind H. inv_lift H.
    unfold progress_message in E1.
    destruct ((expected =? 0) || (v0 =? start)) eqn:Z; [discriminate|].
    apply orb_false_iff in Z. destruct Z as [Z1 Z2].
    apply Z.eqb_neq in Z1. apply Z.eqb_neq in Z2.
    split; [discriminate|]. split; [exact Z1|].
    destruct (IH _ _ _ _ _ H) as [[_ ->]|(_ & _ & Hne)]; assumption.
Qed.

Lemma open_wb_leads (t : fs) (f : path) (loc : list string) (t1 t' : fs) (n : node) :
  exists_ t f = false ->
  open_wb t f = (Ok loc, t1) ->
  only_at loc t1 t' ->
  at_loc t' loc = Some n ->
  walk t' [] (parts f) = Ok loc.
Proof.
  intros Hex Ho Hw A.
  destruct (open_wb_fresh t f Hex) as [[x E]|(loc0 & Hne & Hnone & E)];
    rewrite E in Ho; [discriminate|].
  injection Ho as <- <-.
  assert (U : untouched t t').
  { intros l m H. assert (l <> loc0) by congruence.
    rewrite (Hw l) by assumption. rewrite at_loc_insert by exact Hne.
    destruct (decide (loc0 = l)); [congruence|exact H]. }
  unfold open_wb in E.
  destruct (parts f) as [|x ps] eqn:Hp; [discriminate|].
  assert (Hsplit : (x :: ps)
                   = (removelast (x :: ps) ++ [List.last (x :: ps) EmptyString])%list)
    by (apply app_removelast_last; discriminate).
  remember (List.last (x :: ps) EmptyString) as name eqn:Hname.
  remember (removelast (x :: ps)) as dir eqn:Hdir.
  rewrite Hsplit. clear Hsplit Hname Hdir.
  destruct (walk t [] dir) as [l0|] eqn:W; [|discriminate].
  destruct (is_dir_at t l0) eqn:D; cbn [negb] in E; [|discriminate].
  destruct (String.eqb name "..") eqn:Dd; [discriminate|].
  assert (Hl : loc0 = child l0 name)
    by (destruct (at_loc t (child l0 name)) as [[|d]|]; congruence).
  subst loc0.
  rewrite walk_snoc, (untouched_walk _ _ _ U _ _ W). cbn [walk].
  unfold is_dir_at in *.
  destruct (at_loc t l0) as [[|d0]|] eqn:A0; try discriminate.
  rewrite (U _ _ A0), Dd, A. reflexivity.
Qed.

Lemma at_loc_lookup (t : fs) (loc : list string) :
  loc <> [] -> at_loc t loc = t !! loc.
Proof. destruct loc; [contradiction|reflexivity]. Qed.

(** What a download that comes to its end has done. *)
Lemma fetch_ok (e : env) (u : pyval) (f : path) (id : Z) (s s' : state) :
  exists_ (tree s) f = false ->
  fetch e u f id s = (Ok tt, s') ->
  exists url r len n,
    u = PStr url
    /\ http_get e (List.length (requests s)) url = Response r
    /\ broken r = false
    /\ header (headers r) "content-length" = Ok len
    /\ Text.int len = Some n /\ n <> 0
    /\ body r <> []
    /\ file_at (tree s') f = Some (Text.concat (body r))
    /\ update_download_path (as_posix f) id (con s) = (Ok tt, con s').
Proof.
  intros Hex H. unfold fetch in H.
  inv_bind_as H r s1 Hreq. inv_lift_as H len Hlen0. inv_lift_as H n Hn.
  inv_bind_as H t0 s2 Ht. inv_bind_as H loc s3 Ho. inv_bind_as H w s4 Hw.
  inv_bind_as H u0 s5 Hb. inv_lift_as H u1 Hp.
  apply on_con_ok in H. destruct H as [Hup ->].
  unfold requests_get in Hreq. destruct u as [|url| |]; try discriminate.
  destruct (http_get e (List.length (requests s)) url) as [x|r0] eqn:Hget;
    [discriminate|].
  injection Hreq as -> <-.
  destruct (Text.int len) as [n0|] eqn:Hi; [|discriminate]. injection Hn as ->.
  unfold time_time in Ht. injection Ht as <- <-.
  unfold on_tree in Ho. cbn [tree] in Ho.
  destruct (open_wb (tree s) f) as [ro t1] eqn:Hopen. injection Ho as -> <-.
  destruct (open_wb_fresh (tree s) f Hex) as [[x E]|(loc0 & Hne & Hnone & E)];
    rewrite E in Hopen; [discriminate|].
  injection Hopen as -> <-.
  destruct (broken r) eqn:Hbr; [discriminate|]. apply ret_ok in Hb. destruct Hb as [_ ->].
  match type of Hw with
  | write_chunks e loc n ?st ?chunks ?b ?c ?s0 = _ =>
      pose proof (write_chunks_prefix e loc n st chunks b c EmptyString s0) as P;
      pose proof (write_chunks_only_at e loc n st chunks b c s0) as Q;
      pose proof (write_chunks_expected e loc n st chunks b c s0 _ _ Hw) as X
  end.
  rewrite Hw in P, Q. cbn [snd fst tree set_tree con is_ok] in P, Q.
  destruct P as (Hc & k & Hk & Hlen); [apply lookup_insert_eq|].
  rewrite (Hlen eq_refl), firstn_all in Hk. cbn [String.append] in Hk.
  exists url, r, len, n. split; [reflexivity|]. split; [exact Hget|].
  split; [exact Hbr|]. split; [exact Hlen0|]. split; [exact Hi|].
  unfold progress_message in Hp.
  destruct ((n =? 0) || (snd w =? clock e (ticks s))) eqn:Z; [discriminate|].
  apply orb_false_iff in Z. destruct Z as [Z1 Z2].
  apply Z.eqb_neq in Z1. apply Z.eqb_neq in Z2.
  split; [exact Z1|].
  split; [destruct X as [[_ X]|[X _]]; [contradiction|exact X]|].
  split.
  - unfold file_at. cbn [tree set_con].
    assert (A : at_loc (tree s4) loc = Some (File (Text.concat (body r))))
      by (rewrite at_loc_lookup by exact Hne; exact Hk).
    rewrite (open_wb_leads (tree s) f loc _ (tree s4) _ Hex E Q A), A. reflexivity.
  - cbn [con] in Hup. rewrite Hc in Hup. exact Hup.
Qed.

(** X3.  A download that comes to its end: the server answered (with
    whatever status), the answer named a length other than zero and carried
    at least one chunk, the file holds the chunks in the order they came,
    and the path of the file is what is recorded for the episode. *)
Theorem completed_download (e : env) (u : pyval) (f : path) (id : Z) (s s' : state) :
  exists_ (tree s) f = false ->
  fetch e u f id s = (Ok tt, s') ->
  exists url r len n,
    u = PStr url
    /\ http_get e (List.length (requests s)) url = Response r
    /\ broken r = false
    /\ header (headers r) "content-length" = Ok len
    /\ Text.int len = Some n /\ n <> 0
    /\ body r <> []
    /\ file_at (tree s') f = Some (Text.concat (body r))
    /\ update_download_path (as_posix f) id (con s) = (Ok tt, con s').
Proof. exact (fetch_ok e u f id s s'). Qed.

Lemma completed_download_witness :
  exists_ (tree Scenario.ready) Scenario.ep1_path = false
  /\ exists url r len n,
       PStr "http://example.com/ep1.mp3" = PStr url
       /\ http_get Scenario.pair_site (List.length (requests Scenario.ready)) url
          = Response r
       /\ broken r = false
       /\ header (headers r) "content-length" = Ok len
       /\ Text.int len = Some n /\ n <> 0
       /\ body r <> []
       /\ file_at (tree (snd (fetch Scenario.pair_site (PStr "http://example.com/ep1.mp3")
                                   Scenario.ep1_path 1 Scenario.ready)))
                  Scenario.ep1_path
          = Some (Text.concat (body r))
       /\ update_download_path (as_posix Scenario.ep1_path) 1 (con Scenario.ready)
          = (Ok tt, con (snd (fetch Scenario.pair_site (PStr "http://example.com/ep1.mp3")
                                    Scenario.ep1_path 1 Scenario.ready))).
Proof.
  split; [vm_compute; reflexivity|].
  apply completed_download; vm_compute; reflexivity.
Defined.

Lemma write_chunks_saved (e : env) (loc : list string) (expected start : Z)
      (chunks : list string) :
  forall b c s, saved (snd (write_chunks e loc expected start chunks b c s)) = saved s.
Proof.
  induction chunks as [|chunk rest IH]; intros b c s; [reflexivity|].
  rewrite write_chunks_cons. cbv zeta.
  destruct (progress_message expected _ start); [|reflexivity].
  rewrite IH. reflexivity.
Qed.

Lemma requests_get_state (e : env) (u : pyval) (s s1 : state) (res : result response) :
  requests_get e u s = (res, s1) ->
  con s1 = con s /\ saved s1 = saved s /\ tree s1 = tree s
  /\ forall r, res = Ok r ->
       exists url, u = PStr url
                   /\ http_get e (List.length (requests s)) url = Response r.
Proof.
  unfold requests_get. destruct u as [|url| |]; intros [= <- <-]; cbn;
    repeat split; try discriminate.
  intros r H. exists url. split; [reflexivity|].
  destruct (http_get e (List.length (requests s)) url); congruence.
Qed.

(** What a download that fails has done. *)
Lemma fetch_raise (e : env) (u : pyval) (f : path) (id : Z) (s s' : state)
        (x : exn) :
  exists_ (tree s) f = false ->
  fetch e u f id s = (Raise x, s') ->
  con s' = con s
  /\ saved s' = saved s
  /\ (tree s' = tree s
      \/ exists url r k,
           u = PStr url
           /\ http_get e (List.length (requests s)) url = Response r
           /\ file_at (tree s') f = Some (Text.concat (firstn k (body r)))
           /\ exists_ (tree s') f = true).
Proof.
  intros Hex H. unfold fetch in H. unfold Eff.bind at 1 in H.
  destruct (requests_get e u s) as [[r|x0] s1] eqn:Hreq;
    apply requests_get_state in Hreq; destruct Hreq as (C1 & S1 & T1 & U1).
  2: { injection H as _ <-. split; [exact C1|]. split; [exact S1|]. left. exact T1. }
  destruct (U1 r eq_refl) as (url & -> & Hget). clear U1.
  unfold Eff.bind at 1 in H. unfold lift at 1 in H.
  destruct (header (headers r) "content-length") as [len|x0].
  2: { injection H as _ <-. split; [exact C1|]. split; [exact S1|]. left. exact T1. }
  unfold Eff.bind at 1 in H. unfold lift at 1 in H.
  destruct (Text.int len) as [n|].
  2: { injection H as _ <-. split; [exact C1|]. split; [exact S1|]. left. exact T1. }
  unfold Eff.bind at 1 in H. unfold time_time at 1 in H.
  unfold Eff.bind at 1 in H. unfold on_tree at 1 in H. cbn [tree] in H.
  rewrite T1 in H.
  destruct (open_wb_fresh (tree s) f Hex) as [[x0 E]|(loc & Hne & Hnone & E)];
    rewrite E in H.
  { injection H as _ <-. cbn [con saved tree set_tree].
    split; [exact C1|]. split; [exact S1|]. left. reflexivity. }
  cbn [set_tree con saved tree ticks requests downloads] in H.
  match type of H with
  | Eff.bind (write_chunks e loc n ?st ?chunks ?b ?c) _ ?s0 = _ =>
      pose proof (write_chunks_prefix e loc n st chunks b c EmptyString s0) as P;
      pose proof (write_chunks_only_at e loc n st chunks b c s0) as Q;
      pose proof (write_chunks_saved e loc n st chunks b c s0) as V;
      unfold Eff.bind at 1 in H;
      destruct (write_chunks e loc n st chunks b c s0) as [[w|x0] s4]
  end; cbn [snd fst tree con saved set_tree] in P, Q, V;
    (destruct P as (Hc & k & Hk & _); [apply lookup_insert_eq|]);
    assert (A : at_loc (tree s4) loc = Some (File (Text.concat (firstn k (body r)))))
      by (rewrite at_loc_lookup by exact Hne; exact Hk);
    pose proof (open_wb_leads (tree s) f loc _ (tree s4) _ Hex E Q A) as W;
    assert (Hs : con s' = con s4 /\ saved s' = saved s4 /\ tree s' = tree s4).
  - unfold Eff.bind at 1 in H. destruct (broken r); unfold raise, ret in H.
    + injection H as _ <-. repeat split.
    + unfold Eff.bind at 1 in H. unfold lift in H.
      destruct (progress_message n (snd w) _).
      * unfold on_con, update_download_path, Eff.bind, prepare in H.
        destruct (prepared (con s4) _ _); [discriminate|].
        injection H as _ <-. repeat split.
      * injection H as _ <-. repeat split.
  - destruct Hs as (Cs & Ss & Ts). rewrite Cs, Ss, Ts, Hc, V.
    split; [exact C1|]. split; [exact S1|]. right. exists url, r, k.
    split; [reflexivity|]. split; [exact Hget|].
    unfold file_at, exists_. rewrite W, A. split; reflexivity.
  - injection H as _ <-. repeat split.
  - destruct Hs as (Cs & Ss & Ts). rewrite Cs, Ss, Ts, Hc, V.
    split; [exact C1|]. split; [exact S1|]. right. exists url, r, k.
    split; [reflexivity|]. split; [exact Hget|].
    unfold file_at, exists_. rewrite W, A. split; reflexivity.
Qed.

(** X4.  A download that fails records nothing; and when it fails after the
    file was opened, the file stays, with the chunks that had arrived. *)
Theorem failed_download (e : env) (u : pyval) (f : path) (id : Z) (s s' : state)
        (x : exn) :
  exists_ (tree s) f = false ->
  fetch e u f id s = (Raise x, s') ->
  con s' = con s
  /\ saved s' = saved s
  /\ (tree s' = tree s
      \/ exists url r k,
           u = PStr url
           /\ http_get e (List.length (requests s)) url = Response r
           /\ file_at (tree s') f = Some (Text.concat (firstn k (body r)))
           /\ exists_ (tree s') f = true).
Proof. exact (fetch_raise e u f id s s' x). Qed.

Lemma failed_download_witness :
  let s' := snd (fetch Scenario.cut_site (PStr "http://example.com/ep1.mp3")
                       Scenario.ep1_path 1 Scenario.ready) in
  fst (fetch Scenario.cut_site (PStr "http://example.com/ep1.mp3")
             Scenario.ep1_path 1 Scenario.ready) = Raise ConnectionError
  /\ con s' = con Scenario.ready
  /\ saved s' = saved Scenario.ready
  /\ (tree s' = tree Scenario.ready
      \/ exists url r k,
           PStr "http://example.com/ep1.mp3" = PStr url
           /\ http_get Scenario.cut_site (List.length (requests Scenario.ready)) url
              = Response r
           /\ file_at (tree s') Scenario.ep1_path
              = Some (Text.concat (firstn k (body r)))
           /\ exists_ (tree s') Scenario.ep1_path = true).
Proof.
  split; [vm_compute; reflexivity|].
  apply (failed_download Scenario.cut_site (PStr "http://example.com/ep1.mp3")
           Scenario.ep1_path 1 Scenario.ready _ ConnectionError);
    vm_compute; reflexivity.
Defined.

(** ** Feeds with fewer than two items *)

Lemma lookup_push_data_same (item : list (string * pyval)) (k : string) (d : pyval) :
  lookup (push_data item k d) k
  = Some (match lookup item k with
          | None => d
          | Some (PList l) => PList (l ++ [d])
          | Some v => PList [v; d]
          end).
Proof.
  induction item as [|[k' v] item IH]; cbn [push_data lookup].
  - rewrite String.eqb_refl. reflexivity.
  - destruct (String.eqb k' k) eqn:E; cbn [lookup]; rewrite E; [|exact IH].
    destruct v; reflexivity.
Qed.

Lemma lookup_push_data_other (item : list (string * pyval)) (k k' : string) (d : pyval) :
  k' <> k -> lookup (push_data item k d) k' = lookup item k'.
Proof.
  intros Hne. induction item as [|[k0 v] item IH]; cbn [push_data lookup].
  - apply String.eqb_neq in Hne. rewrite String.eqb_sym, Hne. reflexivity.
  - destruct (String.eqb k0 k) eqn:E; cbn [lookup]; [|rewrite IH; reflexivity].
    apply String.eqb_eq in E. subst k0.
    assert (N : String.eqb k k' = false) by (apply String.eqb_neq; congruence).
    rewrite N. reflexivity.
Qed.

Lemma push_data_not_nil (item : list (string * pyval)) (k : string) (d : pyval) :
  push_data item k d <> [].
Proof.
  destruct item as [|[k' v] item]; cbn [push_data]; [discriminate|].
  destruct (String.eqb k' k); discriminate.
Qed.

Lemma to_value_eq (tag : string) (attrs : list (string * string)) (children : list xml)
      (text : string) :
  to_value (Element tag attrs children text)
  = let item :=
      fold_left (fun it c => push_data it (fst c) (snd c))
                (map (fun c => (tag_of c, to_value c)) children)
                (map (fun a => (String "@" (fst a), PStr (snd a))) attrs) in
    let data := Text.strip text in
    match item, data with
    | [], EmptyString => PNone
    | [], _ => PStr data
    | _, EmptyString => PDict item
    | _, _ => PDict (push_data item "#text" (PStr data))
    end.
Proof. reflexivity. Qed.

Lemma to_value_plain (c : xml) : plain (to_value c).
Proof.
  destruct c as [tag attrs children text]. rewrite to_value_eq. cbv zeta.
  destruct (fold_left _ _ _) as [|p item]; destruct (Text.strip text);
    cbn [plain]; try discriminate; try exact I.
  apply push_data_not_nil.
Qed.

Lemma entry_snoc (vs : list pyval) (d : pyval) :
  Forall plain vs ->
  Some (match entry vs with
        | None => d
        | Some (PList l) => PList (l ++ [d])
        | Some v => PList [v; d]
        end)
  = entry (vs ++ [d]).
Proof.
  intros Hp. destruct vs as [|v0 [|v1 vs]]; cbn [entry app]; [reflexivity| |reflexivity].
  apply Forall_cons in Hp. destruct Hp as [Hp _].
  destruct v0; try reflexivity. destruct Hp.
Qed.

(** Under a key, the dict of an element holds what the children with that
    tag gave, next to what it held before them. *)
Lemma lookup_children (k : string) (cs : list xml) :
  forall (item : list (string * pyval)) (vs : list pyval),
    Forall plain vs ->
    lookup item k = entry vs ->
    lookup (fold_left (fun it c => push_data it (fst c) (snd c))
                      (map (fun c => (tag_of c, to_value c)) cs) item) k
    = entry (vs ++ map to_value (List.filter (fun c => String.eqb (tag_of c) k) cs)).
Proof.
  induction cs as [|c cs IH]; intros item vs Hp Hl; cbn [map fold_left List.filter fst snd].
  - rewrite app_nil_r. exact Hl.
  - destruct (String.eqb (tag_of c) k) eqn:E.
    + apply String.eqb_eq in E. cbn [map].
      replace (vs ++ to_value c :: map to_value (List.filter (fun c0 => String.eqb (tag_of c0) k) cs))%list
        with ((vs ++ [to_value c]) ++ map to_value (List.filter (fun c0 => String.eqb (tag_of c0) k) cs))%list
        by (rewrite <- app_assoc; reflexivity).
      apply IH.
      * apply Forall_app. split; [exact Hp|]. apply Forall_cons. split; [apply to_value_plain|constructor].
      * rewrite E, lookup_push_data_same, Hl. apply entry_snoc. exact Hp.
    + apply IH; [exact Hp|]. rewrite lookup_push_data_other; [exact Hl|].
      apply String.eqb_neq. rewrite String.eqb_sym. exact E.
Qed.

Lemma lookup_attrs (k : string) (attrs : list (string * string)) :
  String.get 0 k <> Some "@"%char ->
  lookup (map (fun a => (String "@" (fst a), PStr (snd a))) attrs) k = None.
Proof.
  intros Hk. induction attrs as [|a attrs IH]; cbn [map lookup]; [reflexivity|].
  destruct (String.eqb (String "@" (fst a)) k) eqn:E; [|exact IH].
  apply String.eqb_eq in E. subst k. exfalso. apply Hk. reflexivity.
Qed.

(** Reading a tag from the value of an element: one child with the tag
    gives the value of that child, several give the list of their values,
    none gives nothing. *)
Lemma getitem_to_value (x : xml) (k : string) (v : pyval) :
  String.get 0 k <> Some "@"%char -> k <> "#text" ->
  getitem (to_value x) k = Ok v ->
  entry (map to_value (children_named k x)) = Some v.
Proof.
  intros Hk Ht. destruct x as [tag attrs children text]. rewrite to_value_eq.
  cbv zeta. cbn [children_named].
  pose proof (lookup_children k children _ [] ltac:(constructor) (lookup_attrs k attrs Hk))
    as L. cbn [app] in L.
  destruct (fold_left _ _ _) as [|p item]; destruct (Text.strip text);
    cbn [getitem]; try discriminate.
  - rewrite L. destruct (entry _); [intros [= ->]; reflexivity|discriminate].
  - rewrite lookup_push_data_other by exact Ht. rewrite L.
    destruct (entry _); [intros [= ->]; reflexivity|discriminate].
Qed.

Lemma getitem_only_child (x c : xml) (k : string) (v : pyval) :
  String.get 0 k <> Some "@"%char -> k <> "#text" ->
  children_named k x = [c] ->
  getitem (to_value x) k = Ok v -> v = to_value c.
Proof.
  intros Hk Ht Hc H. apply getitem_to_value in H; [|exact Hk|exact Ht].
  rewrite Hc in H. cbn in H. congruence.
Qed.

(** The loop body on a key of a dict or a character of a text. *)
Lemma process_item_text (e : env) (feed_id : Z) (feed_dir : path) (c : string) :
  forall s, raises (process_item e feed_id feed_dir (PStr c)) s.
Proof.
  intros s. unfold process_item. apply raises_bind. intros a s1 E. exfalso.
  unfold reconcile_item in E. apply bind_ok in E. destruct E as (t & s2 & E & _).
  discriminate E.
Qed.

Lemma for_each_plain (e : env) (feed_id : Z) (feed_dir : path) (v : pyval)
      (items : list pyval) :
  plain v -> iter v = Ok items ->
  forall s, raises (for_each (process_item e feed_id feed_dir) items) s.
Proof.
  intros Hp Hi. destruct v as [|t| |kv]; cbn [iter plain] in *.
  - discriminate.
  - injection Hi as <-. destruct t as [|a t]; [contradiction|]. cbn [chars].
    apply (raises_for_each _ _ (PStr (String a EmptyString))); [left; reflexivity|].
    apply process_item_text.
  - contradiction.
  - injection Hi as <-. destruct kv as [|p kv]; [contradiction|]. cbn [map].
    apply (raises_for_each _ _ (PStr (fst p))); [left; reflexivity|].
    apply process_item_text.
Qed.

(** Whatever makes a feed fail, the connection is back at the last commit
    afterwards. *)
Lemma main_step_rollback (e : env) (s : state) (line : string) :
  is_reference line = true ->
  raises (process_one_feed e (Text.strip line)) s ->
  saved (main_step e s line) = saved s /\ con (main_step e s line) = saved s.
Proof.
  intros Href [x R]. unfold main_step. unfold is_reference in Href. rewrite Href.
  pose proof (process_one_feed_extends e (Text.strip line) s) as [S _ _ _].
  destruct (process_one_feed e (Text.strip line) s) as [[u|y] s2]; [discriminate|].
  cbn [snd rollback saved con] in *. split; exact S.
Qed.

(** X5.  A feed whose channel has one item, or none, is never ingested: the
    pass raises (the loop walks the keys or the text of the single item, or
    finds no item at all), and nothing of the feed is committed. *)
Theorem feed_with_fewer_than_two_items_fails (e : env) (line : string) (s s1 : state)
        (text : string) (root channel : xml) :
  is_reference line = true ->
  get_feed_xml e (Text.strip line) s = (Ok text, s1) ->
  expat e text = Some root ->
  children_named "channel" root = [channel] ->
  (List.length (children_named "item" channel) <= 1)%nat ->
  raises (process_one_feed e (Text.strip line)) s
  /\ saved (main_step e s line) = saved s
  /\ con (main_step e s line) = saved s.
Proof.
  intros Href Hx Hroot Hch Hfew.
  assert (R : raises (process_one_feed e (Text.strip line)) s).
  { unfold process_one_feed. apply raises_bind. intros text' s1' E.
    rewrite Hx in E. injection E as <- <-.
    apply raises_lift_bind. intros doc E. unfold xmltodict_parse in E.
    rewrite Hroot in E. injection E as <-.
    apply raises_lift_bind. intros rss E1.
    assert (Hrss : rss = to_value root).
    { unfold xmltodict_of in E1. cbn [push_data getitem lookup] in E1.
      destruct (String.eqb (tag_of root) "rss"); congruence. }
    subst rss.
    apply raises_lift_bind. intros ch E2.
    apply (getitem_only_child root channel) in E2;
      [subst ch|discriminate|discriminate|exact Hch].
    apply raises_lift_bind. intros title _.
    apply raises_bind. intros feed_id s2 _.
    apply raises_lift_bind. intros name _.
    apply raises_bind. intros u s3 _.
    apply raises_lift_bind. intros v E3.
    apply getitem_to_value in E3; [|discriminate|discriminate].
    assert (Hv : plain v).
    { destruct (children_named "item" channel) as [|c [|c' cs]]; cbn in E3, Hfew.
      - discriminate.
      - injection E3 as <-. apply to_value_plain.
      - lia. }
    apply raises_lift_bind. intros items Hi.
    apply (for_each_plain e feed_id _ v items Hv Hi). }
  split; [exact R|]. apply main_step_rollback; assumption.
Qed.

Lemma feed_with_fewer_than_two_items_fails_witness :
  raises (process_one_feed Scenario.empty_site (Text.strip Scenario.feed_url))
         (start None ∅)
  /\ saved (main_step Scenario.empty_site (start None ∅) Scenario.feed_url)
     = saved (start None ∅)
  /\ con (main_step Scenario.empty_site (start None ∅) Scenario.feed_url)
     = saved (start None ∅).
Proof.
  assert (Hx : exists s',
             get_feed_xml Scenario.empty_site (Text.strip Scenario.feed_url)
                          (start None ∅)
             = (Ok (Scenario.render Scenario.empty_feed), s')).
  { eexists. vm_compute. reflexivity. }
  destruct Hx as [s' Hx].
  apply (feed_with_fewer_than_two_items_fails Scenario.empty_site Scenario.feed_url
           (start None ∅) s' (Scenario.render Scenario.empty_feed) Scenario.empty_feed
           (Element "channel" [] [Scenario.leaf "title" "Example Show"] EmptyString)).
  - vm_compute. reflexivity.
  - exact Hx.
  - vm_compute. reflexivity.
  - vm_compute. reflexivity.
  - vm_compute. lia.
Defined.

(** ** The lines of the feeds file *)

Lemma main_step_skips (e : env) (s : state) (line : string) :
  is_reference line = false -> main_step e s line = s.
Proof. intros H. unfold main_step. unfold is_reference in H. rewrite H. reflexivity. Qed.

Lemma main_loop_references (e : env) (lines : list string) :
  forall s,
    fold_left (main_step e) lines s
    = fold_left (main_step e) (List.filter is_reference lines) s.
Proof.
  induction lines as [|line lines IH]; intros s; [reflexivity|].
  cbn [fold_left List.filter]. destruct (is_reference line) eqn:E.
  - cbn [fold_left]. apply IH.
  - rewrite (main_step_skips e s line E). apply IH.
Qed.

(** X6.  Blank lines and lines that start with [#] (white space around them
    aside) count for nothing: a run on a feeds file is the run on its other
    lines, down to the requests sent and the readings of the clock. *)
Theorem main_ignores_comments (e : env) (feeds_file : list string) (file : option db)
        (t : fs) :
  main e feeds_file file t = main e (List.filter is_reference feeds_file) file t.
Proof. unfold main. rewrite main_loop_references. reflexivity. Qed.

(** ** File names *)

Lemma concat_char (c : ascii) (t : string) :
  String.append (String c EmptyString) t = String c t.
Proof. reflexivity. Qed.

Lemma keeps_char (c : ascii) : DownloadFeeds.keeps (PStr (String c EmptyString)) = Ok (allowed c).
Proof.
  unfold DownloadFeeds.keeps, allowed, Text.isalnum. cbn [Text.all_chars].
  rewrite andb_true_r. reflexivity.
Qed.

Lemma kept_chars (s : string) :
  exists out, kept (chars s) = Ok out /\ Text.all_chars allowed out = true
              /\ (Text.all_chars allowed s = true -> out = s).
Proof.
  induction s as [|c s (out & IH & Hall & Hid)]; cbn [chars kept].
  - exists EmptyString. repeat split.
  - rewrite keeps_char, IH. cbn [str]. rewrite concat_char.
    destruct (allowed c) eqn:A.
    + exists (String c out). split; [reflexivity|]. cbn [Text.all_chars]. rewrite A.
      split; [exact Hall|]. intros H. rewrite (Hid H). reflexivity.
    + exists out. split; [reflexivity|]. split; [exact Hall|].
      cbn [Text.all_chars]. rewrite A. discriminate.
Qed.

Lemma rstrip_all (p : ascii -> bool) (s : string) :
  Text.all_chars p s = true -> Text.all_chars p (Text.rstrip s) = true.
Proof.
  induction s as [|c s IH]; cbn [Text.rstrip Text.all_chars]; [trivial|].
  intros H. apply andb_true_iff in H. destruct H as [Hc Hs]. specialize (IH Hs).
  destruct (Text.rstrip s) as [|c' r].
  - destruct (Text.isspace_char c); cbn [Text.all_chars]; [reflexivity|].
    rewrite Hc. reflexivity.
  - cbn [Text.all_chars] in *. rewrite Hc. exact IH.
Qed.

Lemma rstrip_idem (s : string) : Text.rstrip (Text.rstrip s) = Text.rstrip s.
Proof.
  induction s as [|c s IH]; cbn [Text.rstrip]; [reflexivity|].
  destruct (Text.rstrip s) as [|c' r] eqn:E.
  - destruct (Text.isspace_char c) eqn:W; [reflexivity|].
    cbn [Text.rstrip]. rewrite W. reflexivity.
  - change (Text.rstrip (String c (String c' r))) with
      (match Text.rstrip (String c' r) with
       | EmptyString => if Text.isspace_char c then EmptyString else String c EmptyString
       | r' => String c r'
       end).
    rewrite IH. reflexivity.
Qed.

Lemma allowed_no_slash (s : string) :
  Text.all_chars allowed s = true -> no_slash s.
Proof.
  unfold no_slash. induction s as [|c s IH]; cbn [Text.all_chars]; [trivial|].
  intros H. apply andb_true_iff in H. destruct H as [Hc Hs]. rewrite (IH Hs), andb_true_r.
  destruct (Ascii.eqb c "/") eqn:E; [|reflexivity].
  apply Ascii.eqb_eq in E. subst c. vm_compute in Hc. discriminate Hc.
Qed.

(** X7.  [safe_filename] of a text always returns; the name it returns holds
    only letters, digits, spaces, dots, underscores and hyphens (so no
    slash), does not end in a space, and is a name that [safe_filename]
    leaves as it is. *)
Theorem safe_filename_is_safe (fname : string) :
  exists name,
    safe_filename (PStr fname) = Ok name
    /\ Text.all_chars allowed name = true
    /\ no_slash name
    /\ Text.rstrip name = name
    /\ safe_filename (PStr name) = Ok name.
Proof.
  destruct (kept_chars fname) as (out & Hk & Hall & _).
  exists (Text.rstrip out). unfold safe_filename. cbn [iter]. rewrite Hk.
  pose proof (rstrip_all allowed out Hall) as Hr.
  split; [reflexivity|]. split; [exact Hr|]. split; [apply allowed_no_slash, Hr|].
  split; [apply rstrip_idem|].
  destruct (kept_chars (Text.rstrip out)) as (out' & Hk' & _ & Hid).
  rewrite Hk', (Hid Hr), rstrip_idem. reflexivity.
Qed.

(** ** Items whose guid has no attribute *)

(** [item["guid"]["#text"]] needs the guid to be a dict, which it is only
    when the element has an attribute (or a child). *)
Lemma process_item_plain_guid (e : env) (feed_id : Z) (feed_dir : path) (item : pyval)
      (g : pyval) :
  getitem item "guid" = Ok g ->
  (forall kv, g <> PDict kv) ->
  forall s, raises (process_item e feed_id feed_dir item) s.
Proof.
  intros Hg Hn s. unfold process_item. apply raises_bind. intros a s1 E. exfalso.
  unfold reconcile_item in E. do 7 inv_lift E. inv_bind E. inv_lift E. inv_lift E.
  match goal with
  | H1 : getitem item "guid" = Ok ?v, H2 : getitem ?v "#text" = Ok _ |- _ =>
      rewrite Hg in H1; injection H1 as <-; destruct g; try discriminate H2;
      eapply Hn; reflexivity
  end.
Qed.

Lemma to_value_leaf (tag text : string) :
  forall kv, to_value (Element tag [] [] text) <> PDict kv.
Proof.
  intros kv. rewrite to_value_eq. cbn. destruct (Text.strip text); discriminate.
Qed.

(** X8.  A feed in which the guid of some item is a bare element (text, no
    attribute) is not ingested: reading the text of the guid raises, and
    nothing of the feed is committed. *)
Theorem bare_guid_aborts_feed (e : env) (line : string) (s s' : state)
        (text : string) (root : xml) (items : list pyval) (item : xml) (guid : string) :
  is_reference line = true ->
  get_feed_xml e (Text.strip line) s = (Ok text, s') ->
  expat e text = Some root ->
  items_of (xmltodict_of root) = Ok items ->
  In (to_value item) items ->
  children_named "guid" item = [Element "guid" [] [] guid] ->
  raises (process_one_feed e (Text.strip line)) s
  /\ saved (main_step e s line) = saved s
  /\ con (main_step e s line) = saved s.
Proof.
  intros Href Hx Hroot Hi Hin Hg.
  destruct (items_of_ok _ items Hi) as (rss & channel & v & Hr & Hc & Hv & Hit).
  assert (R : raises (process_one_feed e (Text.strip line)) s).
  { unfold process_one_feed. apply raises_bind. intros text' s1 E.
    rewrite Hx in E. injection E as <- <-.
    apply raises_lift_bind. intros doc' E. unfold xmltodict_parse in E.
    rewrite Hroot in E. injection E as <-.
    apply raises_lift_bind. intros rss' E. rewrite Hr in E. injection E as <-.
    apply raises_lift_bind. intros ch' E. rewrite Hc in E. injection E as <-.
    apply raises_lift_bind. intros title _.
    apply raises_bind. intros feed_id s2 _.
    apply raises_lift_bind. intros name _.
    apply raises_bind. intros u s3 _.
    apply raises_lift_bind. intros v' E. rewrite Hv in E. injection E as <-.
    apply raises_lift_bind. intros items' E. rewrite Hit in E. injection E as <-.
    apply (raises_for_each _ _ (to_value item) Hin).
    destruct (getitem (to_value item) "guid") as [g|x] eqn:G.
    - apply (process_item_plain_guid e feed_id _ _ g G).
      apply (getitem_only_child item (Element "guid" [] [] guid) "guid" g) in G;
        [|discriminate|discriminate|exact Hg].
      subst g. apply to_value_leaf.
    - intros s0. unfold process_item. apply raises_bind. intros a s1 E. exfalso.
      unfold reconcile_item in E. do 7 inv_lift E. inv_bind E. inv_lift E.
      congruence. }
  split; [exact R|]. apply main_step_rollback; assumption.
Qed.

Lemma bare_guid_aborts_feed_witness :
  raises (process_one_feed Scenario.bare_site (Text.strip Scenario.feed_url))
         (start None ∅)
  /\ saved (main_step Scenario.bare_site (start None ∅) Scenario.feed_url)
     = saved (start None ∅)
  /\ con (main_step Scenario.bare_site (start None ∅) Scenario.feed_url)
     = saved (start None ∅).
Proof.
  assert (Hx : exists s',
             get_feed_xml Scenario.bare_site (Text.strip Scenario.feed_url)
                          (start None ∅)
             = (Ok (Scenario.render Scenario.bare_feed), s')).
  { eexists. vm_compute. reflexivity. }
  destruct Hx as [s' Hx].
  apply (bare_guid_aborts_feed Scenario.bare_site Scenario.feed_url
           (start None ∅) s' (Scenario.render Scenario.bare_feed) Scenario.bare_feed
           (map to_value [Scenario.ep1; Scenario.ep_bare]) Scenario.ep_bare "def456").
  - vm_compute. reflexivity.
  - exact Hx.
  - vm_compute. reflexivity.
  - vm_compute. reflexivity.
  - right. left. reflexivity.
  - vm_compute. reflexivity.
Defined.

(** ** Recorded paths lead to files *)

Lemma untouched_file_at (t t' : fs) (p : path) (data : string) :
  untouched t t' -> file_at t p = Some data -> file_at t' p = Some data.
Proof.
  intros G. unfold file_at. intros H.
  destruct (walk t [] (parts p)) as [loc|] eqn:W; [|discriminate].
  rewrite (untouched_walk _ _ _ G _ _ W).
  destruct (at_loc t loc) as [[|d]|] eqn:A; try discriminate.
  rewrite (G _ _ A). exact H.
Qed.

Lemma backed_tree (d0 : db) (t t' : fs) (d : db) :
  untouched t t' -> backed d0 t d -> backed d0 t' d.
Proof.
  intros U B r p Hin Hp. destruct (B r p Hin Hp) as [H|[data H]]; [left; exact H|].
  right. exists data. exact (untouched_file_at _ _ _ _ U H).
Qed.

Lemma backed_start (d0 : db) (t : fs) : backed d0 t d0.
Proof. intros r p Hin Hp. left. exists r. repeat split; assumption. Qed.

Lemma backing_refl (d0 : db) (s : state) : backing d0 s s.
Proof. split; [apply intact_refl|]. split; [reflexivity|trivial]. Qed.

Lemma backing_trans (d0 : db) (s1 s2 s3 : state) :
  backing d0 s1 s2 -> backing d0 s2 s3 -> backing d0 s1 s3.
Proof.
  intros (I12 & S12 & B12) (I23 & S23 & B23).
  split; [eapply intact_trans; eassumption|]. split; [congruence|].
  intros B. exact (B23 (B12 B)).
Qed.

Lemma backing_on_con {A} (d0 : db) (m : M db A) :
  (forall t d, backed d0 t d -> backed d0 t (snd (m d))) ->
  preserves (backing d0) (on_con m).
Proof.
  intros H s. unfold on_con. specialize (H (tree s) (con s)).
  destruct (m (con s)) as [r d]. unfold backing, intact.
  cbn [snd tree set_con saved con] in *.
  split; [apply untouched_refl|]. split; [reflexivity|exact H].
Qed.

Lemma backing_mkdir (d0 : db) (parents exist_ok : bool) (p : path) :
  preserves (backing d0) (on_tree (fun t => mkdir parents exist_ok t p)).
Proof.
  intros s. pose proof (intact_mkdir parents exist_ok p s) as U.
  split; [exact U|]. unfold on_tree in *.
  destruct (mkdir parents exist_ok (tree s) p) as [r t']. split; [reflexivity|].
  cbn [snd con tree set_tree] in *. apply backed_tree. exact U.
Qed.

Lemma backed_upsert_feed (d0 : db) (now url : string) (title doc : pyval) (t : fs)
      (d : db) :
  backed d0 t d -> backed d0 t (snd (upsert_feed now url title doc d)).
Proof.
  intros B r p Hin. destruct (upsert_feed_shape now url title doc d) as [E _].
  rewrite E in Hin. exact (B r p Hin).
Qed.

Lemma backed_upsert_feed_item (d0 : db) (q : engine) (now : string) (feed_id : Z) (guid : pyval)
      (a : item_args) (t : fs) (d : db) :
  backed d0 t d -> backed d0 t (snd (upsert_feed_item q now feed_id guid a d)).
Proof.
  intros B.
  destruct (upsert_feed_item_cases q now feed_id guid a d)
    as [[x ->]|[(g & m & _ & _ & _ & ->)|(g & m & r0 & _ & _ & _ & _ & _ & ->)]];
    cbn [snd]; [exact B| |].
  - intros r p Hin Hp. cbn [feed_item set_feed_items] in Hin.
    apply in_app_or in Hin. destruct Hin as [Hin|[<-|[]]]; [exact (B r p Hin Hp)|].
    discriminate Hp.
  - intros r p Hin Hp. cbn [feed_item set_feed_items] in Hin. unfold updated in Hin.
    apply in_map_iff in Hin. destruct Hin as (x & <- & Hin).
    destruct (feed_item_id x =? feed_item_id r0); [|exact (B x p Hin Hp)].
    exact (B x p Hin Hp).
Qed.

Lemma backed_select (d0 : db) (id : Z) (t : fs) (d : db) :
  backed d0 t d -> backed d0 t (snd (select_download_path id d)).
Proof. rewrite select_download_path_same. trivial. Qed.

Lemma backing_get_feed_xml (d0 : db) (e : env) (feed_url : string) :
  preserves (backing d0) (get_feed_xml e feed_url).
Proof.
  intros s. unfold get_feed_xml.
  destruct (Text.strip_prefix "file://" feed_url) as [name|]; [apply backing_refl|].
  unfold Eff.bind, requests_get, raise, lift, ret. cbn [snd fst].
  assert (G : forall r q ds,
             backing d0 s {| con := con s; saved := saved s; tree := tree s;
                             ticks := r; requests := q; downloads := ds |}).
  { intros r q ds. split; [apply untouched_refl|]. split; [reflexivity|trivial]. }
  destruct (http_get e _ feed_url) as [x|r]; [apply G|].
  destruct (broken r); [apply G|].
  destruct (raise_for_status r); apply G.
Qed.

Lemma linked_parse (d : db) (id : Z) (f : path) :
  linked d id f -> Path [as_posix f] = f.
Proof.
  intros (r & _ & H). rewrite Path_one.
  destruct (i_download_path r); cbn [resolved_from] in H.
  - destruct H as [text ->]. apply parse_as_posix.
  - contradiction.
  - subst f. rewrite Path_one. apply parse_as_posix.
  - contradiction.
Qed.

Lemma backing_process_item (d0 : db) (e : env) (feed_id : Z) (feed_dir : path)
      (item : pyval) :
  preserves (backing d0) (process_item e feed_id feed_dir item).
Proof.
  intros s. unfold process_item, Eff.bind.
  assert (Hr : backing d0 s (snd (reconcile_item e feed_id feed_dir item s))).
  { apply reconcile_item_preserves.
    - apply backing_refl.
    - apply backing_trans.
    - intros p. apply backing_mkdir.
    - intros q now guid a. apply backing_on_con. intros t d.
      apply backed_upsert_feed_item.
    - intros id. apply backing_on_con. intros t d. apply backed_select. }
  destruct (reconcile_item e feed_id feed_dir item s) as [[[[id u] f]|x] s1] eqn:E;
    cbn [snd fst] in *; [|exact Hr].
  destruct (exists_ (tree s1) f) eqn:X; [exact Hr|].
  eapply backing_trans; [exact Hr|].
  pose proof (reconcile_item_linked _ _ _ _ _ _ _ _ _ E) as L.
  unfold download, Eff.bind, note_download.
  set (s2 := {| con := con s1; saved := saved s1; tree := tree s1; ticks := ticks s1;
                requests := requests s1;
                downloads := (downloads s1 ++ [{| for_episode := id; from_url := u;
                                                  destination := f |}])%list |}).
  pose proof (fetch_untouched e u f id s2 X) as U.
  destruct (fetch e u f id s2) as [[[]|x] s3] eqn:F; cbn [snd] in *.
  - destruct (fetch_ok e u f id s2 s3 X F)
      as (url & r & len & n & _ & _ & _ & _ & _ & _ & _ & Hfile & Hup).
    split; [exact U|]. split.
    { pose proof (fetch_fetching e u f id s2) as [S _ _ _]. rewrite F in S. exact S. }
    intros B r0 p Hin Hp.
    pose proof (update_download_path_cases (as_posix f) id (con s2)) as C.
    rewrite Hup in C. cbn [snd] in C. destruct C as [C|C]; rewrite C in Hin.
    + destruct (B r0 p Hin Hp) as [H|[data H]]; [left; exact H|].
      right. exists data. exact (untouched_file_at _ _ _ _ U H).
    + cbn [feed_item set_feed_items] in Hin. unfold with_path in Hin.
      apply in_map_iff in Hin. destruct Hin as (x0 & Hx0 & Hin).
      destruct (feed_item_id x0 =? id).
      * subst r0. cbn in Hp. injection Hp as <-.
        right. exists (Text.concat (body r)). rewrite (linked_parse _ _ _ L).
        exact Hfile.
      * subst r0. destruct (B x0 p Hin Hp) as [H|[data H]]; [left; exact H|].
        right. exists data. exact (untouched_file_at _ _ _ _ U H).
  - destruct (fetch_raise e u f id s2 s3 x X F) as (C & S & _).
    split; [exact U|]. split; [exact S|]. rewrite C. apply backed_tree. exact U.
Qed.

Lemma backing_process_one_feed (d0 : db) (e : env) (feed_url : string) :
  preserves (backing d0) (process_one_feed e feed_url).
Proof.
  pose proof (backing_refl d0) as Rf. pose proof (backing_trans d0) as Tr.
  unfold process_one_feed.
  apply (preserves_bind _ Tr); [apply backing_get_feed_xml|intros text].
  do 4 lift_step Rf Tr.
  apply (preserves_bind _ Tr);
    [apply backing_on_con; intros t d; apply backed_upsert_feed|intros feed_id].
  lift_step Rf Tr.
  apply (preserves_bind _ Tr); [apply backing_mkdir|intros _].
  do 2 lift_step Rf Tr.
  apply (preserves_for_each _ Rf Tr).
  intros item. apply backing_process_item.
Qed.

Lemma backed_main_step (d0 : db) (e : env) (s : state) (line : string) :
  backed d0 (tree s) (con s) -> backed d0 (tree s) (saved s) ->
  backed d0 (tree (main_step e s line)) (con (main_step e s line))
  /\ backed d0 (tree (main_step e s line)) (saved (main_step e s line)).
Proof.
  intros Bc Bs. unfold main_step.
  destruct (negb (String.eqb (Text.strip line) EmptyString)
            && negb (Text.startswith (Text.strip line) "#")); [|split; assumption].
  pose proof (backing_process_one_feed d0 e (Text.strip line) s) as (U & S & B).
  destruct (process_one_feed e (Text.strip line) s) as [[u|x] s']; cbn [snd] in *.
  - cbn [commit tree con saved]. split; exact (B Bc).
  - cbn [rollback tree con saved]. rewrite S.
    split; apply (backed_tree _ _ _ _ U Bs).
Qed.

Lemma backed_main_loop (d0 : db) (e : env) (lines : list string) :
  forall s,
    backed d0 (tree s) (con s) -> backed d0 (tree s) (saved s) ->
    backed d0 (tree (fold_left (main_step e) lines s))
           (con (fold_left (main_step e) lines s)).
Proof.
  induction lines as [|line lines IH]; intros s Bc Bs; [exact Bc|].
  cbn [fold_left]. destruct (backed_main_step d0 e s line Bc Bs) as [Bc' Bs'].
  apply IH; assumption.
Qed.

(** X9.  A download path that a run leaves in the database and that was
    not there for the episode when the run began leads to a file in the
    media tree when the run ends. *)
Theorem recorded_paths_lead_to_files (e : env) (feeds_file : list string)
        (file : option db) (t : fs) (r : feed_item_row) (p : string) :
  In r (feed_item (saved (main e feeds_file file t))) ->
  i_download_path r = SText p ->
  (exists r0, In r0 (feed_item (get_database file))
              /\ feed_item_id r0 = feed_item_id r /\ i_download_path r0 = SText p)
  \/ (exists data, file_at (tree (main e feeds_file file t)) (Path [p]) = Some data).
Proof.
  pose proof (backed_main_loop (get_database file) e feeds_file (start file t)
                (backed_start _ _) (backed_start _ _)) as B.
  intros Hin Hp. exact (B r p Hin Hp).
Qed.

Lemma recorded_paths_lead_to_files_witness :
  let st := main Scenario.pair_site [Scenario.feed_url] None ∅ in
  exists r,
    In r (feed_item (saved st))
    /\ i_download_path r = SText "Example Show/2023-01-02 Ep 1.mp3"
    /\ ((exists r0, In r0 (feed_item (get_database None))
                    /\ feed_item_id r0 = feed_item_id r
                    /\ i_download_path r0 = SText "Example Show/2023-01-02 Ep 1.mp3")
        \/ (exists data,
              file_at (tree st) (Path ["Example Show/2023-01-02 Ep 1.mp3"]) = Some data)).
Proof.
  set (r := {| feed_item_id := 1; i_feed_id := SInt 1; i_guid := SText "abc123";
               i_date_added := SText "2023-01-03 12:00:00"; i_title := SText "Ep 1";
               i_description := SText "About this episode";
               i_pub_date := SText "2023-01-02T10:00:00"; i_itunes_duration := SNull;
               i_enclosure_url := SText "http://example.com/ep1.mp3";
               i_enclosure_length := SInt 100;
               i_enclosure_type := SText "audio/mpeg"; i_itunes_season := SNull;
               i_download_path := SText "Example Show/2023-01-02 Ep 1.mp3" |}).
  assert (Hin : In r (feed_item (saved (main Scenario.pair_site [Scenario.feed_url]
                                             None ∅))))
    by (vm_compute; left; reflexivity).
  exists r. split; [exact Hin|]. split; [reflexivity|].
  exact (recorded_paths_lead_to_files Scenario.pair_site [Scenario.feed_url] None ∅ r
           "Example Show/2023-01-02 Ep 1.mp3" Hin eq_refl).
Defined.

(** ** The query tool on a database of the ingestion job *)

Lemma upsert_feed_tables (now url : string) (title doc : pyval) (d : db) :
  tables (snd (upsert_feed now url title doc d)) = tables d.
Proof. destruct (upsert_feed_store now url title doc d) as [T _]. exact T. Qed.














Lemma upsert_feed_item_tables (q : engine) (now : string) (feed_id : Z) (guid : pyval)
      (a : item_args) (d : db) :
  tables (snd (upsert_feed_item q now feed_id guid a d)) = tables d.
Proof. destruct (upsert_feed_item_store q now feed_id guid a d) as [T _]. exact T. Qed.

Lemma update_download_path_tables (p : string) (id : Z) (d : db) :
  tables (snd (update_download_path p id d)) = tables d.
Proof. destruct (update_download_path_cases p id d) as [->| ->]; reflexivity. Qed.

Lemma upsert_feed_listed (now url : string) (title doc : pyval) (d : db) :
  listed d -> listed (snd (upsert_feed now url title doc d)).
Proof.
  intros (Hs & Hk & Hu).
  split; [unfold has_schema; rewrite upsert_feed_tables; exact Hs|].
  split; [apply upsert_feed_keyed; exact Hk|].
  destruct (upsert_feed_shape now url title doc d)
    as [_ [E|[(_ & row & Hrow & E)|[t E]]]]; rewrite E.
  - exact Hu.
  - intros f Hin. apply in_app_or in Hin. destruct Hin as [Hin|[<-|[]]];
      [exact (Hu f Hin)|exists url; exact Hrow].
  - intros f Hin. unfold retitled in Hin. apply in_map_iff in Hin.
    destruct Hin as (x & <- & Hin). destruct (Hu x Hin) as [u Hx]. exists u.
    destruct (sql_eq (f_feed_url x) (SText url)); exact Hx.
Qed.

Lemma upsert_feed_item_listed (q : engine) (now : string) (feed_id : Z) (guid : pyval)
      (a : item_args) (d : db) :
  listed d -> listed (snd (upsert_feed_item q now feed_id guid a d)).
Proof.
  intros (Hs & Hk & Hu).
  split; [unfold has_schema; rewrite upsert_feed_item_tables; exact Hs|].
  split; [apply upsert_feed_item_keyed; exact Hk|].
  destruct (upsert_feed_item_cases q now feed_id guid a d)
    as [[x ->]|[(g & m & _ & _ & _ & ->)|(g & m & r0 & _ & _ & _ & _ & _ & ->)]];
    exact Hu.
Qed.

Lemma update_download_path_listed (p : string) (id : Z) (d : db) :
  listed d -> listed (snd (update_download_path p id d)).
Proof.
  intros (Hs & Hk & Hu).
  split; [unfold has_schema; rewrite update_download_path_tables; exact Hs|].
  split; [apply update_download_path_keyed; exact Hk|].
  destruct (update_download_path_cases p id d) as [->| ->]; exact Hu.
Qed.

Lemma created_listed : listed created.
Proof.
  split; [reflexivity|]. split; [exact created_keyed|]. intros f [].
Qed.

Lemma runs_listed (rs : list run) : listed (get_database (runs rs None)).
Proof.
  apply (runs_keep listed upsert_feed_listed upsert_feed_item_listed
           update_download_path_listed rs None).
  exact created_listed.
Qed.

Lemma urls_once (l : list feed_row) :
  (forall f, In f l -> exists u, f_feed_url f = SText u) ->
  (forall url, (List.length (List.filter (is_feed url) l) <= 1)%nat) ->
  List.NoDup (map f_feed_url l).
Proof.
  induction l as [|a l IH]; intros Hu Hk; [constructor|].
  cbn [map]. constructor.
  - intros Hin. apply in_map_iff in Hin. destruct Hin as (b & Hb & Hin).
    destruct (Hu a (or_introl eq_refl)) as [u Ha].
    specialize (Hk u). cbn [List.filter] in Hk.
    assert (Fa : is_feed u a = true) by (unfold is_feed; rewrite Ha; cbn; apply String.eqb_refl).
    assert (Fb : is_feed u b = true)
      by (unfold is_feed; rewrite Hb, Ha; cbn; apply String.eqb_refl).
    rewrite Fa in Hk. cbn [List.length] in Hk.
    assert (In b (List.filter (is_feed u) l)) by (apply filter_In; split; assumption).
    destruct (List.filter (is_feed u) l); [contradiction|]. cbn in Hk. lia.
  - apply IH.
    + intros f Hin. apply Hu. right. exact Hin.
    + intros url. specialize (Hk url). cbn [List.filter] in Hk.
      destruct (is_feed url a); cbn [List.length] in Hk; lia.
Qed.

(** X12.  On a database that runs of the ingestion job have built,
    [list_feeds] of the query tool does not fail and prints every Feed row,
    and no URL shows twice. *)
Theorem list_feeds_shows_each_url_once (rs : list run) :
  let d := get_database (runs rs None) in
  FeedCli.list_feeds d = Ok (feed d)
  /\ List.NoDup (map f_feed_url (feed d)).
Proof.
  cbv zeta. destruct (runs_listed rs) as (Hs & (_ & Hk & _) & Hu).
  split.
  - unfold FeedCli.list_feeds. prepared_ok Hs. reflexivity.
  - apply urls_once; [exact Hu|]. intros url. exact (Hk url).
Qed.











(** *** LIKE with a needle between two [%] *)











(** ** The order of stored dates *)

Section Parsed.
Context {A : Type}.

Lemma orelse_some (a b : option A) (r : A) :
  Datetime.orelse a b = Some r -> a = Some r \/ b = Some r.
Proof. destruct a; cbn; auto. Qed.

Lemma digit_value_range (a : ascii) :
  Text.isdigit_char a = true -> 0 <= Text.digit_value a <= 9.
Proof.
  unfold Text.isdigit_char, Text.between, Text.digit_value. intros H.
  apply andb_true_iff in H. destruct H as [H1 H2].
  apply N.leb_le in H1. apply N.leb_le in H2. lia.
Qed.

Lemma digit1_some (s : string) (k : Z -> string -> option A) (r : A) :
  Datetime.digit1 s k = Some r ->
  exists v rest, 0 <= v <= 9 /\ k v rest = Some r.
Proof.
  unfold Datetime.digit1. destruct s as [|a s]; [discriminate|].
  destruct (Text.isdigit_char a) eqn:D; [|discriminate].
  intros H. exists (Text.digit_value a), s. split; [apply digit_value_range, D|exact H].
Qed.

Lemma digit2_some (ok : Z -> Z -> bool) (s : string) (k : Z -> string -> option A)
      (r : A) :
  Datetime.digit2 ok s k = Some r ->
  exists v rest, 0 <= v <= 99 /\ k v rest = Some r.
Proof.
  unfold Datetime.digit2. destruct s as [|a [|b s]]; try discriminate.
  destruct (Text.isdigit_char a) eqn:Da; [|discriminate].
  destruct (Text.isdigit_char b) eqn:Db; [|discriminate].
  cbn [andb]. destruct (ok _ _); [|discriminate].
  intros H. exists (10 * Text.digit_value a + Text.digit_value b), s.
  pose proof (digit_value_range a Da). pose proof (digit_value_range b Db).
  split; [lia|exact H].
Qed.

Lemma two_digits_some (ok : Z -> Z -> bool) (s : string) (k k' : Z -> string -> option A)
      (r : A) :
  (forall v rest, k' v rest = Some r -> k v rest = Some r) ->
  Datetime.orelse (Datetime.digit2 ok s k) (Datetime.digit1 s k') = Some r ->
  exists v rest, 0 <= v <= 99 /\ k v rest = Some r.
Proof.
  intros Hk H. apply orelse_some in H. destruct H as [H|H].
  - exact (digit2_some _ _ _ _ H).
  - apply digit1_some in H. destruct H as (v & rest & Hv & H).
    exists v, rest. split; [lia|apply Hk; exact H].
Qed.

Lemma directive_d_some (s : string) (k : Z -> string -> option A) (r : A) :
  Datetime.directive_d s k = Some r ->
  exists v rest, 0 <= v <= 99 /\ k v rest = Some r.
Proof.
  apply two_digits_some. intros v rest. destruct (1 <=? v); [trivial|discriminate].
Qed.

Lemma directive_H_some (s : string) (k : Z -> string -> option A) (r : A) :
  Datetime.directive_H s k = Some r ->
  exists v rest, 0 <= v <= 99 /\ k v rest = Some r.
Proof. apply two_digits_some. trivial. Qed.

Lemma directive_M_some (s : string) (k : Z -> string -> option A) (r : A) :
  Datetime.directive_M s k = Some r ->
  exists v rest, 0 <= v <= 99 /\ k v rest = Some r.
Proof. apply two_digits_some. trivial. Qed.

Lemma directive_S_some (s : string) (k : Z -> string -> option A) (r : A) :
  Datetime.directive_S s k = Some r ->
  exists v rest, 0 <= v <= 99 /\ k v rest = Some r.
Proof. apply two_digits_some. trivial. Qed.

Lemma directive_Y_some (s : string) (k : Z -> string -> option A) (r : A) :
  Datetime.directive_Y s k = Some r ->
  exists v rest, 0 <= v <= 9999 /\ k v rest = Some r.
Proof.
  unfold Datetime.directive_Y. intros H.
  apply digit2_some in H. destruct H as (hi & r1 & Hhi & H).
  apply digit2_some in H. destruct H as (lo & r2 & Hlo & H).
  exists (100 * hi + lo), r2. split; [lia|exact H].
Qed.

Lemma name_from_some (names : list string) :
  forall (i : Z) (s : string) (k : Z -> string -> option A) (r : A),
    Datetime.name_from i names s k = Some r ->
    exists j rest, i <= j < i + Z.of_nat (List.length names) /\ k j rest = Some r.
Proof.
  induction names as [|n names IH]; intros i s k r H; cbn [Datetime.name_from] in H;
    [discriminate|].
  apply orelse_some in H. destruct H as [H|H].
  - destruct (Text.strip_prefix_ci n s) as [rest|]; [|discriminate].
    exists i, rest. cbn [List.length]. split; [lia|exact H].
  - destruct (IH _ _ _ _ H) as (j & rest & Hj & Hr). exists j, rest.
    cbn [List.length]. split; [lia|exact Hr].
Qed.

Lemma lit_some (c : ascii) (s : string) (k : string -> option A) (r : A) :
  Datetime.lit c s k = Some r -> exists rest, k rest = Some r.
Proof.
  unfold Datetime.lit. destruct s as [|a s]; [discriminate|].
  destruct (Ascii.eqb a c); [|discriminate]. intros H. exists s. exact H.
Qed.

Lemma spaces_some (s : string) (k : string -> option A) (r : A) :
  Datetime.spaces s k = Some r -> exists rest, k rest = Some r.
Proof.
  unfold Datetime.spaces. destruct s as [|a s]; [discriminate|].
  destruct (Text.isspace_char a); [|discriminate]. intros H. eexists. exact H.
Qed.
End Parsed.

(** What [strptime] returns has a year of four digits and two digits in
    every other field. *)
Lemma strptime_fields (local : list string) (s : string) (dt : Datetime.datetime) :
  Datetime.strptime local s = Some dt ->
  0 <= Datetime.year dt <= 9999
  /\ Forall (fun v => 0 <= v <= 99)
            [Datetime.month dt; Datetime.day dt; Datetime.hour dt;
             Datetime.minute dt; Datetime.second dt].
Proof.
  unfold Datetime.strptime.
  destruct (Datetime.match_format local s) as [[dt' [|c rest]]|] eqn:M; try discriminate.
  destruct (_ && _); [|discriminate]. intros [= ->].
  unfold Datetime.match_format in M.
  apply name_from_some in M. destruct M as (_ & s1 & _ & M).
  apply lit_some in M. destruct M as (s2 & M).
  apply spaces_some in M. destruct M as (s3 & M).
  apply directive_d_some in M. destruct M as (d & s4 & Hd & M).
  apply spaces_some in M. destruct M as (s5 & M).
  apply name_from_some in M. destruct M as (m & s6 & Hm & M).
  apply spaces_some in M. destruct M as (s7 & M).
  apply directive_Y_some in M. destruct M as (y & s8 & Hy & M).
  apply spaces_some in M. destruct M as (s9 & M).
  apply directive_H_some in M. destruct M as (H & s10 & HH & M).
  apply lit_some in M. destruct M as (s11 & M).
  apply directive_M_some in M. destruct M as (Mi & s12 & HM & M).
  apply lit_some in M. destruct M as (s13 & M).
  apply directive_S_some in M. destruct M as (S & s14 & HS & M).
  apply spaces_some in M. destruct M as (s15 & M).
  apply name_from_some in M. destruct M as (_ & s16 & _ & M).
  injection M as <- _. cbn. cbn in Hm.
  split; [exact Hy|]. repeat constructor; lia.
Qed.

Lemma compare_cons (c1 c2 : ascii) (s1 s2 : string) :
  String.compare (String c1 s1) (String c2 s2)
  = match Ascii.compare c1 c2 with
    | Eq => String.compare s1 s2
    | c => c
    end.
Proof. cbn [String.compare]. destruct (Ascii.compare c1 c2); reflexivity. Qed.

Lemma compare_same (c : ascii) (s1 s2 : string) :
  String.compare (String c s1) (String c s2) = String.compare s1 s2.
Proof.
  rewrite compare_cons. unfold Ascii.compare. rewrite N.compare_refl. reflexivity.
Qed.

Lemma digit_char_compare (a b : Z) :
  Ascii.compare (Text.digit_char a) (Text.digit_char b) = (a mod 10 ?= b mod 10).
Proof.
  unfold Ascii.compare, Text.digit_char.
  pose proof (Z.mod_pos_bound a 10 ltac:(lia)). pose proof (Z.mod_pos_bound b 10 ltac:(lia)).
  rewrite !N_ascii_embedding by lia.
  rewrite Z2N.inj_compare by lia. apply Z.add_compare_mono_l.
Qed.

Lemma pad2_compare (a b : Z) (r1 r2 : string) :
  0 <= a <= 99 -> 0 <= b <= 99 ->
  String.compare (String (Text.digit_char (a / 10)) (String (Text.digit_char a) r1))
                 (String (Text.digit_char (b / 10)) (String (Text.digit_char b) r2))
  = match a ?= b with
    | Eq => String.compare r1 r2
    | c => c
    end.
Proof.
  intros Ha Hb. rewrite !compare_cons, !digit_char_compare.
  destruct (Z.compare_spec ((a / 10) mod 10) ((b / 10) mod 10)) as [E1|E1|E1];
    destruct (Z.compare_spec (a mod 10) (b mod 10)) as [E2|E2|E2];
    destruct (Z.compare_spec a b) as [E|E|E]; try reflexivity;
    exfalso; Z.div_mod_to_equations; lia.
Qed.

Lemma pad4_compare (a b : Z) (r1 r2 : string) :
  0 <= a <= 9999 -> 0 <= b <= 9999 ->
  String.compare
    (String (Text.digit_char (a / 1000))
       (String (Text.digit_char (a / 100))
          (String (Text.digit_char (a / 10)) (String (Text.digit_char a) r1))))
    (String (Text.digit_char (b / 1000))
       (String (Text.digit_char (b / 100))
          (String (Text.digit_char (b / 10)) (String (Text.digit_char b) r2))))
  = match a ?= b with
    | Eq => String.compare r1 r2
    | c => c
    end.
Proof.
  intros Ha Hb. rewrite !compare_cons, !digit_char_compare.
  destruct (Z.compare_spec ((a / 1000) mod 10) ((b / 1000) mod 10)) as [E1|E1|E1];
    destruct (Z.compare_spec ((a / 100) mod 10) ((b / 100) mod 10)) as [E2|E2|E2];
    destruct (Z.compare_spec ((a / 10) mod 10) ((b / 10) mod 10)) as [E3|E3|E3];
    destruct (Z.compare_spec (a mod 10) (b mod 10)) as [E4|E4|E4];
    destruct (Z.compare_spec a b) as [E|E|E]; try reflexivity;
    exfalso; Z.div_mod_to_equations; lia.
Qed.

Lemma isoformat_compare (a b : Datetime.datetime) :
  0 <= Datetime.year a <= 9999 ->
  Forall (fun v => 0 <= v <= 99)
         [Datetime.month a; Datetime.day a; Datetime.hour a;
          Datetime.minute a; Datetime.second a] ->
  0 <= Datetime.year b <= 9999 ->
  Forall (fun v => 0 <= v <= 99)
         [Datetime.month b; Datetime.day b; Datetime.hour b;
          Datetime.minute b; Datetime.second b] ->
  String.compare (Datetime.isoformat a) (Datetime.isoformat b)
  = lex_compare (fields a) (fields b).
Proof.
  intros Ya Fa Yb Fb.
  apply Forall_cons in Fa. destruct Fa as [Ma Fa].
  apply Forall_cons in Fa. destruct Fa as [Da Fa].
  apply Forall_cons in Fa. destruct Fa as [Ha Fa].
  apply Forall_cons in Fa. destruct Fa as [Ia Fa].
  apply Forall_cons in Fa. destruct Fa as [Sa _].
  apply Forall_cons in Fb. destruct Fb as [Mb Fb].
  apply Forall_cons in Fb. destruct Fb as [Db Fb].
  apply Forall_cons in Fb. destruct Fb as [Hb Fb].
  apply Forall_cons in Fb. destruct Fb as [Ib Fb].
  apply Forall_cons in Fb. destruct Fb as [Sb _].
  cbv [Datetime.isoformat Text.concat Text.pad4 Text.pad2 String.append].
  rewrite pad4_compare by assumption. rewrite compare_same.
  rewrite pad2_compare by assumption. rewrite compare_same.
  rewrite pad2_compare by assumption. rewrite compare_same.
  rewrite pad2_compare by assumption. rewrite compare_same.
  rewrite pad2_compare by assumption. rewrite compare_same.
  rewrite pad2_compare by assumption.
  reflexivity.
Qed.

(** X14.  The text stored as pub_date orders as the date and time it was
    made from: for two pubDate texts that [strptime] accepts, ORDER BY
    pub_date puts the [isoformat] of the first before or next to the
    [isoformat] of the second exactly when the first is not later, year
    first, then month, day, hour, minute and second. *)
Theorem stored_dates_order (local : list string) (s1 s2 : string)
        (dt1 dt2 : Datetime.datetime) :
  Datetime.strptime local s1 = Some dt1 ->
  Datetime.strptime local s2 = Some dt2 ->
  FeedCli.sql_leb (SText (Datetime.isoformat dt1)) (SText (Datetime.isoformat dt2))
  = match lex_compare (fields dt1) (fields dt2) with
    | Gt => false
    | _ => true
    end.
Proof.
  intros H1 H2.
  destruct (strptime_fields local s1 dt1 H1) as [Y1 F1].
  destruct (strptime_fields local s2 dt2 H2) as [Y2 F2].
  cbn [FeedCli.sql_leb]. rewrite (isoformat_compare dt1 dt2 Y1 F1 Y2 F2). reflexivity.
Qed.

Lemma stored_dates_order_witness :
  FeedCli.sql_leb
    (SText (Datetime.isoformat
              {| Datetime.year := 2023; Datetime.month := 1; Datetime.day := 9;
                 Datetime.hour := 10; Datetime.minute := 0; Datetime.second := 0 |}))
    (SText (Datetime.isoformat
              {| Datetime.year := 2023; Datetime.month := 1; Datetime.day := 2;
                 Datetime.hour := 10; Datetime.minute := 0; Datetime.second := 0 |}))
  = match lex_compare [2023; 1; 9; 10; 0; 0] [2023; 1; 2; 10; 0; 0] with
    | Gt => false
    | _ => true
    end.
Proof.
  apply (stored_dates_order ["UTC"; "UTC"] "Mon, 09 Jan 2023 10:00:00 GMT"
           "Mon, 02 Jan 2023 10:00:00 GMT"); vm_compute; reflexivity.
Defined.

(** ** A second pass over a feed *)

Lemma untouched_exists (t t' : fs) (p : path) :
  untouched t t' -> exists_ t p = true -> exists_ t' p = true.
Proof.
  intros G. unfold exists_. destruct (walk t [] (parts p)) as [loc|] eqn:E; [|discriminate].
  rewrite (untouched_walk _ _ _ G _ _ E). trivial.
Qed.

Lemma present_untouched (t t' : fs) (f : result path) :
  untouched t t' -> present t f -> present t' f.
Proof.
  intros U (p & Hf & Hp). exists p. split; [exact Hf|].
  exact (untouched_exists _ _ _ U Hp).
Qed.

Lemma find_map_same {A} (P : A -> bool) (f : A -> A) (l : list A) :
  (forall x, In x l -> P (f x) = P x) ->
  find P (map f l) = option_map f (find P l).
Proof.
  induction l as [|a l IH]; intros H; cbn [map find option_map]; [reflexivity|].
  rewrite (H a (or_introl eq_refl)). destruct (P a); [reflexivity|].
  apply IH. intros x Hx. apply H. right. exact Hx.
Qed.

Lemma find_app_some {A} (P : A -> bool) (l l' : list A) (r : A) :
  find P l = Some r -> find P (l ++ l') = Some r.
Proof.
  induction l as [|a l IH]; cbn [find app]; [discriminate|].
  destruct (P a); [trivial|exact IH].
Qed.

Lemma find_app_none {A} (P : A -> bool) (l l' : list A) :
  find P l = None -> find P (l ++ l') = find P l'.
Proof.
  induction l as [|a l IH]; cbn [find app]; [reflexivity|].
  destruct (P a); [discriminate|exact IH].
Qed.

Lemma is_episode_null (feed_id : Z) (r : feed_item_row) :
  is_episode feed_id SNull r = false.
Proof. unfold is_episode. destruct (i_guid r); cbn; apply andb_false_r. Qed.

Lemma find_null (feed_id : Z) (l : list feed_item_row) :
  find (is_episode feed_id SNull) l = None.
Proof.
  induction l as [|a l IH]; cbn [find]; [reflexivity|].
  rewrite is_episode_null. exact IH.
Qed.

Lemma is_episode_key (feed_id : Z) (g : sqlval) (r : feed_item_row) :
  is_episode feed_id g r = true -> i_feed_id r = SInt feed_id /\ i_guid r = g.
Proof.
  unfold is_episode. intros H. apply andb_true_iff in H. destruct H as [H1 H2].
  split; apply sql_eq_true; assumption.
Qed.

(** The UPDATE of [upsert_feed_item] changes the key of no row. *)
Lemma updated_key (l : list feed_item_row) (r : feed_item_row) (feed_id : Z)
      (g : sqlval) (m : metadata) (fid : Z) (g' : sqlval) :
  List.NoDup (map feed_item_id l) -> In r l -> is_episode feed_id g r = true ->
  forall x, In x l ->
    is_episode fid g' (if feed_item_id x =? feed_item_id r
                       then with_metadata x g m else x)
    = is_episode fid g' x.
Proof.
  intros Hn Hr Hk x Hx. destruct (feed_item_id x =? feed_item_id r) eqn:E; [|reflexivity].
  apply Z.eqb_eq in E. pose proof (unique_row l r x Hn Hr Hx E) as ->.
  destruct (is_episode_key _ _ _ Hk) as [_ Hg].
  unfold is_episode. cbn. rewrite Hg. reflexivity.
Qed.

Lemma settled_upsert_feed_item (e : env) (fid : Z) (fdir : path) (t : fs)
      (q : engine) (now : string) (guid : pyval) (a : item_args) (d : db) (item : pyval) :
  unique_ids d ->
  settled_item e fid fdir t d item ->
  settled_item e fid fdir t (snd (upsert_feed_item q now fid guid a d)) item.
Proof.
  intros Hn (gi & g & Hg & Hb & Hs).
  exists gi, g. split; [exact Hg|]. split; [exact Hb|].
  destruct (upsert_feed_item_cases q now fid guid a d)
    as [[x ->]|[(g' & m & Hb' & _ & Hnone & ->)|(g' & m & r0 & _ & _ & Hin & Hk & _ & ->)]];
    cbn [snd feed_item set_feed_items]; [exact Hs| |].
  - destruct (find (is_episode fid g) (feed_item d)) as [row|] eqn:F.
    + rewrite (find_app_some _ _ _ _ F). exact Hs.
    + destruct Hs as [-> Hs]. rewrite find_null. split; [reflexivity|exact Hs].
  - unfold updated. rewrite find_map_same.
    + destruct (find (is_episode fid g) (feed_item d)) as [row|]; cbn [option_map];
        [|exact Hs].
      destruct (feed_item_id row =? feed_item_id r0); exact Hs.
    + apply (updated_key _ r0 fid g' m fid g Hn Hin Hk).
Qed.

Lemma upsert_feed_item_unique (q : engine) (now : string) (fid : Z) (guid : pyval) (a : item_args)
      (d : db) :
  unique_ids d -> unique_ids (snd (upsert_feed_item q now fid guid a d)).
Proof.
  intros Hn. unfold unique_ids in *.
  destruct (upsert_feed_item_cases q now fid guid a d)
    as [[x ->]|[(g' & m & _ & _ & _ & ->)|(g' & m & r0 & _ & _ & _ & _ & _ & ->)]];
    cbn [snd feed_item set_feed_items]; [exact Hn| |].
  - rewrite map_app. cbn [map inserted feed_item_id]. apply NoDup_snoc; [exact Hn|].
    apply next_rowid_fresh.
  - destruct (updated_ids (feed_item_id r0) g' m (feed_item d)) as [-> _]. exact Hn.
Qed.

Lemma upsert_feed_item_feed (q : engine) (now : string) (fid : Z) (guid : pyval) (a : item_args)
      (d : db) :
  feed (snd (upsert_feed_item q now fid guid a d)) = feed d.
Proof.
  destruct (upsert_feed_item_cases q now fid guid a d)
    as [[x ->]|[(g' & m & _ & _ & _ & ->)|(g' & m & r0 & _ & _ & _ & _ & _ & ->)]];
    reflexivity.
Qed.

Section Settling.
Variable e : env.
Variable fid : Z.
Variable fdir : path.

Lemma settling_refl (s : state) : settling e fid fdir s s.
Proof.
  split; [apply intact_refl|]. split; [reflexivity|]. intros H. split; [exact H|trivial].
Qed.

Lemma settling_trans (s1 s2 s3 : state) :
  settling e fid fdir s1 s2 -> settling e fid fdir s2 s3 -> settling e fid fdir s1 s3.
Proof.
  intros (I12 & F12 & S12) (I23 & F23 & S23).
  split; [eapply intact_trans; eassumption|]. split; [congruence|].
  intros H. destruct (S12 H) as [H2 K2]. destruct (S23 H2) as [H3 K3].
  split; [exact H3|]. intros item Hi. exact (K3 item (K2 item Hi)).
Qed.

Lemma settling_same (s s' : state) :
  con s' = con s -> tree s' = tree s -> settling e fid fdir s s'.
Proof.
  intros Hc Ht. unfold settling, intact. rewrite Hc, Ht.
  split; [apply untouched_refl|]. split; [reflexivity|].
  intros H. split; [exact H|trivial].
Qed.

Lemma settled_tree (t t' : fs) (d : db) (item : pyval) :
  untouched t t' -> settled_item e fid fdir t d item -> settled_item e fid fdir t' d item.
Proof.
  intros U (gi & g & Hg & Hb & Hs). exists gi, g. split; [exact Hg|]. split; [exact Hb|].
  destruct (find (is_episode fid g) (feed_item d)) as [row|].
  - exact (present_untouched _ _ _ U Hs).
  - destruct Hs as [E Hs]. split; [exact E|exact (present_untouched _ _ _ U Hs)].
Qed.

Lemma settling_upsert_feed_item (q : engine) (now : string) (guid : pyval) (a : item_args) :
  preserves (settling e fid fdir) (on_con (upsert_feed_item q now fid guid a)).
Proof.
  intros s. unfold on_con.
  pose proof (upsert_feed_item_unique q now fid guid a (con s)) as U.
  pose proof (upsert_feed_item_feed q now fid guid a (con s)) as F.
  pose proof (fun item H => settled_upsert_feed_item e fid fdir (tree s) q now guid a
                              (con s) item H) as K.
  destruct (upsert_feed_item q now fid guid a (con s)) as [r d].
  unfold settling, intact. cbn [snd con tree set_con] in *.
  split; [apply untouched_refl|]. split; [exact F|].
  intros H. split; [exact (U H)|]. intros item. exact (K item H).
Qed.

Lemma settling_select (id : Z) :
  preserves (settling e fid fdir) (on_con (select_download_path id)).
Proof.
  intros s. unfold on_con. pose proof (select_download_path_same id (con s)) as E.
  destruct (select_download_path id (con s)) as [r d]. cbn [snd] in *. subst d.
  apply settling_same; reflexivity.
Qed.

Lemma settling_mkdir (parents exist_ok : bool) (p : path) :
  preserves (settling e fid fdir) (on_tree (fun t => mkdir parents exist_ok t p)).
Proof.
  intros s. pose proof (intact_mkdir parents exist_ok p s) as U.
  split; [exact U|]. unfold on_tree in *.
  destruct (mkdir parents exist_ok (tree s) p) as [r t']. split; [reflexivity|].
  cbn [snd con tree set_tree] in *. intros H. split; [exact H|].
  intros item. apply settled_tree. exact U.
Qed.

Lemma settling_reconcile_item (item : pyval) :
  preserves (settling e fid fdir) (reconcile_item e fid fdir item).
Proof.
  apply reconcile_item_preserves.
  - apply settling_refl.
  - apply settling_trans.
  - intros p. apply settling_mkdir.
  - intros q now guid a. apply settling_upsert_feed_item.
  - intros id. apply settling_select.
Qed.
End Settling.

Lemma find_fresh (id : Z) (l : list feed_item_row) :
  ~ In id (map feed_item_id l) ->
  find (fun r => feed_item_id r =? id) l = None.
Proof.
  induction l as [|a l IH]; cbn [find map]; [reflexivity|].
  intros H. destruct (feed_item_id a =? id) eqn:E.
  - apply Z.eqb_eq in E. exfalso. apply H. left. exact E.
  - apply IH. intros Hin. apply H. right. exact Hin.
Qed.

Lemma item_dir_ok (feed_dir : path) (item_season : pyval) (s s' : state)
      (item_dir : path) :
  (match item_season with
   | PNone => ret feed_dir
   | _ =>
       let item_dir := Path [as_posix feed_dir;
                             String.append "Season " (str item_season)] in
       let* _ := on_tree (fun t => mkdir false true t item_dir) in
       ret item_dir
   end) s = (Ok item_dir, s') ->
  con s' = con s
  /\ item_dir = match item_season with
                | PNone => feed_dir
                | _ => Path [as_posix feed_dir; String.append "Season " (str item_season)]
                end.
Proof.
  intros H.
  destruct item_season;
    [apply ret_ok in H; destruct H as [-> ->]; split; reflexivity| | |];
    cbv zeta in H; apply bind_ok in H; destruct H as (u & s1 & H1 & H);
    apply ret_ok in H; destruct H as [-> ->];
    unfold on_tree in H1;
    match type of H1 with
    | (let (_, _) := ?m in _) = _ => destruct m as [r t']
    end; injection H1 as _ <-; split; reflexivity.
Qed.

(** What [reconcile_item] returns: the episode it returns is the row its
    statements have read, and the file is the one resolved from the path of
    that row. *)
Lemma reconcile_item_resolve (e : env) (fid : Z) (fdir : path) (item : pyval)
      (s s' : state) (id : Z) (u : pyval) (f : path) :
  unique_ids (con s) ->
  reconcile_item e fid fdir item s = (Ok (id, u, f), s') ->
  exists guid g row,
    guid_of item = Ok guid /\ Db.bind guid = Ok g
    /\ find (fun r => feed_item_id r =? id) (feed_item (con s')) = Some row
    /\ resolve e fdir item (i_download_path row) = Ok f
    /\ (find (is_episode fid g) (feed_item (con s')) = Some row
        \/ (g = SNull /\ i_download_path row = SNull)).
Proof.
  intros Hn H. unfold reconcile_item in H.
  inv_lift_as H item_title Htitle. inv_lift_as H item_filename Hname.
  inv_lift_as H enclosure Henc. inv_lift_as H item_url Hurl.
  inv_lift_as H pub_text Hpub. inv_lift_as H pub_date Hdate.
  inv_lift_as H item_season Hseason.
  inv_bind_as H item_dir sd Hdir.
  apply item_dir_ok in Hdir. destruct Hdir as [Hcd Hdir].
  inv_lift_as H guid_elem Hge. inv_lift_as H guid Hguid.
  inv_lift_as H description Hdesc. inv_lift_as H duration Hdur.
  inv_lift_as H enclosure_1 He1. inv_lift_as H item_length Hlen.
  inv_lift_as H enclosure_2 He2. inv_lift_as H item_type Htype.
  inv_bind_as H id0 su Hup. inv_bind_as H stored ss Hsel. inv_bind_as H file sf Hfile.
  apply ret_ok in H. destruct H as [[= -> -> ->] ->].
  apply on_con_ok in Hup. destruct Hup as [Hup _].
  apply on_con_ok in Hsel. destruct Hsel as [Hsel _].
  apply select_download_path_ok in Hsel. destruct Hsel as (Hcs & row & Frow & Hp).
  assert (Hres : resolve e fdir item (i_download_path row) = Ok file /\ sf = ss).
  { rewrite Hp. destruct stored as [|n|p|y]; unfold ret, raise in Hfile.
    - injection Hfile as <- <-. split; [|reflexivity]. cbn [resolve]. unfold canonical.
      rewrite Htitle, Hname, Hpub, Hdate, Hseason. cbv zeta. rewrite <- Hdir.
      reflexivity.
    - discriminate Hfile.
    - injection Hfile as <- <-. split; reflexivity.
    - discriminate Hfile. }
  destruct Hres as [Hres ->]. rewrite Hcs. clear Hcs Hfile.
  assert (Hg : guid_of item = Ok guid) by (unfold guid_of; rewrite Hge; exact Hguid).
  rewrite Hcd in Hup.
  destruct (upsert_feed_item_cases (sqlite e) (current_timestamp e) fid guid
              {| a_title := item_title; a_description := description;
                 a_pub_date := PStr (Datetime.isoformat pub_date);
                 a_itunes_duration := duration; a_item_url := item_url;
                 a_item_length := item_length; a_item_type := item_type;
                 a_itunes_season := item_season |} (con s))
    as [[x E]|[(g & m & Hb & _ & Hnone & E)|(g & m & r0 & Hb & _ & Hin & Hk & Hf0 & E)]];
    rewrite E in Hup; [discriminate| |]; injection Hup as <- Hd;
    rewrite <- Hd in *; cbn [feed_item set_feed_items] in *;
    exists guid, g, row; (split; [exact Hg|]); (split; [exact Hb|]);
    (split; [exact Frow|]); (split; [exact Hres|]).
  - rewrite find_app_none in Frow by (apply find_fresh, next_rowid_fresh).
    cbn [find inserted feed_item_id] in Frow. rewrite Z.eqb_refl in Frow.
    injection Frow as <-.
    rewrite find_app_none by (apply filter_nil_find; exact Hnone).
    cbn [find]. unfold is_episode. cbn [i_feed_id i_guid inserted sql_eq].
    rewrite Z.eqb_refl. cbn [andb].
    destruct g as [|n|t|y]; cbn [sql_eq].
    + right. split; reflexivity.
    + destruct guid; discriminate Hb.
    + rewrite String.eqb_refl. left. reflexivity.
    + destruct guid; discriminate Hb.
  - left. unfold updated. rewrite find_map_same
      by (apply (updated_key _ r0 fid g m fid g Hn Hin Hk)).
    rewrite Hf0. cbn [option_map]. rewrite Z.eqb_refl. f_equal.
    apply find_some in Frow. destruct Frow as [Hrow Hid]. apply Z.eqb_eq in Hid.
    assert (Hn' : List.NoDup (map feed_item_id (updated (feed_item_id r0) g m (feed_item (con s)))))
      by (destruct (updated_ids (feed_item_id r0) g m (feed_item (con s))) as [-> _];
          exact Hn).
    symmetry. apply (unique_row _ _ _ Hn'); [| exact Hrow |].
    + unfold updated. apply in_map_iff. exists r0. rewrite Z.eqb_refl.
      split; [reflexivity|exact Hin].
    + exact Hid.
Qed.

Lemma file_at_exists (t : fs) (p : path) (data : string) :
  file_at t p = Some data -> exists_ t p = true.
Proof.
  unfold file_at, exists_. destruct (walk t [] (parts p)); [reflexivity|discriminate].
Qed.

Lemma with_path_ids (p : string) (id : Z) (l : list feed_item_row) :
  map feed_item_id (with_path p id l) = map feed_item_id l.
Proof.
  unfold with_path. rewrite map_map. apply map_ext. intros x.
  destruct (feed_item_id x =? id); reflexivity.
Qed.

Lemma settled_with_path (e : env) (fid : Z) (fdir : path) (t : fs) (d : db)
      (f : path) (id : Z) (item : pyval) :
  Path [as_posix f] = f -> exists_ t f = true ->
  settled_item e fid fdir t d item ->
  settled_item e fid fdir t
    (set_feed_items d (with_path (as_posix f) id (feed_item d)) (feed_item_seq d)) item.
Proof.
  intros Hf Hx (gi & g & Hg & Hb & Hs). exists gi, g.
  split; [exact Hg|]. split; [exact Hb|].
  cbn [feed_item set_feed_items]. unfold with_path. rewrite find_map_same.
  - destruct (find (is_episode fid g) (feed_item d)) as [row|]; cbn [option_map];
      [|exact Hs].
    destruct (feed_item_id row =? id); [|exact Hs].
    cbn [i_download_path with_download_path resolve]. exists f.
    split; [rewrite Hf; reflexivity|exact Hx].
  - intros x _. destruct (feed_item_id x =? id); reflexivity.
Qed.

Lemma settling_download (e : env) (fid : Z) (fdir : path) (u : pyval) (f : path)
      (id : Z) (s : state) :
  exists_ (tree s) f = false -> linked (con s) id f ->
  settling e fid fdir s (snd (download e u f id s)).
Proof.
  intros X L. unfold download, Eff.bind, note_download.
  set (s2 := {| con := con s; saved := saved s; tree := tree s; ticks := ticks s;
                requests := requests s;
                downloads := (downloads s ++ [{| for_episode := id; from_url := u;
                                                 destination := f |}])%list |}).
  pose proof (fetch_untouched e u f id s2 X) as U.
  change (tree s2) with (tree s) in U.
  destruct (fetch e u f id s2) as [[[]|x] s3] eqn:F; cbn [snd] in *.
  - destruct (fetch_ok e u f id s2 s3 X F)
      as (url & r & len & n & _ & _ & _ & _ & _ & _ & _ & Hfile & Hup).
    change (con s2) with (con s) in Hup.
    pose proof (update_download_path_cases (as_posix f) id (con s)) as C.
    rewrite Hup in C. cbn [snd] in C.
    split; [exact U|]. destruct C as [C|C]; rewrite C.
    + split; [reflexivity|]. intros H. split; [exact H|].
      intros item. apply settled_tree. exact U.
    + split; [reflexivity|]. intros H. split.
      * unfold unique_ids. cbn [feed_item set_feed_items]. rewrite with_path_ids.
        exact H.
      * intros item Hi. apply settled_with_path.
        -- exact (linked_parse _ _ _ L).
        -- exact (file_at_exists _ _ _ Hfile).
        -- apply (settled_tree e fid fdir (tree s)); [exact U|exact Hi].
  - destruct (fetch_raise e u f id s2 s3 x X F) as (C & _ & _).
    change (con s2) with (con s) in C.
    split; [exact U|]. rewrite C. split; [reflexivity|].
    intros H. split; [exact H|]. intros item. apply settled_tree. exact U.
Qed.

Lemma settling_process_item (e : env) (fid : Z) (fdir : path) (item : pyval) :
  preserves (settling e fid fdir) (process_item e fid fdir item).
Proof.
  intros s. unfold process_item, Eff.bind.
  pose proof (settling_reconcile_item e fid fdir item s) as Hr.
  destruct (reconcile_item e fid fdir item s) as [[[[id u] f]|x] s1] eqn:E;
    cbn [snd fst] in *; [|exact Hr].
  destruct (exists_ (tree s1) f) eqn:X; [exact Hr|].
  eapply settling_trans; [exact Hr|].
  apply settling_download; [exact X|].
  exact (reconcile_item_linked _ _ _ _ _ _ _ _ _ E).
Qed.

(** An item that the loop has got through is settled. *)
Lemma process_item_settles (e : env) (fid : Z) (fdir : path) (item : pyval)
      (s s' : state) :
  unique_ids (con s) ->
  process_item e fid fdir item s = (Ok tt, s') ->
  settled_item e fid fdir (tree s') (con s') item.
Proof.
  intros Hn H. unfold process_item in H. apply bind_ok in H.
  destruct H as ([[id u] f] & s1 & E & H). cbn [fst snd] in H.
  destruct (reconcile_item_resolve e fid fdir item s s1 id u f Hn E)
    as (guid & g & row & Hg & Hb & Frow & Hres & Hkey).
  pose proof (reconcile_item_linked _ _ _ _ _ _ _ _ _ E) as L.
  exists guid, g. split; [exact Hg|]. split; [exact Hb|].
  destruct (exists_ (tree s1) f) eqn:X.
  - injection H as <-. destruct Hkey as [Hkey|[Hnull Hp]].
    + rewrite Hkey. exists f. split; [exact Hres|exact X].
    + subst g. rewrite find_null. split; [reflexivity|].
      rewrite Hp in Hres. cbn [resolve] in Hres. exists f. split; [exact Hres|exact X].
  - unfold download, Eff.bind, note_download in H.
    match type of H with
    | fetch e u f id ?s2 = _ =>
        destruct (fetch_ok e u f id s2 s' X H)
          as (url & r & len & n & _ & _ & _ & _ & _ & _ & _ & Hfile & Hup);
        pose proof (fetch_untouched e u f id s2 X) as U; rewrite H in U
    end.
    cbn [con tree snd] in Hup, U.
    pose proof (file_at_exists _ _ _ Hfile) as Hx.
    pose proof (update_download_path_cases (as_posix f) id (con s1)) as C.
    rewrite Hup in C. cbn [snd] in C.
    assert (Hpres : present (tree s') (Ok f)) by (exists f; split; [reflexivity|exact Hx]).
    destruct Hkey as [Hkey|[Hnull Hp]].
    + destruct C as [C|C]; rewrite C.
      * rewrite Hkey, Hres. exact Hpres.
      * cbn [feed_item set_feed_items]. unfold with_path.
        rewrite find_map_same
          by (intros x _; destruct (feed_item_id x =? id); reflexivity).
        rewrite Hkey. cbn [option_map].
        destruct (feed_item_id row =? id).
        -- cbn [i_download_path with_download_path resolve].
           rewrite (linked_parse _ _ _ L). exact Hpres.
        -- rewrite Hres. exact Hpres.
    + subst g. rewrite find_null. split; [reflexivity|].
      rewrite Hp in Hres. cbn [resolve] in Hres. rewrite Hres. exact Hpres.
Qed.

(** For a settled item the loop starts no download and sends no request. *)
Lemma process_item_settled (e : env) (fid : Z) (fdir : path) (item : pyval)
      (s : state) :
  unique_ids (con s) ->
  settled_item e fid fdir (tree s) (con s) item ->
  quiet s (snd (process_item e fid fdir item s)).
Proof.
  intros Hn Hs. unfold process_item, Eff.bind.
  pose proof (reconcile_item_quiet e fid fdir item s) as Q.
  pose proof (settling_reconcile_item e fid fdir item s) as (_ & _ & K).
  destruct (reconcile_item e fid fdir item s) as [[[[id u] f]|x] s1] eqn:E;
    cbn [snd fst] in *; [|exact Q].
  destruct (K Hn) as [_ K1]. specialize (K1 item Hs).
  destruct (reconcile_item_resolve e fid fdir item s s1 id u f Hn E)
    as (guid & g & row & Hg & Hb & Frow & Hres & Hkey).
  destruct K1 as (guid' & g' & Hg' & Hb' & Hpres).
  rewrite Hg in Hg'. injection Hg' as <-. rewrite Hb in Hb'. injection Hb' as <-.
  assert (X : exists_ (tree s1) f = true).
  { destruct Hkey as [Hkey|[Hnull Hp]].
    - rewrite Hkey, Hres in Hpres. destruct Hpres as (p & [= <-] & Hx). exact Hx.
    - subst g. rewrite find_null in Hpres. destruct Hpres as [_ Hpres].
      rewrite Hp in Hres. cbn [resolve] in Hres. rewrite Hres in Hpres.
      destruct Hpres as (p & [= <-] & Hx). exact Hx. }
  rewrite X. exact Q.
Qed.

Lemma for_each_settling (e : env) (fid : Z) (fdir : path) (items : list pyval) :
  preserves (settling e fid fdir) (for_each (process_item e fid fdir) items).
Proof.
  apply (preserves_for_each _ (settling_refl e fid fdir) (settling_trans e fid fdir)).
  intros item. apply settling_process_item.
Qed.

Lemma for_each_settles (e : env) (fid : Z) (fdir : path) (items : list pyval) :
  forall s s',
    unique_ids (con s) ->
    for_each (process_item e fid fdir) items s = (Ok tt, s') ->
    forall item, In item items -> settled_item e fid fdir (tree s') (con s') item.
Proof.
  induction items as [|x items IH]; intros s s' Hn H item Hin; [destruct Hin|].
  apply for_each_ok in H. destruct H as (s1 & H1 & H2).
  pose proof (settling_process_item e fid fdir x s) as (_ & _ & K1).
  rewrite H1 in K1. cbn [snd] in K1. destruct (K1 Hn) as [Hn1 _].
  destruct Hin as [<-|Hin].
  - pose proof (for_each_settling e fid fdir items s1) as (_ & _ & K2).
    rewrite H2 in K2. cbn [snd] in K2. destruct (K2 Hn1) as [_ K].
    apply K. exact (process_item_settles e fid fdir x s s1 Hn H1).
  - exact (IH s1 s' Hn1 H2 item Hin).
Qed.

Lemma for_each_settled (e : env) (fid : Z) (fdir : path) (items : list pyval) :
  forall s,
    unique_ids (con s) ->
    (forall item, In item items -> settled_item e fid fdir (tree s) (con s) item) ->
    quiet s (snd (for_each (process_item e fid fdir) items s)).
Proof.
  induction items as [|x items IH]; intros s Hn Hs; [apply quiet_refl|].
  cbn [for_each]. unfold Eff.bind.
  pose proof (process_item_settled e fid fdir x s Hn (Hs x (or_introl eq_refl))) as Q.
  pose proof (settling_process_item e fid fdir x s) as (_ & _ & K).
  destruct (process_item e fid fdir x s) as [[u|y] s1]; cbn [snd] in *; [|exact Q].
  destruct (K Hn) as [Hn1 K1].
  eapply quiet_trans; [exact Q|]. apply IH; [exact Hn1|].
  intros item Hin. apply K1. apply Hs. right. exact Hin.
Qed.

Lemma bind_lift {S A B} (r : result A) (a : A) (k : A -> M S B) (s : S) :
  r = Ok a -> Eff.bind (lift r) k s = k a s.
Proof. intros ->. reflexivity. Qed.

Lemma get_feed_xml_state (e : env) (feed_url : string) (s : state) :
  con (snd (get_feed_xml e feed_url s)) = con s
  /\ tree (snd (get_feed_xml e feed_url s)) = tree s
  /\ downloads (snd (get_feed_xml e feed_url s)) = downloads s.
Proof.
  unfold get_feed_xml.
  destruct (Text.strip_prefix "file://" feed_url) as [name|]; [repeat split|].
  unfold Eff.bind, requests_get, raise, lift, ret. cbn [snd fst].
  destruct (http_get e _ feed_url) as [x|r]; [repeat split|].
  destruct (broken r); [repeat split|].
  destruct (raise_for_status r); repeat split.
Qed.

(** The feed id [upsert_feed] returns is that of the first Feed row of the
    URL, before the call if there is one, and after it. *)
Lemma upsert_feed_first (now url : string) (title doc : pyval) (d d' : db) (id : Z) :
  upsert_feed now url title doc d = (Ok id, d') ->
  feed_item d' = feed_item d
  /\ (exists r, find (is_feed url) (feed d') = Some r /\ feed_id r = id)
  /\ (forall r, find (is_feed url) (feed d) = Some r -> feed_id r = id).
Proof.
  unfold upsert_feed, Eff.bind, prepare, lift, ret.
  destruct (prepared d "feed" ["feed_id"; "feed_url"]); [|discriminate].
  change (find (fun r => sql_eq (f_feed_url r) (SText url)) (feed d))
    with (find (is_feed url) (feed d)).
  destruct (find (is_feed url) (feed d)) as [r|] eqn:F.
  - destruct (prepared d "feed" ["title"; "feed_url"]); [|discriminate].
    destruct (Db.bind title) as [t|]; [|discriminate].
    match goal with
    | |- context [prepared ?a "raw_feed" ?c] => destruct (prepared a "raw_feed" c)
    end; [|discriminate].
    intros [= <- <-]. cbn [feed_item feed set_feeds set_raw_feeds].
    split; [reflexivity|]. split; [|intros r' [= <-]; reflexivity].
    exists (with_title r t).
    change (map (fun x => if sql_eq (f_feed_url x) (SText url) then with_title x t else x)
                (feed d))
      with (map (fun x => if is_feed url x then with_title x t else x) (feed d)).
    rewrite find_map_same
      by (intros x _; destruct (is_feed url x) eqn:Ex; [|exact Ex]; exact Ex).
    rewrite F. cbn [option_map]. apply find_some in F. destruct F as [_ F].
    rewrite F. split; reflexivity.
  - destruct (prepared d "feed" ["date_added"; "feed_url"; "title"; "feed_id"]);
      [|discriminate].
    destruct (Db.bind title) as [t|]; [|discriminate].
    match goal with
    | |- context [prepared ?a "raw_feed" ?c] => destruct (prepared a "raw_feed" c)
    end; [|discriminate].
    intros [= <- <-]. cbn [feed_item feed set_feeds set_raw_feeds].
    split; [reflexivity|]. split; [|discriminate].
    eexists. rewrite find_app_none by exact F. cbn [find]. unfold is_feed.
    cbn [f_feed_url sql_eq]. rewrite String.eqb_refl. split; reflexivity.
Qed.

Lemma settled_same_items (e : env) (fid : Z) (fdir : path) (t : fs) (d d' : db)
      (item : pyval) :
  feed_item d' = feed_item d ->
  settled_item e fid fdir t d item -> settled_item e fid fdir t d' item.
Proof. unfold settled_item. intros ->. trivial. Qed.

(** X15.  After a pass that ingested a feed, a pass over the same document
    on the same database, with what was in the media tree still there,
    starts no download, and sends no request after the one for the feed. *)
Theorem second_pass_downloads_nothing (e : env) (feed_url : string) (s s1 s2 : state) :
  unique_ids (con s) ->
  process_one_feed e feed_url s = (Ok tt, s1) ->
  con s2 = con s1 ->
  untouched (tree s1) (tree s2) ->
  fst (get_feed_xml e feed_url s2) = fst (get_feed_xml e feed_url s) ->
  downloads (snd (process_one_feed e feed_url s2)) = downloads s2
  /\ requests (snd (process_one_feed e feed_url s2))
     = requests (snd (get_feed_xml e feed_url s2)).
Proof.
  intros Hn H Hcon Htree Hsame. unfold process_one_feed in H.
  inv_bind_as H text sa Hx.
  inv_lift_as H doc Hd. inv_lift_as H rss Hr. inv_lift_as H channel Hc.
  inv_lift_as H title Ht.
  inv_bind_as H fid sb Hup.
  inv_lift_as H name Hname.
  inv_bind_as H u s_c Hmk.
  inv_lift_as H v Hv. inv_lift_as H items Hit.
  (* the first pass *)
  destruct (get_feed_xml_state e feed_url s) as (Ca & _ & _).
  rewrite Hx in Ca, Hsame. cbn [snd fst] in Ca, Hsame.
  apply on_con_ok in Hup. destruct Hup as [Hup Hsb].
  destruct (upsert_feed_first _ _ _ _ _ _ _ Hup) as (Hitems & (r & Fr & Hrid) & _).
  assert (Hnb : unique_ids (con sb))
    by (unfold unique_ids; rewrite Hitems, Ca; exact Hn).
  pose proof (settling_mkdir e fid (Path [name]) true true (Path [name]) sb)
    as (_ & Fc & Kc).
  rewrite Hmk in Fc, Kc. cbn [snd] in Fc, Kc. destruct (Kc Hnb) as [Hnc _].
  pose proof (for_each_settling e fid (Path [name]) items s_c) as (_ & F1 & K1).
  rewrite H in F1, K1. cbn [snd] in F1, K1. destruct (K1 Hnc) as [Hn1 _].
  pose proof (for_each_settles e fid (Path [name]) items s_c s1 Hnc H) as Hall.
  assert (Ffeed : find (is_feed feed_url) (feed (con s1)) = Some r)
    by (rewrite F1, Fc; exact Fr).
  (* the second pass *)
  destruct (get_feed_xml_state e feed_url s2) as (C2 & T2 & D2).
  remember (snd (process_one_feed e feed_url s2)) as fin eqn:Hfin.
  unfold process_one_feed in Hfin. unfold Eff.bind at 1 in Hfin.
  destruct (get_feed_xml e feed_url s2) as [r2 s2a]. cbn [snd fst] in *. subst r2.
  rewrite (bind_lift _ doc) in Hfin by exact Hd.
  rewrite (bind_lift _ rss) in Hfin by exact Hr.
  rewrite (bind_lift _ channel) in Hfin by exact Hc.
  rewrite (bind_lift _ title) in Hfin by exact Ht.
  assert (Q : quiet s2a fin).
  { subst fin. unfold Eff.bind at 1.
    pose proof (on_con_quiet (upsert_feed (current_timestamp e) feed_url title doc) s2a)
      as Q1.
    destruct (on_con (upsert_feed (current_timestamp e) feed_url title doc) s2a)
      as [[fid2|x] s2b] eqn:U2; cbn [snd] in *; [|exact Q1].
    eapply quiet_trans; [exact Q1|].
    apply on_con_ok in U2. destruct U2 as [U2 Hs2b].
    destruct (upsert_feed_first _ _ _ _ _ _ _ U2) as (Hitems2 & _ & Hsame_id).
    assert (fid2 = fid).
    { rewrite <- Hrid. symmetry. apply Hsame_id. rewrite C2, Hcon. exact Ffeed. }
    subst fid2.
    rewrite (bind_lift _ name) by exact Hname.
    unfold Eff.bind at 1.
    pose proof (on_tree_quiet (fun t => mkdir true true t (Path [name])) s2b) as Q2.
    pose proof (settling_mkdir e fid (Path [name]) true true (Path [name]) s2b)
      as (_ & _ & K2).
    destruct (on_tree (fun t => mkdir true true t (Path [name])) s2b)
      as [[u2|x] s2c]; cbn [snd] in *; [|exact Q2].
    eapply quiet_trans; [exact Q2|].
    rewrite (bind_lift _ v) by exact Hv. rewrite (bind_lift _ items) by exact Hit.
    assert (Hn2b : unique_ids (con s2b))
      by (unfold unique_ids; rewrite Hitems2, C2, Hcon; exact Hn1).
    destruct (K2 Hn2b) as [Hn2c K2c].
    apply for_each_settled; [exact Hn2c|].
    intros item Hin. apply K2c.
    apply (settled_same_items e fid (Path [name]) _ (con s1));
      [rewrite Hitems2, C2, Hcon; reflexivity|].
    assert (Ts : tree s2b = tree s2)
      by (rewrite Hs2b; cbn [tree set_con]; exact T2).
    rewrite Ts. apply (settled_tree e fid (Path [name]) (tree s1)); [exact Htree|].
    exact (Hall item Hin). }
  destruct Q as [Qd Qr]. split; [congruence|exact Qr].
Qed.

Lemma con_commit (s : state) : con (commit s) = con s.
Proof. reflexivity. Qed.

Lemma untouched_commit (s : state) : untouched (tree s) (tree (commit s)).
Proof. apply untouched_refl. Qed.

Lemma second_pass_downloads_nothing_witness :
  let s1 := snd (process_one_feed Scenario.pair_site Scenario.feed_url (start None ∅)) in
  fst (process_one_feed Scenario.pair_site Scenario.feed_url (start None ∅)) = Ok tt
  /\ List.length (downloads s1) = 2%nat
  /\ downloads (snd (process_one_feed Scenario.pair_site Scenario.feed_url (commit s1)))
     = downloads (commit s1)
  /\ requests (snd (process_one_feed Scenario.pair_site Scenario.feed_url (commit s1)))
     = requests (snd (get_feed_xml Scenario.pair_site Scenario.feed_url (commit s1))).
Proof.
  cbv zeta. split; [vm_compute; reflexivity|]. split; [vm_compute; reflexivity|].
  apply (second_pass_downloads_nothing Scenario.pair_site Scenario.feed_url
           (start None ∅)
           (snd (process_one_feed Scenario.pair_site Scenario.feed_url (start None ∅)))).
  - constructor.
  - vm_compute. reflexivity.
  - apply con_commit.
  - apply untouched_commit.
  - vm_compute. reflexivity.
Defined.
